(** * Text_CUD: the markup modifier (text_cud/markup_modifier.py)

    A shallow embedding of [MarkupModifier] and the proofs of its
    specification.

    Modelling decisions.
    - A Python [str] is a Rocq [string]; a character is a code point below
      256.  The [str] methods the module calls are embedded in [Module Py].
    - The BeautifulSoup tree is the sequence of its [Tag] objects in document
      order (what [soup.find_all(True)] returns).  No method of the module
      inserts, moves or removes a node, so the state the methods read and
      write is the [name] and the [attrs] dictionary of each tag; an element
      handle is the position of the tag in that sequence.
    - An attribute value is a string or a list of strings ([value]): bs4
      keeps the value of a multi-valued attribute ([class], [rel], [rev],
      [headers], [accesskey], [dropzone], [accept-charset]) as the list of
      its white-space separated parts, and every other value, [style]
      included, as a string.  The methods call [split] and [replace] on the
      values they read; on a list these calls raise [AttributeError].  A
      list carries the name of its Python class, which the text of that
      exception shows: [list], or [AttributeValueList] from bs4 4.13 on.
    - A rule set is a record: a key of the [rules] dictionary may be missing,
      but an entry carries all its keys, and their values are strings (the
      [attributes] of a removal entry are a list of strings or [None]).
    - A method is a program ([prog]) over the atomic accesses to the tree:
      [has_attr], [get], [elem[k]], [elem[k] = v], [del elem[k]], reading
      [elem.name], enumerating the tags, raising, and writing a log record.
      [run] executes a program alone; [pool_step] interleaves the programs
      submitted to the thread pool of [apply_rules].
    - Of the [logging.debug] lines, the log keeps the one at the entry of
      each operation and the one after each logged mutation. *)

From Stdlib Require Import Ascii String.
From stdpp Require Import base strings list gmap relations.

(** ** Python string methods *)

Module Py.

(** [c.isspace()] for a code point below 256. *)
Definition isspace (c : ascii) : bool :=
  let n := nat_of_ascii c in
  ((9 <=? n) && (n <=? 13)) || ((28 <=? n) && (n <=? 32))
  || (n =? 133) || (n =? 160).

Fixpoint lstrip_by (f : ascii -> bool) (s : string) : string :=
  match s with
  | "" => ""
  | String c s' => if f c then lstrip_by f s' else s
  end.

Fixpoint rstrip_by (f : ascii -> bool) (s : string) : string :=
  match s with
  | "" => ""
  | String c s' =>
      match rstrip_by f s' with
      | "" => if f c then "" else String c ""
      | r => String c r
      end
  end.

Fixpoint mem (c : ascii) (chars : string) : bool :=
  match chars with
  | "" => false
  | String d chars' => Ascii.eqb c d || mem c chars'
  end.

(** [s.strip()] *)
Definition strip (s : string) : string :=
  rstrip_by isspace (lstrip_by isspace s).

(** [s.strip(chars)] *)
Definition strip_chars (chars s : string) : string :=
  rstrip_by (fun c => mem c chars) (lstrip_by (fun c => mem c chars) s).

(** [s.rstrip(chars)] *)
Definition rstrip_chars (chars s : string) : string :=
  rstrip_by (fun c => mem c chars) s.

(** [s.split(sep)] for a separator of one character. *)
Fixpoint split (sep : ascii) (s : string) : list string :=
  match s with
  | "" => [""]
  | String c s' =>
      if Ascii.eqb c sep then "" :: split sep s'
      else match split sep s' with
           | [] => [String c ""]
           | w :: ws => String c w :: ws
           end
  end.

(** [sep.join(l)] *)
Definition join (sep : string) (l : list string) : string :=
  String.concat sep l.

(** [s.startswith(p)] *)
Definition startswith (s p : string) : bool := String.prefix p s.

(** The scan of [s.replace(old, new)] for a non-empty [old]: [skip] counts
    the characters of a match that are still to be passed over. *)
Fixpoint replace_go (old new : string) (skip : nat) (s : string) : string :=
  match s with
  | "" => ""
  | String c s' =>
      match skip with
      | S k => replace_go old new k s'
      | O =>
          if String.prefix old s
          then new +:+ replace_go old new (String.length old - 1) s'
          else String c (replace_go old new 0 s')
      end
  end.

(** With an empty [old], Python puts [new] before every character and at
    the end. *)
Fixpoint intersperse (new s : string) : string :=
  match s with
  | "" => new
  | String c s' => new +:+ String c (intersperse new s')
  end.

(** [s.replace(old, new)] *)
Definition replace (s old new : string) : string :=
  match old with
  | "" => intersperse new s
  | _ => replace_go old new 0 s
  end.

Definition lower_char (c : ascii) : ascii :=
  let n := nat_of_ascii c in
  if ((65 <=? n) && (n <=? 90))
     || ((192 <=? n) && (n <=? 222) && negb (n =? 215))
  then ascii_of_nat (n + 32) else c.

(** [s.lower()] *)
Fixpoint lower (s : string) : string :=
  match s with
  | "" => ""
  | String c s' => String (lower_char c) (lower s')
  end.

(** [not s]: the empty string is falsy. *)
Definition is_empty (s : string) : bool :=
  match s with "" => true | _ => false end.

(** [repr(s)]: the string between quotes, its quotes, backslashes and
    characters that are not printable escaped.  Python takes double quotes
    when the string holds a single quote and no double quote. *)
Definition single_quote : ascii := "039".
Definition double_quote : ascii := "034".
Definition backslash : ascii := "092".

Definition hex_digit (n : nat) : ascii :=
  ascii_of_nat (if n <? 10 then 48 + n else 87 + n).

Definition escape_hex (c : ascii) : string :=
  let n := nat_of_ascii c in
  String backslash
    (String "x" (String (hex_digit (n / 16)) (String (hex_digit (n mod 16)) ""))).

(** [c.isprintable()] for a code point below 256. *)
Definition isprintable (c : ascii) : bool :=
  let n := nat_of_ascii c in
  ((32 <=? n) && (n <? 127)) || ((161 <=? n) && negb (n =? 173)).

Definition repr_char (quote c : ascii) : string :=
  if Ascii.eqb c quote || Ascii.eqb c backslash then String backslash (String c "")
  else if Ascii.eqb c "009" then String backslash "t"
  else if Ascii.eqb c "010" then String backslash "n"
  else if Ascii.eqb c "013" then String backslash "r"
  else if isprintable c then String c ""
  else escape_hex c.

Fixpoint repr_go (quote : ascii) (s : string) : string :=
  match s with
  | "" => ""
  | String c s' => repr_char quote c +:+ repr_go quote s'
  end.

Definition repr (s : string) : string :=
  let quote :=
    if mem single_quote s && negb (mem double_quote s) then double_quote
    else single_quote in
  String quote (repr_go quote s +:+ String quote "").

End Py.

(** ** The tree, the exceptions and the log *)

(** An attribute value: a string, or the list of the parts of a
    multi-valued attribute, an object of the class named [class]. *)
Inductive value :=
| Str (s : string)
| Lst (class : string) (parts : list string).

(** [not v]: the empty string and the empty list are falsy. *)
Definition is_falsy_value (v : value) : bool :=
  match v with
  | Str s => Py.is_empty s
  | Lst _ [] => true
  | Lst _ (_ :: _) => false
  end.

(** [type(v).__name__] *)
Definition type_name (v : value) : string :=
  match v with
  | Str _ => "str"
  | Lst class _ => class
  end.

(** A [bs4.element.Tag]: its name and its attribute dictionary. *)
Record Tag := { name : string; attrs : gmap string value }.

(** [elem[a] = v] for a string [v]. *)
Definition set_attr (a v : string) (e : Tag) : Tag :=
  {| name := name e; attrs := <[a := Str v]> (attrs e) |}.

Definition del_attr (a : string) (e : Tag) : Tag :=
  {| name := name e; attrs := delete a (attrs e) |}.

Definition has_attr (a : string) (e : Tag) : bool :=
  bool_decide (is_Some (attrs e !! a)).

Inductive exn :=
| MarkupModificationError (message : string) (details : option string)
| IndexError (msg : string)
| KeyError (key : string)
| AttributeError (msg : string).

(** [str(e)].  [MarkupModificationError.__init__] passes
    [f"{message}: {details}" if details else message] to [Exception];
    [str] of a [KeyError] is the [repr] of the key. *)
Definition str (e : exn) : string :=
  match e with
  | MarkupModificationError message (Some details) =>
      if Py.is_empty details then message else message +:+ ": " +:+ details
  | MarkupModificationError message None => message
  | IndexError msg => msg
  | KeyError key => Py.repr key
  | AttributeError msg => msg
  end.

(** What [v.method] raises when the class of [v] has no such method. *)
Definition no_attribute (v : value) (method : string) : exn :=
  AttributeError
    ("'" +:+ type_name v +:+ "' object has no attribute '" +:+ method +:+ "'").

(** A method of [MarkupModifier] together with its arguments: what is handed
    to [executor.submit] and to [loop.run_in_executor]. *)
Inductive call :=
| RemoveStyleProperties (properties : option (list string))
| RemoveAttributes (attributes : option (list string))
| ReplaceAttributeValue (attribute old_value new_value : string)
| AddAttribute (tag attribute value : string).

Inductive log_record :=
| Entered (c : call)
| Removed (attr tag_name : string)
| Updated (attribute : string) (written : value)
| Added (attribute tag value : string).

Record state := { soup : list Tag; log : list log_record }.

Definition with_soup (f : list Tag -> list Tag) (st : state) : state :=
  {| soup := f (soup st); log := log st |}.

Definition write_log (r : log_record) (st : state) : state :=
  {| soup := soup st; log := log st ++ [r] |}.

(** ** Programs over the tree *)

Inductive prog :=
| Done
| Raise (e : exn)
| Log (r : log_record) (k : prog)
| FindAll (k : list nat -> prog)
| GetName (elem : nat) (k : string -> prog)
| HasAttr (elem : nat) (a : string) (k : bool -> prog)
| GetAttr (elem : nat) (a : string) (k : option value -> prog)
| SetItem (elem : nat) (a v : string) (k : prog)
| DelItem (elem : nat) (a : string) (k : prog).

(** [p ;; q]: run [q] when [p] returns; an exception of [p] propagates. *)
Fixpoint andthen (p q : prog) : prog :=
  match p with
  | Done => q
  | Raise e => Raise e
  | Log r k => Log r (andthen k q)
  | FindAll k => FindAll (fun l => andthen (k l) q)
  | GetName i k => GetName i (fun x => andthen (k x) q)
  | HasAttr i a k => HasAttr i a (fun x => andthen (k x) q)
  | GetAttr i a k => GetAttr i a (fun x => andthen (k x) q)
  | SetItem i a v k => SetItem i a v (andthen k q)
  | DelItem i a k => DelItem i a (andthen k q)
  end.

(** [try: p except Exception as e: h e] *)
Fixpoint try_except (p : prog) (h : exn -> prog) : prog :=
  match p with
  | Done => Done
  | Raise e => h e
  | Log r k => Log r (try_except k h)
  | FindAll k => FindAll (fun l => try_except (k l) h)
  | GetName i k => GetName i (fun x => try_except (k x) h)
  | HasAttr i a k => HasAttr i a (fun x => try_except (k x) h)
  | GetAttr i a k => GetAttr i a (fun x => try_except (k x) h)
  | SetItem i a v k => SetItem i a v (try_except k h)
  | DelItem i a k => DelItem i a (try_except k h)
  end.

(** [for x in l: body x] *)
Fixpoint for_each {A : Type} (l : list A) (body : A -> prog) : prog :=
  match l with
  | [] => Done
  | x :: l' => andthen (body x) (for_each l' body)
  end.

Declare Scope prog_scope.
Delimit Scope prog_scope with prog.
Bind Scope prog_scope with prog.
Notation "p ;; q" := (andthen p q)
  (at level 100, q at level 200, right associativity) : prog_scope.
Notation "x <- c ;; k" := (c (fun x => k))
  (at level 100, c at next level, k at level 200, right associativity,
   only parsing) : prog_scope.

(** [elem[a]]: a [KeyError] when the attribute is missing. *)
Definition GetItem (elem : nat) (a : string) (k : value -> prog) : prog :=
  GetAttr elem a (fun found =>
    match found with
    | Some v => k v
    | None => Raise (KeyError a)
    end).

Definition logging_debug (r : log_record) : prog := Log r Done.
Definition set_item (elem : nat) (a v : string) : prog := SetItem elem a v Done.
Definition del_item (elem : nat) (a : string) : prog := DelItem elem a Done.

(** One atomic access of a program to the state; [None] when the program has
    returned or raised.  A handle outside the tree reads as a tag without
    name and attributes, and writing through it changes nothing (handles
    only come from [FindAll], so this never happens). *)
Definition tag_at (st : state) (i : nat) : Tag :=
  default {| name := ""; attrs := ∅ |} (soup st !! i).

Definition act (p : prog) (st : state) : option (prog * state) :=
  match p with
  | Done => None
  | Raise _ => None
  | Log r k => Some (k, write_log r st)
  | FindAll k => Some (k (seq 0 (length (soup st))), st)
  | GetName i k => Some (k (name (tag_at st i)), st)
  | HasAttr i a k => Some (k (has_attr a (tag_at st i)), st)
  | GetAttr i a k => Some (k (attrs (tag_at st i) !! a), st)
  | SetItem i a v k => Some (k, with_soup (alter (set_attr a v) i) st)
  | DelItem i a k => Some (k, with_soup (alter (del_attr a) i) st)
  end.

(** Running a program alone, to its end. *)
Fixpoint run (p : prog) (st : state) : state * option exn :=
  match p with
  | Done => (st, None)
  | Raise e => (st, Some e)
  | Log r k => run k (write_log r st)
  | FindAll k => run (k (seq 0 (length (soup st)))) st
  | GetName i k => run (k (name (tag_at st i))) st
  | HasAttr i a k => run (k (has_attr a (tag_at st i))) st
  | GetAttr i a k => run (k (attrs (tag_at st i) !! a)) st
  | SetItem i a v k => run k (with_soup (alter (set_attr a v) i) st)
  | DelItem i a k => run k (with_soup (alter (del_attr a) i) st)
  end.

(** ** The methods of [MarkupModifier] *)

(** [not l] for an optional list: [None] and [[]] are falsy. *)
Definition is_falsy {A : Type} (l : option (list A)) : bool :=
  match l with
  | None | Some [] => true
  | Some (_ :: _) => false
  end.

Definition items {A : Type} (l : option (list A)) : list A := default [] l.

(** [find_all] with a filter visits the tags one by one and keeps those
    that pass the test. *)
Fixpoint select (test : nat -> (bool -> prog) -> prog) (elems : list nat)
    (k : list nat -> prog) : prog :=
  match elems with
  | [] => k []
  | elem :: rest =>
      test elem (fun b =>
        select test rest (fun found => k (if b then elem :: found else found)))
  end.

(** [soup.find_all(attrs={attribute: True})] *)
Definition find_all_attrs (attribute : string) (k : list nat -> prog) : prog :=
  FindAll (fun elems => select (fun elem => HasAttr elem attribute) elems k).

(** [soup.find_all(tag_name)] *)
Definition find_all_name (tag_name : string) (k : list nat -> prog) : prog :=
  FindAll (fun elems =>
    select (fun elem kb => GetName elem (fun n => kb (String.eqb n tag_name)))
      elems k).

(** The new value of a [style] attribute in [remove_style_properties]. *)
Definition updated_style (properties : list string) (original_style : string)
    : string :=
  Py.strip_chars ";"
    (Py.join ";"
       (map Py.strip
          (filter
             (fun s => negb (existsb (fun prop => Py.startswith (Py.strip s) prop)
                               properties) = true)
             (Py.split ";"%char original_style)))).

Definition remove_style_properties (properties : option (list string)) : prog :=
  (logging_debug (Entered (RemoveStyleProperties properties)) ;;
   if is_falsy properties then
     Raise (MarkupModificationError
              "List of properties is empty or None, removal not possible."
              (Some "Passed an empty list of properties"))
   else
     try_except
       (elems <- FindAll ;;
        for_each elems (fun elem =>
          styled <- HasAttr elem "style" ;;
          if styled then
            original_style <- GetItem elem "style" ;;
            match original_style with
            | Str original =>
                let updated := updated_style (items properties) original in
                if Py.is_empty updated then del_item elem "style"
                else set_item elem "style" updated
            | Lst _ _ => Raise (no_attribute original_style "split")
            end
          else Done))
       (fun e => Raise (MarkupModificationError
                          "Error during the removal of style properties"
                          (Some (str e)))))%prog.

Definition remove_attributes (attributes : option (list string)) : prog :=
  (logging_debug (Entered (RemoveAttributes attributes)) ;;
   if is_falsy attributes then
     Raise (MarkupModificationError
              "List of attributes is empty or None, removal not possible."
              (Some "Passed an empty list of attributes"))
   else
     try_except
       (elems <- FindAll ;;
        for_each elems (fun elem =>
          for_each (items attributes) (fun attr =>
            present <- HasAttr elem attr ;;
            if present then
              del_item elem attr ;;
              tag_name <- GetName elem ;;
              logging_debug (Removed attr tag_name)
            else Done)))
       (fun e => Raise (MarkupModificationError
                          "Error during the removal of attributes"
                          (Some (str e)))))%prog.

Definition replace_attribute_value (attribute old_value new_value : string)
    : prog :=
  (logging_debug (Entered (ReplaceAttributeValue attribute old_value new_value)) ;;
   elements_to_process <- find_all_attrs attribute ;;
   try_except
     (for_each elements_to_process (fun elem =>
        current_value <- GetAttr elem attribute ;;
        match current_value with
        | Some current_value =>
            if is_falsy_value current_value then Done
            else
              match current_value with
              | Str current =>
                  let updated_value :=
                    Py.replace current (Py.strip_chars ";" old_value)
                      (Py.strip_chars ";" new_value) in
                  if String.eqb updated_value current then Done
                  else
                    set_item elem attribute updated_value ;;
                    written <- GetItem elem attribute ;;
                    logging_debug (Updated attribute written)
              | Lst _ _ => Raise (no_attribute current_value "replace")
              end
        | None => Done
        end))
     (fun e => Raise (MarkupModificationError
                        "Error during attribute value replacement"
                        (Some (str e)))))%prog.

Definition add_attribute (tag attribute value : string) : prog :=
  (logging_debug (Entered (AddAttribute tag attribute value)) ;;
   try_except
     (elems <- find_all_name (Py.lower tag) ;;
      for_each elems (fun elem =>
        set_item elem attribute value ;;
        logging_debug (Added attribute tag value)))
     (fun e => Raise (MarkupModificationError
                        "Error during attribute addition"
                        (Some (str e)))))%prog.

(** Calling the method a [call] names. *)
Definition invoke (c : call) : prog :=
  match c with
  | RemoveStyleProperties properties => remove_style_properties properties
  | RemoveAttributes attributes => remove_attributes attributes
  | ReplaceAttributeValue attribute old_value new_value =>
      replace_attribute_value attribute old_value new_value
  | AddAttribute tag attribute value => add_attribute tag attribute value
  end.

(** ** Rule sets *)

Module RemoveRule.
Record t := { attributes : option (list string) }.
End RemoveRule.

Module ReplaceRule.
Record t := { attribute : string; old_value : string; new_value : string }.
End ReplaceRule.

Module AddRule.
Record t := { tag : string; attribute : string; value : string }.
End AddRule.

(** The [rules] dictionary: a key may be missing. *)
Module Rules.
Record t := {
  remove_attributes : option (list RemoveRule.t);
  replace_attributes : option (list ReplaceRule.t);
  add_attributes : option (list AddRule.t)
}.
End Rules.

Definition replace_call (rule : ReplaceRule.t) : call :=
  ReplaceAttributeValue (ReplaceRule.attribute rule) (ReplaceRule.old_value rule)
    (ReplaceRule.new_value rule).

Definition add_call (rule : AddRule.t) : call :=
  AddAttribute (AddRule.tag rule) (AddRule.attribute rule) (AddRule.value rule).

(** ** [apply_rules_async] *)

(** [await loop.run_in_executor(None, method, *args)]: the coroutine resumes
    when the call has finished. *)
Definition await_run_in_executor (c : call) : prog := invoke c.

Definition apply_rules_async (rules : Rules.t) : prog :=
  try_except
    ((match Rules.remove_attributes rules with
      | Some [] => Raise (IndexError "list index out of range")
      | Some (first :: _) =>
          await_run_in_executor (RemoveAttributes (RemoveRule.attributes first))
      | None => Done
      end) ;;
     (match Rules.replace_attributes rules with
      | Some entries =>
          for_each entries (fun rule => await_run_in_executor (replace_call rule))
      | None => Done
      end) ;;
     (match Rules.add_attributes rules with
      | Some entries =>
          for_each entries (fun rule => await_run_in_executor (add_call rule))
      | None => Done
      end))%prog
    (fun e => Raise (MarkupModificationError
                       "Error during asynchronous rule application"
                       (Some (str e)))).

(** ** [apply_rules]: the thread pool *)

(** The calls handed to [executor.submit], in the order of the [futures]
    list, or the exception raised before anything was submitted. *)
Definition submitted (rules : Rules.t) : exn + list call :=
  match Rules.remove_attributes rules with
  | Some [] => inl (IndexError "list index out of range")
  | remove =>
      inr (match remove with
           | Some (first :: _) => [RemoveAttributes (RemoveRule.attributes first)]
           | _ => []
           end
           ++ map replace_call (items (Rules.replace_attributes rules))
           ++ map add_call (items (Rules.add_attributes rules)))
  end.

(** A step of the pool: one worker performs one atomic access.  Every
    submitted call is taken to be running; the interleaving is free. *)
Inductive pool_step : list prog * state -> list prog * state -> Prop :=
| pool_step_worker (workers : list prog) (st : state) (i : nat) (p p' : prog)
    (st' : state) :
    workers !! i = Some p ->
    act p st = Some (p', st') ->
    pool_step (workers, st) (<[i := p']> workers, st').

Definition finished (p : prog) : Prop :=
  match p with Done | Raise _ => True | _ => False end.

Definition wrap_rule_application (e : exn) : exn :=
  MarkupModificationError "Error during rule application" (Some (str e)).

(** [apply_rules rules st st' r]: from [st], [apply_rules(rules)] can end in
    [st'], returning ([r = None]) or raising [r = Some e]. *)
Inductive apply_rules (rules : Rules.t) (st : state)
    : state -> option exn -> Prop :=
| apply_rules_not_submitted (e : exn) :
    submitted rules = inl e ->
    apply_rules rules st st (Some (wrap_rule_application e))
| apply_rules_returns (calls : list call) (workers : list prog) (st' : state) :
    submitted rules = inr calls ->
    rtc pool_step (map invoke calls, st) (workers, st') ->
    Forall (fun p => p = Done) workers ->
    apply_rules rules st st' None
| apply_rules_raises (calls : list call) (workers : list prog) (st' : state)
    (i : nat) (e : exn) :
    submitted rules = inr calls ->
    rtc pool_step (map invoke calls, st) (workers, st') ->
    Forall finished workers ->
    workers !! i = Some (Raise e) ->
    apply_rules rules st st' (Some (wrap_rule_application e)).

(** ** Running programs: sequencing, handlers and loops *)

Lemma run_andthen (p q : prog) (st : state) :
  run (andthen p q) st =
  match run p st with
  | (st', None) => run q st'
  | (st', Some e) => (st', Some e)
  end.
Proof.
  revert st; induction p; intros st; simpl; auto.
Qed.

Lemma run_try_except (p : prog) (h : exn -> prog) (st : state) :
  run (try_except p h) st =
  match run p st with
  | (st', None) => (st', None)
  | (st', Some e) => run (h e) st'
  end.
Proof.
  revert st; induction p; intros st; simpl; auto.
Qed.

(** The handles of the tags of [l] that satisfy [sel], when the first tag of
    [l] has handle [start]. *)
Fixpoint handles_where (sel : Tag -> bool) (start : nat) (l : list Tag)
    : list nat :=
  match l with
  | [] => []
  | e :: l' =>
      if sel e then start :: handles_where sel (S start) l'
      else handles_where sel (S start) l'
  end.

Lemma handles_where_all (start : nat) (l : list Tag) :
  handles_where (fun _ => true) start l = seq start (length l).
Proof.
  revert start; induction l as [|e l IH]; intros start; simpl; [done|].
  by rewrite IH.
Qed.

Lemma tag_at_middle (pre suf : list Tag) (e : Tag) (lg : list log_record) :
  tag_at {| soup := pre ++ e :: suf; log := lg |} (length pre) = e.
Proof. unfold tag_at; simpl. by rewrite list_lookup_middle. Qed.

Lemma insert_middle {A : Type} (pre suf : list A) (x y : A) :
  <[length pre := y]> (pre ++ x :: suf) = pre ++ y :: suf.
Proof.
  rewrite insert_app_r_alt by lia.
  by replace (length pre - length pre) with 0 by lia.
Qed.

Lemma snoc_app {A : Type} (pre suf : list A) (x : A) :
  pre ++ x :: suf = (pre ++ [x]) ++ suf.
Proof. by rewrite <- app_assoc. Qed.

Lemma length_snoc {A : Type} (pre : list A) (x : A) :
  length (pre ++ [x]) = S (length pre).
Proof. rewrite length_app; simpl; lia. Qed.

(** A [select] whose test reads a tag without changing the state returns the
    handles of the tags that pass. *)
Lemma run_select (test : nat -> (bool -> prog) -> prog) (sel : Tag -> bool) :
  (forall i st e k, soup st !! i = Some e ->
     run (test i k) st = run (k (sel e)) st) ->
  forall (suf pre : list Tag) (lg : list log_record) (k : list nat -> prog),
    run (select test (seq (length pre) (length suf)) k)
        {| soup := pre ++ suf; log := lg |}
    = run (k (handles_where sel (length pre) suf))
        {| soup := pre ++ suf; log := lg |}.
Proof.
  intros Htest; induction suf as [|e suf IH]; intros pre lg k; simpl; [done|].
  rewrite (Htest _ _ e); [|by simpl; rewrite list_lookup_middle].
  rewrite snoc_app, <- (length_snoc pre e), IH.
  by destruct (sel e).
Qed.

(** A loop over the selected tags whose body rewrites its own tag by [f] and
    logs [g] rewrites every selected tag, in document order. *)
Lemma run_for_each_where (sel : Tag -> bool) (f : Tag -> Tag)
    (g : Tag -> list log_record) (body : nat -> prog) :
  (forall i st e, soup st !! i = Some e -> sel e = true ->
     run (body i) st
     = ({| soup := <[i := f e]> (soup st); log := log st ++ g e |}, None)) ->
  forall (suf pre : list Tag) (lg : list log_record),
    run (for_each (handles_where sel (length pre) suf) body)
        {| soup := pre ++ suf; log := lg |}
    = ({| soup := pre ++ map (fun e => if sel e then f e else e) suf;
          log := lg ++ concat (map (fun e => if sel e then g e else []) suf) |},
       None).
Proof.
  intros Hbody; induction suf as [|e suf IH]; intros pre lg; simpl.
  - by rewrite !app_nil_r.
  - destruct (sel e) eqn:Hsel; simpl.
    + rewrite run_andthen, (Hbody _ _ e); [|by simpl; rewrite list_lookup_middle|done].
      simpl. rewrite insert_middle.
      rewrite (snoc_app pre suf), <- (length_snoc pre (f e)), IH.
      by rewrite <- !app_assoc.
    + rewrite (snoc_app pre suf), <- (length_snoc pre e), IH.
      by rewrite <- !app_assoc.
Qed.

(** A loop that raises at a [bad] tag stops there: the tags before the first
    bad one are rewritten by [f], the bad one and those after it are left. *)
Fixpoint until_bad (bad : Tag -> bool) (f : Tag -> Tag) (l : list Tag)
    : list Tag :=
  match l with
  | [] => []
  | e :: l' => if bad e then e :: l' else f e :: until_bad bad f l'
  end.

Fixpoint records_until (bad : Tag -> bool) (g : Tag -> list log_record)
    (l : list Tag) : list log_record :=
  match l with
  | [] => []
  | e :: l' => if bad e then [] else g e ++ records_until bad g l'
  end.

Lemma until_bad_none (bad : Tag -> bool) (f : Tag -> Tag) (l : list Tag) :
  Forall (fun e => bad e = false) l -> until_bad bad f l = map f l.
Proof. induction 1 as [|e l He _ IH]; simpl; [done|]. by rewrite He, IH. Qed.

Lemma records_until_none (bad : Tag -> bool) (g : Tag -> list log_record)
    (l : list Tag) :
  Forall (fun e => bad e = false) l ->
  records_until bad g l = concat (map g l).
Proof. induction 1 as [|e l He _ IH]; simpl; [done|]. by rewrite He, IH. Qed.

Lemma find_none (bad : Tag -> bool) (l : list Tag) :
  List.find bad l = None <-> Forall (fun e => bad e = false) l.
Proof.
  induction l as [|e l IH]; simpl.
  - split; [constructor|done].
  - rewrite Forall_cons. destruct (bad e); [|tauto].
    split; [done|]. by intros [? _].
Qed.

(** The tags split at the first bad one. *)
Lemma until_bad_split (bad : Tag -> bool) (f : Tag -> Tag)
    (g : Tag -> list log_record) (good rest : list Tag) (e : Tag) :
  Forall (fun e' => bad e' = false) good -> bad e = true ->
  until_bad bad f (good ++ e :: rest) = map f good ++ e :: rest /\
  records_until bad g (good ++ e :: rest) = concat (map g good) /\
  List.find bad (good ++ e :: rest) = Some e.
Proof.
  intros Hgood He. induction Hgood as [|x good Hx _ (IH1 & IH2 & IH3)]; simpl.
  - by rewrite He.
  - by rewrite Hx, IH1, IH2, IH3.
Qed.

(** A loop over the selected tags whose body rewrites its own tag by [f] and
    logs [g], and raises [err] at a bad tag. *)
Lemma run_for_each_until (sel bad : Tag -> bool) (f : Tag -> Tag)
    (g : Tag -> list log_record) (err : Tag -> exn) (body : nat -> prog) :
  (forall e, sel e = false -> bad e = false /\ f e = e /\ g e = []) ->
  (forall i st e, soup st !! i = Some e -> sel e = true -> bad e = false ->
     run (body i) st
     = ({| soup := <[i := f e]> (soup st); log := log st ++ g e |}, None)) ->
  (forall i st e, soup st !! i = Some e -> bad e = true ->
     run (body i) st = (st, Some (err e))) ->
  forall (suf pre : list Tag) (lg : list log_record),
    run (for_each (handles_where sel (length pre) suf) body)
        {| soup := pre ++ suf; log := lg |}
    = ({| soup := pre ++ until_bad bad f suf;
          log := lg ++ records_until bad g suf |},
       err <$> List.find bad suf).
Proof.
  intros Hout Hbody Hbad; induction suf as [|e suf IH]; intros pre lg; simpl.
  - by rewrite !app_nil_r.
  - destruct (sel e) eqn:Hsel; simpl.
    + destruct (bad e) eqn:He; simpl.
      * rewrite run_andthen, (Hbad _ _ e);
          [|by simpl; rewrite list_lookup_middle|done].
        by rewrite app_nil_r.
      * rewrite run_andthen, (Hbody _ _ e);
          [|by simpl; rewrite list_lookup_middle|done|done].
        simpl. rewrite insert_middle.
        rewrite (snoc_app pre suf), <- (length_snoc pre (f e)), IH.
        by rewrite <- !app_assoc.
    + destruct (Hout e Hsel) as (-> & -> & ->). simpl.
      rewrite (snoc_app pre suf), <- (length_snoc pre e), IH.
      by rewrite <- !app_assoc.
Qed.

(** ** What each method does to one tag *)

(** [remove_attributes]: the tag after the inner loop, and its log lines. *)
Definition without_attributes (attributes : list string) (e : Tag) : Tag :=
  foldl (fun e' attr => del_attr attr e') e attributes.

Fixpoint removed_records (attributes : list string) (e : Tag)
    : list log_record :=
  match attributes with
  | [] => []
  | attr :: rest =>
      if has_attr attr e
      then Removed attr (name e) :: removed_records rest (del_attr attr e)
      else removed_records rest e
  end.

Lemma tag_at_lookup (st : state) (i : nat) (e : Tag) :
  soup st !! i = Some e -> tag_at st i = e.
Proof. unfold tag_at; by intros ->. Qed.

Lemma alter_as_insert {A : Type} (f : A -> A) (l : list A) (i : nat) (x : A) :
  l !! i = Some x -> alter f i l = <[i := f x]> l.
Proof.
  intros H. apply list_eq; intros j.
  destruct (decide (i = j)) as [->|Hne].
  - rewrite list_lookup_alter_eq, H; simpl.
    by rewrite list_lookup_insert_eq by (by eapply lookup_lt_Some).
  - by rewrite list_lookup_alter_ne, list_lookup_insert_ne.
Qed.

Lemma del_attr_absent (a : string) (e : Tag) :
  has_attr a e = false -> del_attr a e = e.
Proof.
  unfold has_attr, del_attr; intros H; destruct e as [n m]; simpl in *.
  f_equal. apply delete_id.
  apply bool_decide_eq_false in H. by apply eq_None_not_Some.
Qed.

Lemma state_eta (st : state) : {| soup := soup st; log := log st |} = st.
Proof. by destruct st. Qed.

Lemma run_remove_inner (attributes : list string) :
  forall (i : nat) (st : state) (e : Tag),
    soup st !! i = Some e ->
    run (for_each attributes (fun attr =>
           present <- HasAttr i attr ;;
           if present then
             del_item i attr ;;
             tag_name <- GetName i ;;
             logging_debug (Removed attr tag_name)
           else Done)%prog) st
    = ({| soup := <[i := without_attributes attributes e]> (soup st);
          log := log st ++ removed_records attributes e |}, None).
Proof.
  induction attributes as [|attr rest IH]; intros i st e Hi; cbn [for_each].
  - simpl. by rewrite list_insert_id, app_nil_r, state_eta.
  - rewrite run_andthen; cbn [run]. rewrite (tag_at_lookup _ _ _ Hi).
    cbn [removed_records without_attributes foldl].
    destruct (has_attr attr e) eqn:Hhas.
    + change (run (del_item i attr ;; tag_name <- GetName i ;;
                   logging_debug (Removed attr tag_name))%prog st)
        with (write_log
                (Removed attr
                   (name (tag_at (with_soup (alter (del_attr attr) i) st) i)))
                (with_soup (alter (del_attr attr) i) st), @None exn).
      erewrite tag_at_lookup
        by (simpl; rewrite list_lookup_alter_eq, Hi; reflexivity).
      erewrite IH by (simpl; rewrite list_lookup_alter_eq, Hi; reflexivity).
      simpl.
      rewrite (alter_as_insert _ _ _ _ Hi), list_insert_insert_eq.
      by rewrite <- app_assoc.
    + cbn [run]. rewrite (IH _ _ _ Hi). by rewrite del_attr_absent.
Qed.

Lemma run_select_soup (test : nat -> (bool -> prog) -> prog) (sel : Tag -> bool)
    (k : list nat -> prog) (st : state) :
  (forall i st e k, soup st !! i = Some e ->
     run (test i k) st = run (k (sel e)) st) ->
  run (select test (seq 0 (length (soup st))) k) st
  = run (k (handles_where sel 0 (soup st))) st.
Proof.
  intros Htest. destruct st as [l lg].
  exact (run_select test sel Htest l [] lg k).
Qed.

Lemma run_for_each_selected (sel : Tag -> bool) (f : Tag -> Tag)
    (g : Tag -> list log_record) (body : nat -> prog) (st : state) :
  (forall i st e, soup st !! i = Some e -> sel e = true ->
     run (body i) st
     = ({| soup := <[i := f e]> (soup st); log := log st ++ g e |}, None)) ->
  run (for_each (handles_where sel 0 (soup st)) body) st
  = ({| soup := map (fun e => if sel e then f e else e) (soup st);
        log := log st
               ++ concat (map (fun e => if sel e then g e else []) (soup st)) |},
     None).
Proof.
  intros Hbody. destruct st as [l lg].
  exact (run_for_each_where sel f g body Hbody l [] lg).
Qed.

Lemma run_for_each_until_selected (sel bad : Tag -> bool) (f : Tag -> Tag)
    (g : Tag -> list log_record) (err : Tag -> exn) (body : nat -> prog)
    (st : state) :
  (forall e, sel e = false -> bad e = false /\ f e = e /\ g e = []) ->
  (forall i st e, soup st !! i = Some e -> sel e = true -> bad e = false ->
     run (body i) st
     = ({| soup := <[i := f e]> (soup st); log := log st ++ g e |}, None)) ->
  (forall i st e, soup st !! i = Some e -> bad e = true ->
     run (body i) st = (st, Some (err e))) ->
  run (for_each (handles_where sel 0 (soup st)) body) st
  = ({| soup := until_bad bad f (soup st);
        log := log st ++ records_until bad g (soup st) |},
     err <$> List.find bad (soup st)).
Proof.
  intros Hout Hbody Hbad. destruct st as [l lg].
  exact (run_for_each_until sel bad f g err body Hout Hbody Hbad l [] lg).
Qed.

Lemma run_for_each_tag (f : Tag -> Tag) (g : Tag -> list log_record)
    (body : nat -> prog) (st : state) :
  (forall i st e, soup st !! i = Some e ->
     run (body i) st
     = ({| soup := <[i := f e]> (soup st); log := log st ++ g e |}, None)) ->
  run (for_each (seq 0 (length (soup st))) body) st
  = ({| soup := map f (soup st); log := log st ++ concat (map g (soup st)) |},
     None).
Proof.
  intros Hbody. rewrite <- handles_where_all.
  rewrite (run_for_each_selected (fun _ => true) f g) by auto.
  done.
Qed.

(** *** [remove_attributes] *)

Definition remove_attributes_error : exn :=
  MarkupModificationError
    "List of attributes is empty or None, removal not possible."
    (Some "Passed an empty list of attributes").

Lemma run_remove_attributes_falsy (attributes : option (list string))
    (st : state) :
  is_falsy attributes = true ->
  run (remove_attributes attributes) st
  = (write_log (Entered (RemoveAttributes attributes)) st,
     Some remove_attributes_error).
Proof.
  intros H. unfold remove_attributes, logging_debug.
  cbn [andthen run]. by rewrite H.
Qed.

Lemma run_remove_attributes (attributes : list string) (st : state) :
  attributes <> [] ->
  run (remove_attributes (Some attributes)) st
  = ({| soup := map (without_attributes attributes) (soup st);
        log := log st
               ++ Entered (RemoveAttributes (Some attributes))
                  :: concat (map (removed_records attributes) (soup st)) |},
     None).
Proof.
  intros Hne. unfold remove_attributes, logging_debug.
  destruct attributes as [|a0 rest]; [done|].
  cbn [andthen run is_falsy]. rewrite run_try_except. cbn [run].
  erewrite run_for_each_tag
    by (intros i st' e Hi; apply (run_remove_inner _ i st' e Hi)).
  simpl. by rewrite <- app_assoc.
Qed.

(** *** [replace_attribute_value] *)

Definition replaced_value (old_value new_value current : string) : string :=
  Py.replace current (Py.strip_chars ";" old_value)
    (Py.strip_chars ";" new_value).

Definition with_replaced (attribute old_value new_value : string) (e : Tag)
    : Tag :=
  match attrs e !! attribute with
  | Some (Str current) =>
      if Py.is_empty current then e
      else set_attr attribute (replaced_value old_value new_value current) e
  | _ => e
  end.

Definition updated_records (attribute old_value new_value : string) (e : Tag)
    : list log_record :=
  match attrs e !! attribute with
  | Some (Str current) =>
      if Py.is_empty current then []
      else if String.eqb (replaced_value old_value new_value current) current
           then []
           else [Updated attribute
                   (Str (replaced_value old_value new_value current))]
  | _ => []
  end.

(** The tag carries the attribute as a non-empty list: [current_value] is
    truthy and has no [replace]. *)
Definition nonempty_list_at (attribute : string) (e : Tag) : bool :=
  match attrs e !! attribute with
  | Some (Lst _ (_ :: _)) => true
  | _ => false
  end.

(** [elem.get(a)], for a tag that carries [a]. *)
Definition value_at (a : string) (e : Tag) : value :=
  default (Str "") (attrs e !! a).

(** No tag carries the attribute as a non-empty list. *)
Definition no_nonempty_list (attribute : string) (l : list Tag) : Prop :=
  Forall (fun e => nonempty_list_at attribute e = false) l.

(** What [replace_attribute_value] raises at a tag whose value is a
    non-empty list. *)
Definition replace_error (attribute : string) (e : Tag) : exn :=
  MarkupModificationError "Error during attribute value replacement"
    (Some (str (no_attribute (value_at attribute e) "replace"))).

Lemma set_attr_same (a v : string) (e : Tag) :
  attrs e !! a = Some (Str v) -> set_attr a v e = e.
Proof.
  intros H. destruct e as [n m]; unfold set_attr; simpl in *.
  by rewrite insert_id.
Qed.

Lemma has_attr_true (a : string) (e : Tag) :
  has_attr a e = true <-> exists v, attrs e !! a = Some v.
Proof. unfold has_attr. by rewrite bool_decide_eq_true. Qed.

Lemma has_attr_false (a : string) (e : Tag) :
  has_attr a e = false <-> attrs e !! a = None.
Proof.
  unfold has_attr. rewrite bool_decide_eq_false. by rewrite eq_None_not_Some.
Qed.

Lemma with_replaced_absent (attribute old_value new_value : string) (e : Tag) :
  has_attr attribute e = false ->
  with_replaced attribute old_value new_value e = e.
Proof.
  intros H%has_attr_false. unfold with_replaced. by rewrite H.
Qed.

Lemma updated_records_absent (attribute old_value new_value : string)
    (e : Tag) :
  has_attr attribute e = false ->
  updated_records attribute old_value new_value e = [].
Proof.
  intros H%has_attr_false. unfold updated_records. by rewrite H.
Qed.

Lemma nonempty_list_at_absent (attribute : string) (e : Tag) :
  has_attr attribute e = false -> nonempty_list_at attribute e = false.
Proof.
  intros H%has_attr_false. unfold nonempty_list_at. by rewrite H.
Qed.

(** The body of the loop of [replace_attribute_value]. *)
Definition replace_body (attribute old_value new_value : string) (elem : nat)
    : prog :=
  (current_value <- GetAttr elem attribute ;;
   match current_value with
   | Some current_value =>
       if is_falsy_value current_value then Done
       else
         match current_value with
         | Str current =>
             let updated_value :=
               Py.replace current (Py.strip_chars ";" old_value)
                 (Py.strip_chars ";" new_value) in
             if String.eqb updated_value current then Done
             else
               set_item elem attribute updated_value ;;
               written <- GetItem elem attribute ;;
               logging_debug (Updated attribute written)
         | Lst _ _ => Raise (no_attribute current_value "replace")
         end
   | None => Done
   end)%prog.

Lemma replace_attribute_value_body (attribute old_value new_value : string) :
  replace_attribute_value attribute old_value new_value
  = (logging_debug (Entered (ReplaceAttributeValue attribute old_value new_value)) ;;
     elements_to_process <- find_all_attrs attribute ;;
     try_except
       (for_each elements_to_process
          (replace_body attribute old_value new_value))
       (fun e => Raise (MarkupModificationError
                          "Error during attribute value replacement"
                          (Some (str e)))))%prog.
Proof. reflexivity. Qed.

Lemma run_replace_body (attribute old_value new_value : string) (i : nat)
    (st : state) (e : Tag) :
  soup st !! i = Some e ->
  nonempty_list_at attribute e = false ->
  run (replace_body attribute old_value new_value i) st
  = ({| soup := <[i := with_replaced attribute old_value new_value e]> (soup st);
        log := log st ++ updated_records attribute old_value new_value e |},
     None).
Proof.
  intros Hi Hok. unfold replace_body. cbn [run].
  rewrite (tag_at_lookup _ _ _ Hi).
  unfold with_replaced, updated_records, replaced_value, nonempty_list_at in *.
  destruct (attrs e !! attribute) as [[current|class [|part parts]]|] eqn:Hcur;
    [| |done|].
  2, 3: simpl; by rewrite list_insert_id, app_nil_r, state_eta.
  cbn [is_falsy_value].
  destruct (Py.is_empty current).
  { simpl. by rewrite list_insert_id, app_nil_r, state_eta. }
  cbv zeta.
  destruct (String.eqb _ current) eqn:Heq.
  - apply String.eqb_eq in Heq. rewrite Heq.
    simpl. rewrite (set_attr_same _ _ _ Hcur).
    by rewrite list_insert_id, app_nil_r, state_eta.
  - cbn [andthen set_item GetItem logging_debug run].
    erewrite tag_at_lookup
      by (simpl; rewrite list_lookup_alter_eq, Hi; reflexivity).
    simpl. rewrite lookup_insert_eq. simpl.
    unfold write_log, with_soup; simpl.
    by rewrite (alter_as_insert _ _ _ _ Hi).
Qed.

Lemma run_replace_body_list (attribute old_value new_value : string) (i : nat)
    (st : state) (e : Tag) :
  soup st !! i = Some e ->
  nonempty_list_at attribute e = true ->
  run (replace_body attribute old_value new_value i) st
  = (st, Some (no_attribute (value_at attribute e) "replace")).
Proof.
  intros Hi Hbad. unfold replace_body. cbn [run].
  rewrite (tag_at_lookup _ _ _ Hi). unfold nonempty_list_at, value_at in *.
  by destruct (attrs e !! attribute) as [[current|class [|part parts]]|].
Qed.

(** [replace_attribute_value] on any tree: the tags are rewritten in document
    order, and the first tag that carries the attribute as a non-empty list
    ends the loop with an [AttributeError], which the method wraps. *)
Lemma run_replace_attribute_value_until (attribute old_value new_value : string)
    (st : state) :
  run (replace_attribute_value attribute old_value new_value) st
  = ({| soup := until_bad (nonempty_list_at attribute)
                  (with_replaced attribute old_value new_value) (soup st);
        log := log st
               ++ Entered (ReplaceAttributeValue attribute old_value new_value)
                  :: records_until (nonempty_list_at attribute)
                       (updated_records attribute old_value new_value)
                       (soup st) |},
     replace_error attribute
       <$> List.find (nonempty_list_at attribute) (soup st)).
Proof.
  rewrite replace_attribute_value_body. unfold logging_debug, find_all_attrs.
  cbn [andthen run].
  rewrite (run_select_soup _ (has_attr attribute))
    by (intros i st' e k Hi; cbn [run]; by rewrite (tag_at_lookup _ _ _ Hi)).
  rewrite run_try_except.
  erewrite (run_for_each_until_selected (has_attr attribute)
              (nonempty_list_at attribute)
              (with_replaced attribute old_value new_value)
              (updated_records attribute old_value new_value)
              (fun e => no_attribute (value_at attribute e) "replace")).
  - simpl. rewrite <- app_assoc. simpl.
    by destruct (List.find (nonempty_list_at attribute) (soup st)).
  - intros e He. split; [by apply nonempty_list_at_absent|].
    split; [by apply with_replaced_absent|by apply updated_records_absent].
  - intros i st' e Hi _ Hok. apply (run_replace_body _ _ _ i st' e Hi Hok).
  - intros i st' e Hi Hbad. apply (run_replace_body_list _ _ _ i st' e Hi Hbad).
Qed.

Lemma run_replace_attribute_value (attribute old_value new_value : string)
    (st : state) :
  no_nonempty_list attribute (soup st) ->
  run (replace_attribute_value attribute old_value new_value) st
  = ({| soup := map (with_replaced attribute old_value new_value) (soup st);
        log := log st
               ++ Entered (ReplaceAttributeValue attribute old_value new_value)
                  :: concat (map (updated_records attribute old_value new_value)
                               (soup st)) |},
     None).
Proof.
  intros Hok. rewrite run_replace_attribute_value_until.
  rewrite until_bad_none, records_until_none by done.
  by rewrite (proj2 (find_none _ _) Hok).
Qed.

(** *** [add_attribute] *)

Definition tag_selected (tag : string) (e : Tag) : bool :=
  String.eqb (name e) (Py.lower tag).

Lemma run_add_attribute (tag attribute value : string) (st : state) :
  run (add_attribute tag attribute value) st
  = ({| soup := map (fun e => if tag_selected tag e
                              then set_attr attribute value e else e)
                  (soup st);
        log := log st
               ++ Entered (AddAttribute tag attribute value)
                  :: concat (map (fun e => if tag_selected tag e
                                           then [Added attribute tag value]
                                           else [])
                               (soup st)) |},
     None).
Proof.
  unfold add_attribute, logging_debug, find_all_name.
  cbn [andthen run]. rewrite run_try_except. cbn [run].
  rewrite (run_select_soup _ (tag_selected tag))
    by (intros i st' e k Hi; cbn [run]; by rewrite (tag_at_lookup _ _ _ Hi)).
  erewrite (run_for_each_selected (tag_selected tag) (set_attr attribute value)
              (fun _ => [Added attribute tag value])).
  - simpl. by rewrite <- app_assoc.
  - intros i st' e Hi _. cbn [andthen set_item run].
    unfold write_log, with_soup; simpl.
    by rewrite (alter_as_insert _ _ _ _ Hi).
Qed.

(** *** [remove_style_properties] *)

Definition restyled (properties : list string) (e : Tag) : Tag :=
  match attrs e !! "style" with
  | Some (Str original_style) =>
      if Py.is_empty (updated_style properties original_style)
      then del_attr "style" e
      else set_attr "style" (updated_style properties original_style) e
  | _ => e
  end.

(** The tag carries the attribute as a list: the value has no [split]. *)
Definition list_at (attribute : string) (e : Tag) : bool :=
  match attrs e !! attribute with
  | Some (Lst _ _) => true
  | _ => false
  end.

(** Every [style] value of the tree is a string.  This is how the parser
    leaves a tree ([style] is not a multi-valued attribute), and no method
    of the module writes a list. *)
Definition string_styles (l : list Tag) : Prop :=
  Forall (fun e => list_at "style" e = false) l.

Definition remove_style_properties_error : exn :=
  MarkupModificationError
    "List of properties is empty or None, removal not possible."
    (Some "Passed an empty list of properties").

(** What [remove_style_properties] raises at a tag whose [style] is a
    list. *)
Definition split_error (e : Tag) : exn :=
  MarkupModificationError "Error during the removal of style properties"
    (Some (str (no_attribute (value_at "style" e) "split"))).

Lemma run_remove_style_properties_falsy (properties : option (list string))
    (st : state) :
  is_falsy properties = true ->
  run (remove_style_properties properties) st
  = (write_log (Entered (RemoveStyleProperties properties)) st,
     Some remove_style_properties_error).
Proof.
  intros H. unfold remove_style_properties, logging_debug.
  cbn [andthen run]. by rewrite H.
Qed.

Lemma records_until_nil (bad : Tag -> bool) (l : list Tag) :
  records_until bad (fun _ => []) l = [].
Proof. induction l as [|e l IH]; simpl; [done|]. by destruct (bad e). Qed.

(** [remove_style_properties] on any tree: a [style] value that is a list
    ends the loop with an [AttributeError], which the method wraps. *)
Lemma run_remove_style_properties_until (properties : list string)
    (st : state) :
  properties <> [] ->
  run (remove_style_properties (Some properties)) st
  = ({| soup := until_bad (list_at "style") (restyled properties) (soup st);
        log := log st ++ [Entered (RemoveStyleProperties (Some properties))] |},
     split_error <$> List.find (list_at "style") (soup st)).
Proof.
  intros Hne. unfold remove_style_properties, logging_debug.
  destruct properties as [|p0 rest]; [done|].
  cbn [andthen run is_falsy]. rewrite run_try_except. cbn [run].
  rewrite <- handles_where_all.
  erewrite (run_for_each_until_selected (fun _ => true) (list_at "style")
              (restyled (p0 :: rest)) (fun _ => [])
              (fun e => no_attribute (value_at "style" e) "split")).
  - simpl. rewrite records_until_nil, app_nil_r.
    by destruct (List.find (list_at "style") (soup st)).
  - done.
  - intros i st' e Hi _ Hok. cbn [run GetItem].
    rewrite (tag_at_lookup _ _ _ Hi). unfold restyled, list_at in *.
    destruct (has_attr "style" e) eqn:Hhas.
    + apply has_attr_true in Hhas as [v Hv]. cbn [run GetItem].
      rewrite (tag_at_lookup _ _ _ Hi), Hv. rewrite Hv in Hok.
      destruct v as [v|class parts]; [|done].
      change (items (Some (p0 :: rest))) with (p0 :: rest).
      destruct (Py.is_empty (updated_style (p0 :: rest) v));
        cbn [del_item set_item run]; unfold with_soup; simpl;
        by rewrite (alter_as_insert _ _ _ _ Hi), app_nil_r.
    + apply has_attr_false in Hhas. rewrite Hhas. simpl.
      by rewrite list_insert_id, app_nil_r, state_eta.
  - intros i st' e Hi Hbad. cbn [run GetItem].
    rewrite (tag_at_lookup _ _ _ Hi). unfold list_at, value_at in *.
    destruct (attrs e !! "style") as [[v|class parts]|] eqn:Hv; try done.
    assert (Hhas : has_attr "style" e = true)
      by (apply has_attr_true; by eexists).
    rewrite Hhas. cbn [run GetItem]. by rewrite (tag_at_lookup _ _ _ Hi), Hv.
Qed.

Lemma run_remove_style_properties (properties : list string) (st : state) :
  properties <> [] ->
  string_styles (soup st) ->
  run (remove_style_properties (Some properties)) st
  = ({| soup := map (restyled properties) (soup st);
        log := log st ++ [Entered (RemoveStyleProperties (Some properties))] |},
     None).
Proof.
  intros Hne Hok. rewrite run_remove_style_properties_until by done.
  rewrite until_bad_none by done.
  by rewrite (proj2 (find_none _ _) Hok).
Qed.

(** ** The operations of a rule set, one after the other *)

(** Running calls in order, stopping at the first exception. *)
Fixpoint apply_in_order (calls : list call) (st : state)
    : state * option exn :=
  match calls with
  | [] => (st, None)
  | c :: rest =>
      match run (invoke c) st with
      | (st', None) => apply_in_order rest st'
      | (st', Some e) => (st', Some e)
      end
  end.

Lemma apply_in_order_app (calls1 calls2 : list call) (st : state) :
  apply_in_order (calls1 ++ calls2) st =
  match apply_in_order calls1 st with
  | (st', None) => apply_in_order calls2 st'
  | (st', Some e) => (st', Some e)
  end.
Proof.
  revert st; induction calls1 as [|c calls1 IH]; intros st; simpl; [done|].
  destruct (run (invoke c) st) as [st' [e|]]; auto.
Qed.

Lemma run_for_each_await {A : Type} (f : A -> call) (entries : list A)
    (st : state) :
  run (for_each entries (fun rule => await_run_in_executor (f rule))) st
  = apply_in_order (map f entries) st.
Proof.
  revert st; induction entries as [|x entries IH]; intros st; cbn [for_each map].
  - done.
  - rewrite run_andthen. unfold await_run_in_executor at 1. cbn [apply_in_order].
    destruct (run (invoke (f x)) st) as [st' [e|]]; auto.
Qed.

Definition wrap_async (e : exn) : exn :=
  MarkupModificationError "Error during asynchronous rule application"
    (Some (str e)).

Lemma run_apply_rules_async_submitted (rules : Rules.t) (st : state) :
  run (apply_rules_async rules) st =
  match submitted rules with
  | inl e => (st, Some (wrap_async e))
  | inr calls =>
      (fst (apply_in_order calls st),
       wrap_async <$> snd (apply_in_order calls st))
  end.
Proof.
  unfold apply_rules_async, submitted. rewrite run_try_except, run_andthen.
  destruct rules as [remove replace add]; cbn [Rules.remove_attributes
    Rules.replace_attributes Rules.add_attributes].
  assert (Hrep : forall st0,
    run match replace with
        | Some entries =>
            for_each entries (fun rule => await_run_in_executor (replace_call rule))
        | None => Done
        end st0 = apply_in_order (map replace_call (items replace)) st0).
  { intros st0. destruct replace; [apply run_for_each_await|done]. }
  assert (Hadd : forall st0,
    run match add with
        | Some entries =>
            for_each entries (fun rule => await_run_in_executor (add_call rule))
        | None => Done
        end st0 = apply_in_order (map add_call (items add)) st0).
  { intros st0. destruct add; [apply run_for_each_await|done]. }
  destruct remove as [[|first others]|].
  - done.
  - unfold await_run_in_executor at 1. cbn [app apply_in_order].
    destruct (run (invoke _) st) as [st1 [e|]]; [done|].
    rewrite run_andthen, Hrep, apply_in_order_app.
    destruct (apply_in_order (map replace_call _) st1) as [st2 [e|]]; [done|].
    rewrite Hadd. by destruct (apply_in_order _ st2) as [st3 [e|]].
  - cbn [run app]. rewrite run_andthen, Hrep, apply_in_order_app.
    destruct (apply_in_order (map replace_call _) st) as [st2 [e|]]; [done|].
    rewrite Hadd. by destruct (apply_in_order _ st2) as [st3 [e|]].
Qed.

(** ** The thread pool *)

Definition outcome (p : prog) : option exn :=
  match p with Raise e => Some e | _ => None end.

Lemma act_finished (p : prog) (st : state) :
  finished p <-> act p st = None.
Proof. destruct p; simpl; split; intros H; try done. Qed.

Lemma run_finished (p : prog) (st : state) :
  finished p -> run p st = (st, outcome p).
Proof. by destruct p. Qed.

Lemma run_act (p p' : prog) (st st' : state) :
  act p st = Some (p', st') -> run p st = run p' st'.
Proof. destruct p; simpl; intros H; by simplify_eq. Qed.

(** A worker alone in the pool runs as [run] says. *)
Lemma pool_alone (p : prog) (st : state) (workers : list prog) (st' : state) :
  rtc pool_step ([p], st) (workers, st') ->
  Forall finished workers ->
  exists p', workers = [p'] /\ finished p' /\ run p st = (st', outcome p').
Proof.
  intros Hsteps. remember ([p], st) as c eqn:Hc.
  remember (workers, st') as c' eqn:Hc'.
  revert p st Hc. induction Hsteps as [c|c1 c2 c3 Hstep Hsteps IH];
    intros p st Hc Hfin; subst.
  - simplify_eq. apply Forall_inv in Hfin.
    exists p. by rewrite run_finished.
  - inversion Hstep as [ws s i q q' s' Hi Hact]; subst.
    destruct i as [|i]; simpl in Hi; [|by rewrite lookup_nil in Hi].
    simplify_eq. simpl in *.
    destruct (IH eq_refl q' s' eq_refl Hfin) as (p' & -> & Hf & Hrun).
    exists p'. repeat split; [done|]. by rewrite (run_act _ _ _ _ Hact).
Qed.

(** Any worker can be run to its end while the others wait. *)
Lemma pool_run_worker (p : prog) :
  forall (pre suf : list prog) (st : state),
  exists p', finished p' /\ outcome p' = snd (run p st) /\
    rtc pool_step (pre ++ p :: suf, st) (pre ++ p' :: suf, fst (run p st)).
Proof.
  assert (Hstep : forall pre suf st q q' st',
    act q st = Some (q', st') ->
    pool_step (pre ++ q :: suf, st) (pre ++ q' :: suf, st')).
  { intros pre suf st q q' st' Hact.
    rewrite <- (insert_middle pre suf q q').
    apply pool_step_worker with (p := q); [apply list_lookup_middle|]; done. }
  induction p as [|e|r k IH|k IH|i k IH|i a k IH|i a k IH|i a v k IH|i a k IH];
    intros pre suf st; simpl.
  - exists Done. repeat split. apply rtc_refl.
  - exists (Raise e). repeat split. apply rtc_refl.
  - destruct (IH pre suf (write_log r st)) as (p' & ? & ? & ?).
    exists p'. repeat split; [done..|]. eapply rtc_l; [|done]. by apply Hstep.
  - destruct (IH (seq 0 (length (soup st))) pre suf st) as (p' & ? & ? & ?).
    exists p'. repeat split; [done..|]. eapply rtc_l; [|done]. by apply Hstep.
  - destruct (IH (name (tag_at st i)) pre suf st) as (p' & ? & ? & ?).
    exists p'. repeat split; [done..|]. eapply rtc_l; [|done]. by apply Hstep.
  - destruct (IH (has_attr a (tag_at st i)) pre suf st) as (p' & ? & ? & ?).
    exists p'. repeat split; [done..|]. eapply rtc_l; [|done]. by apply Hstep.
  - destruct (IH (attrs (tag_at st i) !! a) pre suf st) as (p' & ? & ? & ?).
    exists p'. repeat split; [done..|]. eapply rtc_l; [|done]. by apply Hstep.
  - destruct (IH pre suf (with_soup (alter (set_attr a v) i) st))
      as (p' & ? & ? & ?).
    exists p'. repeat split; [done..|]. eapply rtc_l; [|done]. by apply Hstep.
  - destruct (IH pre suf (with_soup (alter (del_attr a) i) st))
      as (p' & ? & ? & ?).
    exists p'. repeat split; [done..|]. eapply rtc_l; [|done]. by apply Hstep.
Qed.

Lemma pool_run_all (ps : list prog) :
  forall (pre : list prog) (st : state),
  exists (ps' : list prog) (st' : state),
    Forall finished ps' /\
    rtc pool_step (pre ++ ps, st) (pre ++ ps', st').
Proof.
  induction ps as [|p ps IH]; intros pre st.
  - exists [], st. split; [constructor|apply rtc_refl].
  - destruct (pool_run_worker p pre ps st) as (p' & Hfin & _ & Hrun).
    destruct (IH (pre ++ [p']) (fst (run p st))) as (ps' & st' & Hall & Hrest).
    exists (p' :: ps'), st'. split; [by constructor|].
    etrans; [exact Hrun|]. rewrite <- !app_assoc in Hrest. exact Hrest.
Qed.

Lemma finished_workers (ps : list prog) :
  Forall finished ps ->
  Forall (fun p => p = Done) ps \/ exists i e, ps !! i = Some (Raise e).
Proof.
  induction 1 as [|p ps Hp _ [IH|(i & e & IH)]].
  - left; constructor.
  - destruct p; try done.
    + left; by constructor.
    + right; by exists 0, e.
  - right; by exists (S i), e.
Qed.

(** [apply_rules] always ends: it returns or raises. *)
Lemma apply_rules_total (rules : Rules.t) (st : state) :
  exists (st' : state) (r : option exn), apply_rules rules st st' r.
Proof.
  destruct (submitted rules) as [e|calls] eqn:Hsub.
  - exists st, (Some (wrap_rule_application e)). by constructor.
  - destruct (pool_run_all (map invoke calls) [] st) as (ps' & st' & Hfin & Hrun).
    simpl in Hrun.
    destruct (finished_workers _ Hfin) as [Hdone|(i & e & Hi)].
    + exists st', None. by eapply apply_rules_returns.
    + exists st', (Some (wrap_rule_application e)).
      by eapply apply_rules_raises.
Qed.

(** With one submitted call, [apply_rules] does what the call does alone. *)
Lemma apply_rules_one_call (rules : Rules.t) (c : call) (st st' : state)
    (r : option exn) :
  submitted rules = inr [c] ->
  apply_rules rules st st' r ->
  st' = fst (run (invoke c) st) /\
  r = wrap_rule_application <$> snd (run (invoke c) st).
Proof.
  intros Hsub Happly.
  destruct Happly as [e He|calls workers st' Hc Hsteps Hdone
                     |calls workers st' i e Hc Hsteps Hfin Hi].
  - congruence.
  - rewrite Hsub in Hc; simplify_eq. simpl in Hsteps.
    destruct (pool_alone _ _ _ _ Hsteps) as (p' & -> & _ & Hrun).
    { eapply Forall_impl; [exact Hdone|]. by intros ? ->. }
    apply Forall_inv in Hdone as ->. by rewrite Hrun.
  - rewrite Hsub in Hc; simplify_eq. simpl in Hsteps.
    destruct (pool_alone _ _ _ _ Hsteps Hfin) as (p' & -> & _ & Hrun).
    destruct i; simpl in Hi; [|by rewrite lookup_nil in Hi].
    simplify_eq. by rewrite Hrun.
Qed.

(** ** What a program never does *)

(** [keeps a p]: [p] never deletes the attribute [a]. *)
Fixpoint keeps (a : string) (p : prog) : Prop :=
  match p with
  | Done | Raise _ => True
  | Log _ k => keeps a k
  | FindAll k => forall l, keeps a (k l)
  | GetName _ k => forall n, keeps a (k n)
  | HasAttr _ _ k => forall b, keeps a (k b)
  | GetAttr _ _ k => forall v, keeps a (k v)
  | SetItem _ _ _ k => keeps a k
  | DelItem _ b k => b <> a /\ keeps a k
  end.

(** [silent p]: [p] writes nothing to the tree. *)
Fixpoint silent (p : prog) : Prop :=
  match p with
  | Done | Raise _ => True
  | Log _ k => silent k
  | FindAll k => forall l, silent (k l)
  | GetName _ k => forall n, silent (k n)
  | HasAttr _ _ k => forall b, silent (k b)
  | GetAttr _ _ k => forall v, silent (k v)
  | SetItem _ _ _ _ => False
  | DelItem _ _ _ => False
  end.

Lemma keeps_andthen (a : string) (p q : prog) :
  keeps a p -> keeps a q -> keeps a (andthen p q).
Proof.
  induction p; simpl; intros Hp Hq; try done; eauto.
  destruct Hp; eauto.
Qed.

Lemma keeps_try_except (a : string) (p : prog) (h : exn -> prog) :
  keeps a p -> (forall e, keeps a (h e)) -> keeps a (try_except p h).
Proof.
  induction p; simpl; intros Hp Hq; try done; eauto.
  destruct Hp; eauto.
Qed.

Lemma keeps_for_each {A : Type} (a : string) (l : list A) (body : A -> prog) :
  (forall x, x ∈ l -> keeps a (body x)) -> keeps a (for_each l body).
Proof.
  induction l as [|x l IH]; simpl; intros H; [done|].
  apply keeps_andthen; [apply H; left|apply IH; intros y Hy; apply H; by right].
Qed.

Lemma keeps_select (a : string) (test : nat -> (bool -> prog) -> prog)
    (elems : list nat) (k : list nat -> prog) :
  (forall i kb, (forall b, keeps a (kb b)) -> keeps a (test i kb)) ->
  (forall l, keeps a (k l)) ->
  keeps a (select test elems k).
Proof.
  intros Htest. revert k. induction elems as [|i elems IH]; intros k Hk; simpl.
  - apply Hk.
  - apply Htest; intros b. apply IH; intros l. apply Hk.
Qed.

Lemma keeps_remove_attributes (a : string) (attributes : option (list string)) :
  a ∉ items attributes -> keeps a (remove_attributes attributes).
Proof.
  intros Hnot. unfold remove_attributes, logging_debug. cbn [andthen keeps].
  destruct (is_falsy attributes); [done|].
  apply keeps_try_except; [|done]. intros elems.
  apply keeps_for_each; intros elem _. apply keeps_for_each; intros attr Hin.
  intros [|]; simpl; [|done]. split; [|done]. by intros ->.
Qed.

Lemma keeps_replace_attribute_value (a attribute old_value new_value : string) :
  keeps a (replace_attribute_value attribute old_value new_value).
Proof.
  unfold replace_attribute_value, logging_debug, find_all_attrs.
  cbn [andthen keeps]. intros elems.
  apply keeps_select; [by intros i kb Hkb; simpl|]. intros found.
  apply keeps_try_except; [|done].
  apply keeps_for_each; intros elem _.
  intros [[current|class parts]|]; [| |done].
  - cbn [is_falsy_value]. destruct (Py.is_empty current); [done|]. cbv zeta.
    destruct (String.eqb _ _); [done|]. simpl. by intros [v|].
  - by destruct parts.
Qed.

Lemma keeps_add_attribute (a tag attribute value : string) :
  keeps a (add_attribute tag attribute value).
Proof.
  unfold add_attribute, logging_debug, find_all_name.
  cbn [andthen keeps]. apply keeps_try_except; [|done]. intros elems.
  apply keeps_select; [by intros i kb Hkb; simpl|]. intros found.
  apply keeps_for_each; intros elem _. done.
Qed.

(** [present a i st]: the tag with handle [i] carries the attribute [a]. *)
Definition present (a : string) (i : nat) (st : state) : Prop :=
  exists e, soup st !! i = Some e /\ has_attr a e = true.

Lemma has_attr_set_attr (a b v : string) (e : Tag) :
  has_attr a e = true -> has_attr a (set_attr b v e) = true.
Proof.
  rewrite !has_attr_true; intros [w Hw]; simpl.
  destruct (decide (b = a)) as [->|Hne].
  - exists (Str v). apply lookup_insert_eq.
  - exists w. by rewrite lookup_insert_ne.
Qed.

Lemma has_attr_del_attr (a b : string) (e : Tag) :
  b <> a -> has_attr a (del_attr b e) = has_attr a e.
Proof. intros Hne. unfold has_attr; simpl. by rewrite lookup_delete_ne. Qed.

Lemma present_alter (a : string) (f : Tag -> Tag) (i j : nat) (st : state) :
  (forall e, has_attr a e = true -> has_attr a (f e) = true) ->
  present a i st -> present a i (with_soup (alter f j) st).
Proof.
  intros Hf (e & Hi & Ha). unfold present; simpl.
  destruct (decide (j = i)) as [->|Hne].
  - exists (f e). rewrite list_lookup_alter_eq, Hi. auto.
  - exists e. by rewrite list_lookup_alter_ne.
Qed.

(** One access of a program that keeps [a] leaves [a] where it is. *)
Lemma keeps_act (a : string) (p p' : prog) (st st' : state) :
  keeps a p -> act p st = Some (p', st') ->
  keeps a p' /\ (forall i, present a i st -> present a i st').
Proof.
  destruct p as [|e|r k|k|j k|j b k|j b k|j b v k|j b k]; simpl;
    intros Hk Hact; simplify_eq; try (split; by auto).
  - split; [done|]. intros i. apply present_alter.
    intros e. apply has_attr_set_attr.
  - destruct Hk as [Hne Hk]. split; [done|]. intros i. apply present_alter.
    intros e. by rewrite has_attr_del_attr.
Qed.

Lemma keeps_pool (a : string) (workers workers' : list prog) (st st' : state) :
  Forall (keeps a) workers ->
  rtc pool_step (workers, st) (workers', st') ->
  Forall (keeps a) workers' /\ (forall i, present a i st -> present a i st').
Proof.
  intros Hall Hsteps.
  remember (workers, st) as c eqn:Hc. remember (workers', st') as c' eqn:Hc'.
  revert workers st Hall Hc.
  induction Hsteps as [c|c1 c2 c3 Hstep Hsteps IH]; intros workers st Hall Hc;
    subst.
  - by simplify_eq.
  - inversion Hstep as [ws s i q q' s' Hi Hact]; subst.
    destruct (keeps_act a q q' st s') as [Hq' Hpres]; [|done|].
    { by eapply Forall_lookup_1. }
    destruct (IH eq_refl (<[i:=q']> workers) s') as [Hall' Hpres'];
      [by apply Forall_insert|done|].
    split; [done|]. intros j Hj. by apply Hpres', Hpres.
Qed.

Lemma keeps_run (a : string) (p : prog) (st : state) (i : nat) :
  keeps a p -> present a i st -> present a i (fst (run p st)).
Proof.
  intros Hk Hp.
  destruct (pool_run_worker p [] [] st) as (p' & _ & _ & Hsteps).
  simpl in Hsteps.
  apply (keeps_pool a [p] [p'] st _); [by constructor|done|done].
Qed.

(** The attributes [apply_rules] and [apply_rules_async] hand to
    [remove_attributes]. *)
Definition removal_list (rules : Rules.t) : list string :=
  match Rules.remove_attributes rules with
  | Some (first :: _) => items (RemoveRule.attributes first)
  | _ => []
  end.

Lemma keeps_submitted (a : string) (rules : Rules.t) (calls : list call) :
  a ∉ removal_list rules ->
  submitted rules = inr calls ->
  Forall (keeps a) (map invoke calls).
Proof.
  unfold removal_list, submitted. intros Hnot Hsub.
  assert (Hrest : Forall (keeps a)
            (map invoke (map replace_call (items (Rules.replace_attributes rules))
                         ++ map add_call (items (Rules.add_attributes rules))))).
  { rewrite map_app. apply Forall_app; split; apply Forall_forall;
      intros p Hp; apply list_elem_of_In, in_map_iff in Hp as (c & <- & Hc);
      apply in_map_iff in Hc as (rule & <- & _).
    - apply keeps_replace_attribute_value.
    - apply keeps_add_attribute. }
  destruct (Rules.remove_attributes rules) as [[|first others]|];
    simplify_eq; [|done].
  cbn [map app]. constructor; [|done]. by apply keeps_remove_attributes.
Qed.

Lemma keeps_apply_rules_async (a : string) (rules : Rules.t) :
  a ∉ removal_list rules -> keeps a (apply_rules_async rules).
Proof.
  unfold removal_list, apply_rules_async. intros Hnot.
  apply keeps_try_except; [|done].
  apply keeps_andthen; [|apply keeps_andthen].
  - destruct (Rules.remove_attributes rules) as [[|first others]|]; [done| |done].
    by apply keeps_remove_attributes.
  - destruct (Rules.replace_attributes rules); [|done].
    apply keeps_for_each; intros rule _. apply keeps_replace_attribute_value.
  - destruct (Rules.add_attributes rules); [|done].
    apply keeps_for_each; intros rule _. apply keeps_add_attribute.
Qed.

(** A silent program leaves the tree as it is. *)
Lemma silent_act (p p' : prog) (st st' : state) :
  silent p -> act p st = Some (p', st') -> silent p' /\ soup st' = soup st.
Proof. destruct p; simpl; intros Hs Hact; by simplify_eq. Qed.

Lemma silent_remove_attributes_falsy (attributes : option (list string)) :
  is_falsy attributes = true -> silent (remove_attributes attributes).
Proof.
  intros H. unfold remove_attributes, logging_debug. cbn [andthen silent].
  by rewrite H.
Qed.

(** ** The calls a log shows *)

Definition entered (lg : list log_record) : list call :=
  omap (fun r => match r with Entered c => Some c | _ => None end) lg.

Lemma entered_app (l1 l2 : list log_record) :
  entered (l1 ++ l2) = entered l1 ++ entered l2.
Proof. apply omap_app. Qed.

Lemma entered_cons (c : call) (l : list log_record) :
  entered (Entered c :: l) = c :: entered l.
Proof. done. Qed.

Lemma entered_concat_none {A : Type} (g : A -> list log_record) (l : list A) :
  (forall x, entered (g x) = []) -> entered (concat (map g l)) = [].
Proof.
  intros Hg. induction l as [|x l IH]; simpl; [done|].
  by rewrite entered_app, Hg, IH.
Qed.

Lemma entered_records_until (bad : Tag -> bool) (g : Tag -> list log_record)
    (l : list Tag) :
  (forall x, entered (g x) = []) -> entered (records_until bad g l) = [].
Proof.
  intros Hg. induction l as [|x l IH]; simpl; [done|].
  destruct (bad x); [done|]. by rewrite entered_app, Hg, IH.
Qed.

Lemma entered_removed_records (attributes : list string) (e : Tag) :
  entered (removed_records attributes e) = [].
Proof.
  revert e; induction attributes as [|attr rest IH]; intros e; simpl; [done|].
  destruct (has_attr attr e); simpl; auto.
Qed.

Lemma is_falsy_false {A : Type} (l : option (list A)) :
  is_falsy l = false -> exists x xs, l = Some (x :: xs).
Proof. destruct l as [[|x xs]|]; simpl; intros H; try done. by exists x, xs. Qed.

(** Every call logs its entry, once, whether it returns or raises. *)
Lemma entered_invoke (c : call) (st : state) :
  entered (log (fst (run (invoke c) st))) = entered (log st) ++ [c].
Proof.
  destruct c as [properties|attributes|attribute old_value new_value
                |tag attribute value]; cbn [invoke].
  - destruct (is_falsy properties) eqn:Hf.
    + rewrite run_remove_style_properties_falsy by done. simpl.
      by rewrite entered_app.
    + apply is_falsy_false in Hf as (x & xs & ->).
      rewrite run_remove_style_properties_until by done. simpl.
      by rewrite entered_app.
  - destruct (is_falsy attributes) eqn:Hf.
    + rewrite run_remove_attributes_falsy by done. simpl.
      by rewrite entered_app.
    + apply is_falsy_false in Hf as (x & xs & ->).
      rewrite run_remove_attributes by done. cbn [fst log].
      rewrite entered_app, entered_cons.
      rewrite (entered_concat_none (removed_records (x :: xs))); [done|].
      intros e. apply entered_removed_records.
  - rewrite run_replace_attribute_value_until. cbn [fst log].
    rewrite entered_app, entered_cons.
    rewrite entered_records_until; [done|].
    intros e. unfold updated_records.
    destruct (attrs e !! attribute) as [[v|class parts]|]; [|done..].
    destruct (Py.is_empty v); [done|]. by destruct (String.eqb _ _).
  - rewrite run_add_attribute. cbn [fst log].
    rewrite entered_app, entered_cons.
    rewrite entered_concat_none; [done|].
    intros e. by destruct (tag_selected tag e).
Qed.

(** The calls run in order: the log shows a prefix of them, all of them when
    no call raised, and at least the first one. *)
Lemma entered_apply_in_order (calls : list call) (st : state) :
  exists done_calls,
    entered (log (fst (apply_in_order calls st)))
      = entered (log st) ++ done_calls /\
    done_calls `prefix_of` calls /\
    (snd (apply_in_order calls st) = None -> done_calls = calls) /\
    (forall c rest, calls = c :: rest -> exists more, done_calls = c :: more).
Proof.
  revert st; induction calls as [|c calls IH]; intros st; cbn [apply_in_order].
  - exists []. rewrite app_nil_r. by repeat split.
  - pose proof (entered_invoke c st) as Hc.
    destruct (run (invoke c) st) as [st1 [e|]] eqn:Hrun; cbn [fst snd] in *.
    + exists [c]. repeat split; [done| |done|].
      * by apply prefix_cons, prefix_nil.
      * intros c' rest ?; simplify_eq. by exists [].
    + destruct (IH st1) as (more & Hlog & Hpre & Hall & _).
      exists (c :: more). repeat split.
      * by rewrite Hlog, Hc, <- app_assoc.
      * by apply prefix_cons.
      * intros Hnone. by rewrite Hall.
      * intros c' rest ?; simplify_eq. by exists more.
Qed.

(** ** Facts about the string methods *)

Lemma app_nil_l_string (s : string) : "" +:+ s = s.
Proof. done. Qed.

Lemma app_cons_string (c : ascii) (s1 s2 : string) :
  String c s1 +:+ s2 = String c (s1 +:+ s2).
Proof. done. Qed.

Lemma prefix_app (p s : string) :
  String.prefix p s = true <-> exists post, s = p +:+ post.
Proof.
  revert s; induction p as [|c p IH]; intros s; simpl.
  - destruct s; split; eauto.
  - destruct s as [|d s]; simpl.
    + split; [done|]. by intros [post Hpost].
    + destruct (ascii_dec c d) as [->|Hne].
      * rewrite IH. split; intros [post Hpost]; exists post.
        -- by rewrite app_cons_string, Hpost.
        -- rewrite app_cons_string in Hpost. by simplify_eq.
      * split; [done|]. intros [post Hpost].
        rewrite app_cons_string in Hpost. by simplify_eq.
Qed.

(** [sub in s] *)
Definition contains (s sub : string) : Prop :=
  exists pre post, s = pre +:+ sub +:+ post.

Lemma contains_cons (c : ascii) (s sub : string) :
  contains s sub -> contains (String c s) sub.
Proof. intros (pre & post & ->). by exists (String c pre), post. Qed.

Lemma replace_go_absent (old new s : string) :
  ~ contains s old -> Py.replace_go old new 0 s = s.
Proof.
  induction s as [|c s IH]; intros Hnot; [done|].
  cbn [Py.replace_go].
  destruct (String.prefix old (String c s)) eqn:Hpre.
  - apply prefix_app in Hpre as [post Hpost].
    destruct Hnot. by exists "", post.
  - f_equal. apply IH. intros H. by apply Hnot, contains_cons.
Qed.

(** Replacing a string that does not occur changes nothing. *)
Lemma replace_absent (s old new : string) :
  ~ contains s old -> Py.replace s old new = s.
Proof.
  intros Hnot. destruct old as [|c old].
  - destruct Hnot. by exists "", s.
  - by apply replace_go_absent.
Qed.

Lemma lower_char_idemp (c : ascii) :
  Py.lower_char (Py.lower_char c) = Py.lower_char c.
Proof. by destruct c as [[] [] [] [] [] [] [] []]. Qed.

Lemma lower_idemp (s : string) : Py.lower (Py.lower s) = Py.lower s.
Proof.
  induction s as [|c s IH]; simpl; [done|]. by rewrite lower_char_idemp, IH.
Qed.

(** ** Facts about tags *)

Lemma Tag_eq (e1 e2 : Tag) :
  name e1 = name e2 -> attrs e1 = attrs e2 -> e1 = e2.
Proof. destruct e1, e2; simpl; by intros -> ->. Qed.

Lemma name_without_attributes (attributes : list string) (e : Tag) :
  name (without_attributes attributes e) = name e.
Proof.
  unfold without_attributes. revert e.
  induction attributes as [|a l IH]; intros e; simpl; [done|]. by rewrite IH.
Qed.

Lemma lookup_without_attributes (attributes : list string) (e : Tag)
    (a : string) :
  attrs (without_attributes attributes e) !! a
  = if decide (a ∈ attributes) then None else attrs e !! a.
Proof.
  unfold without_attributes. revert e.
  induction attributes as [|b l IH]; intros e; cbn [foldl].
  - destruct (decide (a ∈ [])) as [Hin|_]; [by apply not_elem_of_nil in Hin|done].
  - rewrite IH. cbn [attrs del_attr].
    destruct (decide (a ∈ l)) as [Hin|Hnin];
      destruct (decide (a ∈ b :: l)) as [Hin'|Hnin']; try done.
    + destruct Hnin'. by right.
    + apply elem_of_cons in Hin' as [->|?]; [|done]. apply lookup_delete_eq.
    + rewrite lookup_delete_ne; [done|]. intros ->. apply Hnin'. by left.
Qed.

Lemma without_attributes_idemp (attributes : list string) (e : Tag) :
  without_attributes attributes (without_attributes attributes e)
  = without_attributes attributes e.
Proof.
  apply Tag_eq.
  - by rewrite !name_without_attributes.
  - apply map_eq; intros a. rewrite !lookup_without_attributes.
    by destruct (decide (a ∈ attributes)).
Qed.

Fixpoint containsb (s sub : string) : bool :=
  String.prefix sub s
  || match s with
     | "" => false
     | String _ s' => containsb s' sub
     end.

Lemma containsb_spec (s sub : string) :
  containsb s sub = true <-> contains s sub.
Proof.
  induction s as [|c s IH]; cbn [containsb].
  - rewrite orb_false_r, prefix_app. split.
    + intros [post Hpost]. by exists "", post.
    + intros ([|d pre] & post & Hpost); [by exists post|done].
  - rewrite orb_true_iff, prefix_app, IH. split.
    + intros [[post Hpost]|Hin]; [by exists "", post|by apply contains_cons].
    + intros ([|d pre] & post & Hpost).
      * left. by exists post.
      * right. rewrite app_cons_string in Hpost. simplify_eq. by exists pre, post.
Qed.

(** ** Rule sets that submit one call *)

Lemma submitted_only_remove (rules : Rules.t) (first : RemoveRule.t)
    (others : list RemoveRule.t) :
  Rules.remove_attributes rules = Some (first :: others) ->
  items (Rules.replace_attributes rules) = [] ->
  items (Rules.add_attributes rules) = [] ->
  submitted rules = inr [RemoveAttributes (RemoveRule.attributes first)].
Proof. unfold submitted. by intros -> -> ->. Qed.

Lemma run_apply_rules_async_one_call (rules : Rules.t) (c : call) (st : state) :
  submitted rules = inr [c] ->
  run (apply_rules_async rules) st
  = (fst (run (invoke c) st), wrap_async <$> snd (run (invoke c) st)).
Proof.
  intros Hsub. rewrite run_apply_rules_async_submitted, Hsub.
  cbn [apply_in_order]. by destruct (run (invoke c) st) as [st' [e|]].
Qed.

(** A rule set with only a non-empty removal, in the three modes. *)
Lemma remove_only_modes (rules : Rules.t) (first : RemoveRule.t)
    (others : list RemoveRule.t) (attributes : list string) (st : state) :
  Rules.remove_attributes rules = Some (first :: others) ->
  RemoveRule.attributes first = Some attributes ->
  attributes <> [] ->
  items (Rules.replace_attributes rules) = [] ->
  items (Rules.add_attributes rules) = [] ->
  (soup (fst (run (remove_attributes (Some attributes)) st))
     = map (without_attributes attributes) (soup st) /\
   snd (run (remove_attributes (Some attributes)) st) = None) /\
  (soup (fst (run (apply_rules_async rules) st))
     = map (without_attributes attributes) (soup st) /\
   snd (run (apply_rules_async rules) st) = None) /\
  (exists st', apply_rules rules st st' None) /\
  (forall st' r, apply_rules rules st st' r ->
     soup st' = map (without_attributes attributes) (soup st) /\ r = None).
Proof.
  intros Hrem Hattrs Hne Hrep Hadd.
  pose proof (submitted_only_remove rules first others Hrem Hrep Hadd) as Hsub.
  rewrite Hattrs in Hsub.
  pose proof (run_remove_attributes attributes st Hne) as Hrun.
  assert (Hpool : forall st' r, apply_rules rules st st' r ->
            soup st' = map (without_attributes attributes) (soup st) /\ r = None).
  { intros st' r Happly.
    destruct (apply_rules_one_call rules _ st st' r Hsub Happly) as [-> ->].
    cbn [invoke]. by rewrite Hrun. }
  repeat split.
  - by rewrite Hrun.
  - by rewrite Hrun.
  - rewrite (run_apply_rules_async_one_call rules _ st Hsub). cbn [invoke fst].
    by rewrite Hrun.
  - rewrite (run_apply_rules_async_one_call rules _ st Hsub). cbn [invoke snd].
    by rewrite Hrun.
  - destruct (apply_rules_total rules st) as (st' & r & Happly).
    destruct (Hpool st' r Happly) as [_ ->]. by exists st'.
  - by destruct (Hpool _ _ H).
  - by destruct (Hpool _ _ H).
Qed.

(** ** A worker that only raises *)

(** [aborts p]: [p] writes nothing to the tree and ends by raising. *)
Fixpoint aborts (p : prog) : Prop :=
  match p with
  | Done => False
  | Raise _ => True
  | Log _ k => aborts k
  | FindAll k => forall l, aborts (k l)
  | GetName _ k => forall n, aborts (k n)
  | HasAttr _ _ k => forall b, aborts (k b)
  | GetAttr _ _ k => forall v, aborts (k v)
  | SetItem _ _ _ _ => False
  | DelItem _ _ _ => False
  end.

Lemma aborts_act (p p' : prog) (st st' : state) :
  aborts p -> act p st = Some (p', st') -> aborts p' /\ soup st' = soup st.
Proof. destruct p; simpl; intros Hs Hact; by simplify_eq. Qed.

Lemma aborts_finished (p : prog) :
  aborts p -> finished p -> exists e, p = Raise e.
Proof. destruct p; simpl; try done. intros _ _. by eexists. Qed.

(** What a program does next depends on the tree only, not on the log. *)
Lemma act_same_soup (p p' : prog) (st1 st1' st2 : state) :
  act p st1 = Some (p', st1') ->
  soup st2 = soup st1 ->
  exists st2', act p st2 = Some (p', st2') /\ soup st2' = soup st1'.
Proof.
  intros Hact Hs. destruct p; simpl in *; unfold tag_at in *;
    simplify_eq; rewrite ?Hs; eexists; (split; [reflexivity|]); simpl;
    by rewrite ?Hs.
Qed.

(** Dropping a worker that aborts from the pool leaves the same trees
    reachable. *)
Lemma pool_drop_aborting (c c' : list prog * state) :
  rtc pool_step c c' ->
  forall (w0 : prog) (ws : list prog) (st st2 : state),
    c = (w0 :: ws, st) ->
    aborts w0 ->
    soup st2 = soup st ->
    exists (w0' : prog) (ws' : list prog) (st' st2' : state),
      c' = (w0' :: ws', st') /\ aborts w0' /\
      rtc pool_step (ws, st2) (ws', st2') /\ soup st2' = soup st'.
Proof.
  induction 1 as [c|c1 c2 c3 Hstep Hsteps IH]; intros w0 ws st st2 -> Hab Hs.
  - exists w0, ws, st, st2. repeat split; [done|apply rtc_refl|done].
  - inversion Hstep as [wl s i q q' s' Hi Hact]; subst.
    destruct i as [|j]; simpl in Hi; simplify_eq.
    + destruct (aborts_act _ _ _ _ Hab Hact) as [Hab' Hs'].
      apply (IH q' ws s' st2 eq_refl Hab'). congruence.
    + destruct (act_same_soup _ _ _ _ st2 Hact Hs) as (st3 & Hact2 & Hs3).
      destruct (IH w0 (<[j:=q']> ws) s' st3 eq_refl Hab Hs3)
        as (w0' & ws' & st' & st2' & -> & Hab' & Hrest & Hs').
      exists w0', ws', st', st2'. repeat split; [done| |done].
      eapply rtc_l; [|exact Hrest]. by eapply pool_step_worker.
Qed.

(** The rule set without its [remove_attributes] key. *)
Definition without_remove (rules : Rules.t) : Rules.t :=
  {| Rules.remove_attributes := None;
     Rules.replace_attributes := Rules.replace_attributes rules;
     Rules.add_attributes := Rules.add_attributes rules |}.

Lemma submitted_with_remove (rules : Rules.t) (first : RemoveRule.t)
    (others : list RemoveRule.t) :
  Rules.remove_attributes rules = Some (first :: others) ->
  exists rest,
    submitted (without_remove rules) = inr rest /\
    submitted rules = inr (RemoveAttributes (RemoveRule.attributes first) :: rest).
Proof. unfold submitted; simpl. intros ->. by eexists. Qed.

Lemma aborts_remove_attributes_falsy (attributes : option (list string)) :
  is_falsy attributes = true -> aborts (remove_attributes attributes).
Proof.
  intros H. unfold remove_attributes, logging_debug. cbn [andthen aborts].
  by rewrite H.
Qed.

(** In the pool, a removal with an empty list makes [apply_rules] raise, and
    the tree ends as one the other calls alone could leave. *)
Lemma apply_rules_falsy_remove (rules : Rules.t) (first : RemoveRule.t)
    (others : list RemoveRule.t) (st st' : state) (r : option exn) :
  Rules.remove_attributes rules = Some (first :: others) ->
  is_falsy (RemoveRule.attributes first) = true ->
  apply_rules rules st st' r ->
  (exists e, r = Some (wrap_rule_application e)) /\
  (exists st'' r', apply_rules (without_remove rules) st st'' r' /\
     soup st'' = soup st').
Proof.
  intros Hrem Hfalsy Happly.
  destruct (submitted_with_remove rules first others Hrem) as (rest & Hrest & Hsub).
  assert (Hsim : forall workers,
    rtc pool_step (map invoke (RemoveAttributes (RemoveRule.attributes first) :: rest), st)
      (workers, st') ->
    Forall finished workers ->
    (exists e ws', workers = Raise e :: ws') /\
    exists st'' r', apply_rules (without_remove rules) st st'' r' /\
      soup st'' = soup st').
  { intros workers Hsteps Hfin. cbn [map invoke] in Hsteps.
    destruct (pool_drop_aborting _ _ Hsteps _ _ st st eq_refl
                (aborts_remove_attributes_falsy _ Hfalsy) eq_refl)
      as (w0' & ws' & st1 & st2' & Heq & Hab & Hpool & Hs).
    simplify_eq. apply Forall_cons in Hfin as [Hf0 Hfin].
    destruct (aborts_finished _ Hab Hf0) as [e ->].
    split; [by exists e, ws'|].
    destruct (finished_workers _ Hfin) as [Hdone|(i & e' & Hi)].
    - exists st2', None. split; [|done]. by eapply apply_rules_returns.
    - exists st2', (Some (wrap_rule_application e')). split; [|done].
      by eapply apply_rules_raises. }
  destruct Happly as [e He|calls workers st' Hc Hsteps Hdone
                     |calls workers st' i e Hc Hsteps Hfin Hi].
  - congruence.
  - rewrite Hsub in Hc; simplify_eq.
    destruct (Hsim workers Hsteps) as [(e & ws' & ->) _].
    { eapply Forall_impl; [exact Hdone|]. by intros ? ->. }
    by apply Forall_inv in Hdone.
  - rewrite Hsub in Hc; simplify_eq.
    destruct (Hsim workers Hsteps Hfin) as [_ Hrest']. split; [by exists e|done].
Qed.

(** ** Sample documents and rule sets *)

(** A tag with string-valued attributes. *)
Definition tag_of (n : string) (l : list (string * string)) : Tag :=
  {| name := n; attrs := list_to_map (map (fun p => (p.1, Str p.2)) l) |}.

(** The tag with one more attribute, multi-valued: [parts] is what the
    parser makes of the attribute text, a Python [list]. *)
Definition with_list (a : string) (parts : list string) (e : Tag) : Tag :=
  {| name := name e; attrs := <[a := Lst "list" parts]> (attrs e) |}.

Definition fresh (l : list Tag) : state := {| soup := l; log := [] |}.

(** [<img src="image.png" alt="An image" width="500" height="300" />] *)
Definition img_document : state :=
  fresh [ tag_of "root" [];
          tag_of "img" [("src", "image.png"); ("alt", "An image");
                        ("width", "500"); ("height", "300")] ].

(** [<div class="header" style="color: red;" data-id="123">Welcome</div>] *)
Definition div_document : state :=
  fresh [ tag_of "root" [];
          with_list "class" ["header"]
            (tag_of "div" [("style", "color: red;"); ("data-id", "123")]) ].

Definition remove_rule (attributes : option (list string)) : RemoveRule.t :=
  {| RemoveRule.attributes := attributes |}.

Definition removal_rules (entries : list RemoveRule.t) : Rules.t :=
  {| Rules.remove_attributes := Some entries;
     Rules.replace_attributes := None;
     Rules.add_attributes := None |}.

(** ** The claims *)

(** C10.  A rule set whose [remove_attributes] key holds an empty list makes
    [apply_rules_async] and [apply_rules] raise a [MarkupModificationError]
    that wraps the failed indexing of the first entry; no call is made and
    the state is left as it was. *)
Theorem empty_remove_entries_raise (rules : Rules.t) (st : state) :
  Rules.remove_attributes rules = Some [] ->
  run (apply_rules_async rules) st
  = (st, Some (MarkupModificationError
                 "Error during asynchronous rule application"
                 (Some "list index out of range"))) /\
  apply_rules rules st st
    (Some (MarkupModificationError "Error during rule application"
             (Some "list index out of range"))) /\
  (forall st' r, apply_rules rules st st' r ->
     st' = st /\
     r = Some (MarkupModificationError "Error during rule application"
                 (Some "list index out of range"))).
Proof.
  intros Hrem.
  assert (Hsub : submitted rules = inl (IndexError "list index out of range")).
  { unfold submitted. by rewrite Hrem. }
  split; [|split].
  - by rewrite run_apply_rules_async_submitted, Hsub.
  - by apply (apply_rules_not_submitted rules st _ Hsub).
  - intros st' r Happly.
    destruct Happly as [e He|calls workers st' Hc _ _|calls workers st' i e Hc _ _ _];
      [|congruence..].
    rewrite Hsub in He. by simplify_eq.
Qed.

Lemma empty_remove_entries_raise_witness :
  Rules.remove_attributes (removal_rules []) = Some [] /\
  run (apply_rules_async (removal_rules [])) img_document
  = (img_document,
     Some (MarkupModificationError
             "Error during asynchronous rule application"
             (Some "list index out of range"))).
Proof.
  split; [reflexivity|].
  apply (empty_remove_entries_raise (removal_rules []) img_document).
  reflexivity.
Defined.

(** C6.  A rule set with only a [remove_attributes] category whose first
    entry lists at least one attribute: in the three modes (direct call,
    [apply_rules_async], [apply_rules]) the call returns and every tag of the
    tree, in document order, has lost every listed attribute. *)
Theorem remove_only_removes_everywhere (rules : Rules.t) (first : RemoveRule.t)
    (others : list RemoveRule.t) (attributes : list string) (st : state) :
  Rules.remove_attributes rules = Some (first :: others) ->
  RemoveRule.attributes first = Some attributes ->
  attributes <> [] ->
  items (Rules.replace_attributes rules) = [] ->
  items (Rules.add_attributes rules) = [] ->
  (forall i e, soup st !! i = Some e ->
     map (without_attributes attributes) (soup st) !! i
       = Some (without_attributes attributes e) /\
     forall a, a ∈ attributes ->
       attrs (without_attributes attributes e) !! a = None) /\
  (soup (fst (run (remove_attributes (Some attributes)) st))
     = map (without_attributes attributes) (soup st) /\
   snd (run (remove_attributes (Some attributes)) st) = None) /\
  (soup (fst (run (apply_rules_async rules) st))
     = map (without_attributes attributes) (soup st) /\
   snd (run (apply_rules_async rules) st) = None) /\
  (exists st', apply_rules rules st st' None) /\
  (forall st' r, apply_rules rules st st' r ->
     soup st' = map (without_attributes attributes) (soup st) /\ r = None).
Proof.
  intros Hrem Hattrs Hne Hrep Hadd. split.
  - intros i e Hi. split.
    + by rewrite list_lookup_fmap, Hi.
    + intros a Ha. rewrite lookup_without_attributes. by rewrite decide_True.
  - by apply (remove_only_modes rules first others).
Qed.

Lemma remove_only_removes_everywhere_witness :
  soup (fst (run (apply_rules_async
                    (removal_rules [remove_rule (Some ["width"; "height"; "alt"])]))
               img_document))
  = [ tag_of "root" []; tag_of "img" [("src", "image.png")] ].
Proof.
  destruct (remove_only_removes_everywhere
              (removal_rules [remove_rule (Some ["width"; "height"; "alt"])])
              (remove_rule (Some ["width"; "height"; "alt"])) []
              ["width"; "height"; "alt"] img_document)
    as (_ & _ & [Hasync _] & _); [reflexivity|reflexivity|discriminate
                                 |reflexivity|reflexivity|].
  rewrite Hasync. vm_compute. reflexivity.
Defined.

(** C8.  Removing attributes is idempotent: a second application of the same
    non-empty removal leaves the tree as the first one left it, because
    deleting an attribute a tag does not carry changes nothing. *)
Theorem remove_attributes_idempotent (attributes : list string) (st : state) :
  attributes <> [] ->
  (forall a e, has_attr a e = false -> del_attr a e = e) /\
  (let once := fst (run (remove_attributes (Some attributes)) st) in
   soup (fst (run (remove_attributes (Some attributes)) once)) = soup once /\
   snd (run (remove_attributes (Some attributes)) once) = None) /\
  (forall rules first others,
     Rules.remove_attributes rules = Some (first :: others) ->
     RemoveRule.attributes first = Some attributes ->
     items (Rules.replace_attributes rules) = [] ->
     items (Rules.add_attributes rules) = [] ->
     (let once := fst (run (apply_rules_async rules) st) in
      soup (fst (run (apply_rules_async rules) once)) = soup once) /\
     (forall st1 r1 st2 r2,
        apply_rules rules st st1 r1 -> apply_rules rules st1 st2 r2 ->
        soup st2 = soup st1)).
Proof.
  intros Hne.
  assert (Hmap : forall l : list Tag,
            map (without_attributes attributes) (map (without_attributes attributes) l)
            = map (without_attributes attributes) l).
  { intros l. rewrite map_map. apply map_ext; intros e.
    apply without_attributes_idemp. }
  split; [apply del_attr_absent|]. split.
  - cbv zeta. rewrite !run_remove_attributes by done. simpl. by rewrite Hmap.
  - intros rules first others Hrem Hattrs Hrep Hadd. split.
    + cbv zeta.
      destruct (remove_only_modes rules first others attributes st
                  Hrem Hattrs Hne Hrep Hadd) as (_ & [H1 _] & _).
      destruct (remove_only_modes rules first others attributes
                  (fst (run (apply_rules_async rules) st))
                  Hrem Hattrs Hne Hrep Hadd) as (_ & [H2 _] & _).
      by rewrite H2, H1, Hmap.
    + intros st1 r1 st2 r2 Hfirst Hsecond.
      destruct (remove_only_modes rules first others attributes st
                  Hrem Hattrs Hne Hrep Hadd) as (_ & _ & _ & H1).
      destruct (remove_only_modes rules first others attributes st1
                  Hrem Hattrs Hne Hrep Hadd) as (_ & _ & _ & H2).
      destruct (H1 _ _ Hfirst) as [Hs1 _]. destruct (H2 _ _ Hsecond) as [Hs2 _].
      by rewrite Hs2, Hs1, Hmap.
Qed.

Lemma remove_attributes_idempotent_witness :
  ["width"; "alt"] <> [] /\
  soup (fst (run (remove_attributes (Some ["width"; "alt"]))
               (fst (run (remove_attributes (Some ["width"; "alt"]))
                       img_document))))
  = soup (fst (run (remove_attributes (Some ["width"; "alt"])) img_document)).
Proof.
  split; [discriminate|].
  apply (remove_attributes_idempotent ["width"; "alt"] img_document).
  discriminate.
Defined.

(** C2.  [remove_attributes] with [None] or an empty list raises a
    [MarkupModificationError] before it visits a tag: the method is the entry
    log line followed by the [raise].  Called directly or through
    [apply_rules_async] the tree is left as it was; through [apply_rules] the
    call raises too, [apply_rules] raises a [MarkupModificationError], and
    the tree ends as one that the other submitted calls alone could leave
    (unchanged when the rule set has no other category). *)
Theorem remove_attributes_empty_raises (attributes : option (list string))
    (st : state) :
  is_falsy attributes = true ->
  remove_attributes attributes
  = Log (Entered (RemoveAttributes attributes)) (Raise remove_attributes_error) /\
  (soup (fst (run (remove_attributes attributes) st)) = soup st /\
   snd (run (remove_attributes attributes) st) = Some remove_attributes_error) /\
  (forall rules first others,
     Rules.remove_attributes rules = Some (first :: others) ->
     RemoveRule.attributes first = attributes ->
     (soup (fst (run (apply_rules_async rules) st)) = soup st /\
      snd (run (apply_rules_async rules) st)
      = Some (MarkupModificationError
                "Error during asynchronous rule application"
                (Some (str remove_attributes_error)))) /\
     (exists st' r, apply_rules rules st st' r) /\
     (forall st' r, apply_rules rules st st' r ->
        (exists e, r = Some (MarkupModificationError
                               "Error during rule application" (Some (str e)))) /\
        (exists st'' r', apply_rules (without_remove rules) st st'' r' /\
           soup st'' = soup st') /\
        (items (Rules.replace_attributes rules) = [] ->
         items (Rules.add_attributes rules) = [] ->
         soup st' = soup st))).
Proof.
  intros Hfalsy. split; [|split].
  - by destruct attributes as [[|a l]|].
  - by rewrite run_remove_attributes_falsy.
  - intros rules first others Hrem Hattrs. subst attributes. split; [|split].
    + destruct (submitted_with_remove rules first others Hrem)
        as (rest & _ & Hsub).
      rewrite run_apply_rules_async_submitted, Hsub. cbn [apply_in_order invoke].
      by rewrite run_remove_attributes_falsy.
    + apply apply_rules_total.
    + intros st' r Happly.
      destruct (apply_rules_falsy_remove rules first others st st' r
                  Hrem Hfalsy Happly) as [Hraise Hother].
      split; [done|]. split; [done|]. intros Hrep Hadd.
      pose proof (submitted_only_remove rules first others Hrem Hrep Hadd)
        as Hsub.
      destruct (apply_rules_one_call rules _ st st' r Hsub Happly) as [-> _].
      cbn [invoke]. by rewrite run_remove_attributes_falsy.
Qed.

Lemma remove_attributes_empty_raises_witness :
  is_falsy (@None (list string)) = true /\
  run (remove_attributes None) img_document
  = (write_log (Entered (RemoveAttributes None)) img_document,
     Some remove_attributes_error).
Proof.
  split; [reflexivity|].
  destruct (remove_attributes_empty_raises None img_document) as (Hprog & _);
    [reflexivity|].
  rewrite Hprog. reflexivity.
Defined.

Definition is_removal (c : call) : bool :=
  match c with RemoveAttributes _ => true | _ => false end.

Lemma replace_add_calls_not_removal (replace : list ReplaceRule.t)
    (add : list AddRule.t) :
  Forall (fun c => is_removal c = false)
    (map replace_call replace ++ map add_call add).
Proof.
  apply Forall_app; split; apply Forall_forall; intros c Hc;
    apply list_elem_of_In, in_map_iff in Hc as (rule & <- & _); done.
Qed.

(** An attribute that is not handed to [remove_attributes] stays on every
    tag that carries it, however the pool interleaves the calls. *)
Lemma present_apply_rules (a : string) (i : nat) (rules : Rules.t)
    (st st' : state) (r : option exn) :
  a ∉ removal_list rules ->
  apply_rules rules st st' r ->
  present a i st -> present a i st'.
Proof.
  intros Hnot Happly Hp.
  destruct Happly as [e He|calls workers st' Hc Hsteps _
                     |calls workers st' j e Hc Hsteps _ _]; [done|..];
    by apply (keeps_pool a _ _ _ _ (keeps_submitted a rules calls Hnot Hc) Hsteps).
Qed.

Lemma present_apply_rules_async (a : string) (i : nat) (rules : Rules.t)
    (st : state) :
  a ∉ removal_list rules ->
  present a i st -> present a i (fst (run (apply_rules_async rules) st)).
Proof. intros Hnot. by apply keeps_run, keeps_apply_rules_async. Qed.

(** The second half of C1 as it is worded: every attribute listed in an
    entry after the first stays on the tags that carry it. *)
Definition later_attributes_remain (rules : Rules.t) (st : state) : Prop :=
  forall first second others entry a i,
    Rules.remove_attributes rules = Some (first :: second :: others) ->
    entry ∈ second :: others ->
    a ∈ items (RemoveRule.attributes entry) ->
    present a i st ->
    present a i (fst (run (apply_rules_async rules) st)).

(** [remove_attributes: [{attributes: [width]}, {attributes: [width]}]] *)
Definition repeated_removal : Rules.t :=
  removal_rules [remove_rule (Some ["width"]); remove_rule (Some ["width"])].

(** C1, counterexample.  When a later entry lists an attribute that the
    first entry lists too, the attribute does not stay: [width] is listed in
    the second entry and is removed from the [img] tag. *)
Lemma later_attributes_remain_fails :
  ~ later_attributes_remain repeated_removal img_document.
Proof.
  intros H.
  destruct (H (remove_rule (Some ["width"])) (remove_rule (Some ["width"])) []
              (remove_rule (Some ["width"])) "width" 1 eq_refl)
    as (e & He & Ha).
  - by left.
  - by left.
  - eexists. split; [reflexivity|]. by vm_compute.
  - vm_compute in He. injection He as <-. vm_compute in Ha. discriminate Ha.
Qed.

(** C1, amended.  With two or more entries under [remove_attributes], both
    [apply_rules] and [apply_rules_async] call [remove_attributes] once, with
    the [attributes] of the first entry: the later entries change neither the
    submitted calls nor the coroutine, and an attribute that the first entry
    does not list stays on every tag that carries it. *)
Theorem only_first_remove_entry_applies (rules : Rules.t)
    (first second : RemoveRule.t) (others : list RemoveRule.t) (st : state) :
  Rules.remove_attributes rules = Some (first :: second :: others) ->
  let only_first :=
    {| Rules.remove_attributes := Some [first];
       Rules.replace_attributes := Rules.replace_attributes rules;
       Rules.add_attributes := Rules.add_attributes rules |} in
  (exists rest,
     submitted rules
     = inr (RemoveAttributes (RemoveRule.attributes first) :: rest) /\
     Forall (fun c => is_removal c = false) rest /\
     submitted rules = submitted only_first) /\
  apply_rules_async rules = apply_rules_async only_first /\
  (exists more,
     entered (log (fst (run (apply_rules_async rules) st)))
     = entered (log st) ++ RemoveAttributes (RemoveRule.attributes first) :: more /\
     Forall (fun c => is_removal c = false) more) /\
  (forall a i,
     a ∉ items (RemoveRule.attributes first) ->
     present a i st ->
     present a i (fst (run (apply_rules_async rules) st)) /\
     forall st' r, apply_rules rules st st' r -> present a i st').
Proof.
  intros Hrem only_first.
  assert (Hsub : submitted rules
                 = inr (RemoveAttributes (RemoveRule.attributes first)
                        :: map replace_call (items (Rules.replace_attributes rules))
                        ++ map add_call (items (Rules.add_attributes rules)))).
  { unfold submitted. by rewrite Hrem. }
  assert (Hlist : removal_list rules = items (RemoveRule.attributes first)).
  { unfold removal_list. by rewrite Hrem. }
  split; [|split; [|split]].
  - eexists. split; [exact Hsub|]. split; [|by rewrite Hsub].
    apply replace_add_calls_not_removal.
  - unfold apply_rules_async. by rewrite Hrem.
  - rewrite run_apply_rules_async_submitted, Hsub. cbn [fst].
    destruct (entered_apply_in_order
                (RemoveAttributes (RemoveRule.attributes first)
                 :: map replace_call (items (Rules.replace_attributes rules))
                 ++ map add_call (items (Rules.add_attributes rules))) st)
      as (done_calls & Hlog & Hpre & _ & Hfirst).
    destruct (Hfirst _ _ eq_refl) as [more ->].
    exists more. split; [done|].
    apply prefix_cons_inv_2 in Hpre as [k Hk].
    pose proof (replace_add_calls_not_removal
                  (items (Rules.replace_attributes rules))
                  (items (Rules.add_attributes rules))) as Hall.
    rewrite Hk in Hall. by apply Forall_app in Hall as [? _].
  - intros a i Hnot Hp. rewrite <- Hlist in Hnot. split.
    + by apply present_apply_rules_async.
    + intros st' r Happly. by eapply present_apply_rules.
Qed.

Lemma only_first_remove_entry_applies_witness :
  Rules.remove_attributes
    (removal_rules [remove_rule (Some ["width"]); remove_rule (Some ["alt"])])
  = Some [remove_rule (Some ["width"]); remove_rule (Some ["alt"])] /\
  present "alt" 1
    (fst (run (apply_rules_async
                 (removal_rules [remove_rule (Some ["width"]);
                                 remove_rule (Some ["alt"])]))
            img_document)).
Proof.
  split; [reflexivity|].
  destruct (only_first_remove_entry_applies
              (removal_rules [remove_rule (Some ["width"]);
                              remove_rule (Some ["alt"])])
              (remove_rule (Some ["width"])) (remove_rule (Some ["alt"])) []
              img_document eq_refl) as (_ & _ & _ & Hstay).
  apply (Hstay "alt" 1).
  - vm_compute. intros H. by repeat (apply elem_of_cons in H as [H|H]; [discriminate H|]);
      apply not_elem_of_nil in H.
  - eexists. split; [reflexivity|]. vm_compute. reflexivity.
Defined.

(** The operations of a rule set in category order, as the specification
    lists them: the removal of the first entry, then each replace entry,
    then each add entry. *)
Definition operations_in_category_order (rules : Rules.t) : list call :=
  match Rules.remove_attributes rules with
  | Some (first :: _) => [RemoveAttributes (RemoveRule.attributes first)]
  | _ => []
  end
  ++ map replace_call (items (Rules.replace_attributes rules))
  ++ map add_call (items (Rules.add_attributes rules)).

(** A purely sequential application: the operations are called directly,
    one after the other, and the first exception ends the sequence.  A
    [remove_attributes] category without entries has no first entry to use,
    and the sequence ends there. *)
Definition purely_sequential (rules : Rules.t) (st : state)
    : state * option exn :=
  match Rules.remove_attributes rules with
  | Some [] => (st, Some (IndexError "list index out of range"))
  | _ => apply_in_order (operations_in_category_order rules) st
  end.

(** C5.  [apply_rules_async] runs the derived operations one at a time in
    category order: the tree and the log it leaves are those of the purely
    sequential application, it raises exactly when that application raises
    (wrapping the exception), and the log shows the calls in that order.
    This holds for every rule set, so in particular for those whose
    categories touch disjoint attributes. *)
Theorem apply_rules_async_is_sequential (rules : Rules.t) (st : state) :
  fst (run (apply_rules_async rules) st) = fst (purely_sequential rules st) /\
  snd (run (apply_rules_async rules) st)
  = wrap_async <$> snd (purely_sequential rules st) /\
  exists done_calls,
    entered (log (fst (run (apply_rules_async rules) st)))
    = entered (log st) ++ done_calls /\
    done_calls `prefix_of` operations_in_category_order rules /\
    (snd (run (apply_rules_async rules) st) = None ->
     done_calls = operations_in_category_order rules).
Proof.
  rewrite run_apply_rules_async_submitted.
  unfold purely_sequential, operations_in_category_order, submitted.
  destruct (Rules.remove_attributes rules) as [[|first others]|].
  - split; [done|]. split; [done|]. exists []. rewrite app_nil_r.
    split; [done|]. split; [apply prefix_nil|done].
  - split; [done|]. split; [done|]. cbn [fst snd].
    destruct (entered_apply_in_order
                ([RemoveAttributes (RemoveRule.attributes first)]
                 ++ map replace_call (items (Rules.replace_attributes rules))
                 ++ map add_call (items (Rules.add_attributes rules))) st)
      as (done_calls & Hlog & Hpre & Hall & _).
    exists done_calls. split; [done|]. split; [done|]. intros Hnone.
    apply Hall. by destruct (snd (apply_in_order _ st)).
  - split; [done|]. split; [done|]. cbn [fst snd].
    destruct (entered_apply_in_order
                ([] ++ map replace_call (items (Rules.replace_attributes rules))
                 ++ map add_call (items (Rules.add_attributes rules))) st)
      as (done_calls & Hlog & Hpre & Hall & _).
    exists done_calls. split; [done|]. split; [done|]. intros Hnone.
    apply Hall. by destruct (snd (apply_in_order _ st)).
Qed.

(** Tag names compared without regard to case. *)
Definition same_name (n tag : string) : bool :=
  String.eqb (Py.lower n) (Py.lower tag).

(** The parser ([html.parser]) stores tag names in lower case. *)
Definition lowercase_names (l : list Tag) : Prop :=
  Forall (fun e => Py.lower (name e) = name e) l.

Lemma tag_selected_same_name (tag : string) (e : Tag) :
  Py.lower (name e) = name e -> tag_selected tag e = same_name (name e) tag.
Proof. unfold tag_selected, same_name. by intros ->. Qed.

Lemma map_ext_Forall {A B : Type} (P : A -> Prop) (f g : A -> B) (l : list A) :
  Forall P l -> (forall x, P x -> f x = g x) -> map f l = map g l.
Proof.
  intros Hall Hfg. induction Hall as [|x l Hx _ IH]; simpl; [done|].
  by rewrite Hfg, IH.
Qed.

(** C7.  [add_attribute] sets the attribute to the value on every tag whose
    name equals the given tag name without regard to case, and overwrites:
    after [(tag, attribute, value1)] and then [(tag, attribute, value2)]
    each such tag carries exactly [value2], as if only the second call had
    been made. *)
Theorem add_attribute_overwrites (tag attribute value1 value2 : string)
    (st : state) :
  lowercase_names (soup st) ->
  let st1 := fst (run (add_attribute tag attribute value1) st) in
  let st2 := fst (run (add_attribute tag attribute value2) st1) in
  snd (run (add_attribute tag attribute value1) st) = None /\
  snd (run (add_attribute tag attribute value2) st1) = None /\
  soup st1 = map (fun e => if same_name (name e) tag
                           then set_attr attribute value1 e else e) (soup st) /\
  soup st2 = map (fun e => if same_name (name e) tag
                           then set_attr attribute value2 e else e) (soup st) /\
  (forall i e, soup st !! i = Some e -> same_name (name e) tag = true ->
     exists e2, soup st2 !! i = Some e2 /\ name e2 = name e /\
       attrs e2 !! attribute = Some (Str value2) /\
       forall b, b <> attribute -> attrs e2 !! b = attrs e !! b).
Proof.
  intros Hlow st1 st2. subst st1 st2. rewrite !run_add_attribute. cbn [fst snd soup].
  assert (H1 : map (fun e => if tag_selected tag e
                             then set_attr attribute value1 e else e) (soup st)
               = map (fun e => if same_name (name e) tag
                               then set_attr attribute value1 e else e) (soup st)).
  { apply (map_ext_Forall _ _ _ _ Hlow). intros e He.
    by rewrite tag_selected_same_name. }
  assert (H2 : map (fun e => if tag_selected tag e
                             then set_attr attribute value2 e else e)
                 (map (fun e => if same_name (name e) tag
                                then set_attr attribute value1 e else e) (soup st))
               = map (fun e => if same_name (name e) tag
                               then set_attr attribute value2 e else e) (soup st)).
  { rewrite map_map. apply (map_ext_Forall _ _ _ _ Hlow). intros e He.
    destruct (same_name (name e) tag) eqn:Hsame.
    - rewrite tag_selected_same_name by done. cbn [name set_attr]. rewrite Hsame.
      unfold set_attr; simpl. by rewrite insert_insert_eq.
    - rewrite tag_selected_same_name by done. by rewrite Hsame. }
  rewrite H1, H2. repeat split; try done.
  intros i e Hi Hsame. eexists. split.
  - rewrite list_lookup_fmap, Hi. simpl. by rewrite Hsame.
  - simpl. split; [done|]. split; [apply lookup_insert_eq|].
    intros b Hb. by rewrite lookup_insert_ne.
Qed.

(** [<a href="https://example.com">Click Here</a>] *)
Definition link_document : state :=
  fresh [ tag_of "root" []; tag_of "a" [("href", "https://example.com")] ].

Lemma add_attribute_overwrites_witness :
  lowercase_names (soup link_document) /\
  soup (fst (run (add_attribute "A" "target" "_blank")
               (fst (run (add_attribute "A" "target" "_self") link_document))))
  = [ tag_of "root" [];
      tag_of "a" [("href", "https://example.com"); ("target", "_blank")] ].
Proof.
  assert (Hlow : lowercase_names (soup link_document)).
  { repeat constructor. }
  split; [exact Hlow|].
  destruct (add_attribute_overwrites "A" "target" "_self" "_blank"
              link_document Hlow) as (_ & _ & _ & H2 & _).
  rewrite H2. vm_compute. reflexivity.
Defined.

Lemma is_empty_true (s : string) : Py.is_empty s = true <-> s = "".
Proof. by destruct s. Qed.

(** The new style value as C3 words it: the kept declarations are joined
    with [;] and only trailing [;] are trimmed. *)
Definition updated_style_as_worded (properties : list string)
    (original_style : string) : string :=
  Py.rstrip_chars ";"
    (Py.join ";"
       (filter
          (fun s => negb (existsb (fun prop => Py.startswith (Py.strip s) prop)
                            properties) = true)
          (Py.split ";"%char original_style))).

Definition style_rewritten_as_worded (properties : list string) (st : state)
    : Prop :=
  forall i e v,
    soup st !! i = Some e ->
    attrs e !! "style" = Some (Str v) ->
    exists e',
      soup (fst (run (remove_style_properties (Some properties)) st)) !! i
        = Some e' /\
      attrs e' !! "style"
      = if Py.is_empty (updated_style_as_worded properties v) then None
        else Some (Str (updated_style_as_worded properties v)).

(** C3, counterexample.  On [style=";color: red"] with the property list
    [border] the wording gives [";color: red"] (there is no trailing [;] to
    trim; the declarations carry no white space, so trimming them or not
    makes no difference), but the method writes ["color: red"]. *)
Lemma style_rewritten_as_worded_fails :
  ~ style_rewritten_as_worded ["border"]
      (fresh [tag_of "p" [("style", ";color: red")]]).
Proof.
  intros H.
  destruct (H 0 (tag_of "p" [("style", ";color: red")]) ";color: red"
              eq_refl eq_refl) as (e' & He' & Hstyle).
  vm_compute in He'. injection He' as <-. vm_compute in Hstyle.
  discriminate Hstyle.
Qed.

(** C3, amended.  For a non-empty property list [remove_style_properties]
    returns and rewrites the [style] attribute of every tag that has one:
    the value is split on [;], the declarations whose trimmed text starts
    with a listed property name are dropped (a prefix match: [color] drops
    [color-scheme: dark]), the kept declarations are trimmed and joined with
    [;], and leading as well as trailing [;] are stripped; an empty result
    deletes the attribute.  Nothing else of a tag changes.  The tree is any
    tree whose [style] values are strings ([string_styles]), which is every
    tree the parser builds and the methods leave. *)
Theorem remove_style_properties_rewrites (properties : list string)
    (st : state) :
  properties <> [] ->
  string_styles (soup st) ->
  snd (run (remove_style_properties (Some properties)) st) = None /\
  soup (fst (run (remove_style_properties (Some properties)) st))
  = map (restyled properties) (soup st) /\
  (forall e,
     name (restyled properties e) = name e /\
     (forall a, a <> "style" ->
        attrs (restyled properties e) !! a = attrs e !! a) /\
     (attrs e !! "style" = None -> restyled properties e = e) /\
     (forall v, attrs e !! "style" = Some (Str v) ->
        attrs (restyled properties e) !! "style"
        = if Py.is_empty (updated_style properties v) then None
          else Some (Str (updated_style properties v)))) /\
  (forall v,
     exists kept,
       updated_style properties v
       = Py.strip_chars ";" (Py.join ";" (map Py.strip kept)) /\
       forall s, s ∈ kept <->
         s ∈ Py.split ";"%char v /\
         forall prop, prop ∈ properties ->
           Py.startswith (Py.strip s) prop = false) /\
  updated_style ["color"] "color-scheme: dark; margin: 0" = "margin: 0".
Proof.
  intros Hne Hstr. rewrite run_remove_style_properties by done.
  cbn [fst snd soup].
  split; [done|]. split; [done|]. split; [|split; [|done]].
  - intros e. unfold restyled.
    destruct (attrs e !! "style") as [[v|class parts]|] eqn:Hv.
    + destruct (Py.is_empty (updated_style properties v)) eqn:Hempty; simpl.
      * split; [done|]. split; [by intros a Ha; rewrite lookup_delete_ne|].
        split; [done|]. intros v' ?; simplify_eq. rewrite Hempty.
        apply lookup_delete_eq.
      * split; [done|]. split; [by intros a Ha; rewrite lookup_insert_ne|].
        split; [done|]. intros v' ?; simplify_eq. rewrite Hempty.
        apply lookup_insert_eq.
    + by repeat split.
    + by repeat split.
  - intros v. eexists. split; [reflexivity|]. intros s.
    rewrite list_elem_of_filter, negb_true_iff, <- not_true_iff_false,
      existsb_exists.
    split.
    + intros [Hno Hin]. split; [done|].
      intros prop Hprop. apply not_true_iff_false. intros Hp.
      apply Hno. exists prop. by rewrite <- list_elem_of_In.
    + intros [Hin Hkeep]. split; [|done].
      intros (prop & Hprop & Hp). apply list_elem_of_In in Hprop.
      by rewrite (Hkeep prop Hprop) in Hp.
Qed.

Lemma remove_style_properties_rewrites_witness :
  ["color"] <> [] /\
  string_styles (soup div_document) /\
  soup (fst (run (remove_style_properties (Some ["color"])) div_document))
  = [ tag_of "root" [];
      with_list "class" ["header"] (tag_of "div" [("data-id", "123")]) ].
Proof.
  assert (Hstr : string_styles (soup div_document)) by (by repeat constructor).
  split; [discriminate|]. split; [exact Hstr|].
  destruct (remove_style_properties_rewrites ["color"] div_document)
    as (_ & Hsoup & _); [discriminate|exact Hstr|].
  rewrite Hsoup. vm_compute. reflexivity.
Defined.

(** C9.  [remove_style_properties] does not leave unmatched tags alone: a
    [style] value in which no listed property name occurs, and from which no
    declaration is dropped, is still rewritten, because the declarations are
    trimmed and joined with [;] without spaces
    (['color: red; border: 1px'] becomes ['color: red;border: 1px']) and
    because leading as well as trailing [;] are stripped. *)
Theorem remove_style_properties_rewrites_unmatched :
  (forall p, p ∈ ["margin"] -> ~ contains "color: red; border: 1px" p) /\
  filter (fun s => negb (existsb (fun prop => Py.startswith (Py.strip s) prop)
                           ["margin"]) = true)
    (Py.split ";"%char "color: red; border: 1px")
  = Py.split ";"%char "color: red; border: 1px" /\
  soup (fst (run (remove_style_properties (Some ["margin"]))
               (fresh [tag_of "div" [("style", "color: red; border: 1px")]])))
  = [tag_of "div" [("style", "color: red;border: 1px")]] /\
  soup (fst (run (remove_style_properties (Some ["margin"]))
               (fresh [tag_of "div" [("style", ";color: red;")]])))
  = [tag_of "div" [("style", "color: red")]] /\
  exists (st : state) (properties : list string) (i : nat) (e e' : Tag)
         (v : string),
    properties <> [] /\
    soup st !! i = Some e /\
    attrs e !! "style" = Some (Str v) /\
    (forall p, p ∈ properties -> ~ contains v p) /\
    soup (fst (run (remove_style_properties (Some properties)) st)) !! i
      = Some e' /\
    attrs e' !! "style" <> Some (Str v).
Proof.
  assert (Hnot : forall p, p ∈ ["margin"] -> ~ contains "color: red; border: 1px" p).
  { intros p Hp. apply list_elem_of_singleton in Hp as ->.
    rewrite <- containsb_spec. by vm_compute. }
  split; [exact Hnot|]. split; [by vm_compute|].
  split; [by vm_compute|]. split; [by vm_compute|].
  exists (fresh [tag_of "div" [("style", "color: red; border: 1px")]]),
    ["margin"], 0, (tag_of "div" [("style", "color: red; border: 1px")]),
    (tag_of "div" [("style", "color: red;border: 1px")]),
    "color: red; border: 1px".
  split; [done|]. split; [done|]. split; [done|]. split; [exact Hnot|].
  split; [by vm_compute|]. by vm_compute.
Qed.

(** The replacement as C4 words it: only trailing [;] are trimmed from the
    old and the new value. *)
Definition replaced_value_as_worded (old_value new_value current : string)
    : string :=
  Py.replace current (Py.rstrip_chars ";" old_value)
    (Py.rstrip_chars ";" new_value).

Definition replaced_as_worded (attribute old_value new_value : string)
    (st : state) : Prop :=
  forall i e v,
    soup st !! i = Some e ->
    attrs e !! attribute = Some (Str v) ->
    exists e',
      soup (fst (run (replace_attribute_value attribute old_value new_value) st))
        !! i = Some e' /\
      attrs e' !! attribute
      = Some (Str (replaced_value_as_worded old_value new_value v)).

(** C4, counterexample.  With [title="a;b"], old value [";b"] and new value
    ["c"], the wording replaces [";b"] (it has no trailing [;]) and gives
    ["ac"]; the method strips the leading [;] too, replaces ["b"] and writes
    ["a;c"]. *)
Lemma replaced_as_worded_fails :
  ~ replaced_as_worded "title" ";b" "c" (fresh [tag_of "a" [("title", "a;b")]]).
Proof.
  intros H.
  destruct (H 0 (tag_of "a" [("title", "a;b")]) "a;b" eq_refl eq_refl)
    as (e' & He' & Hvalue).
  vm_compute in He'. injection He' as <-. vm_compute in Hvalue.
  discriminate Hvalue.
Qed.

(** C4, amended.  On a tree in which no tag carries the attribute as a
    non-empty list, [replace_attribute_value] returns, and on every tag that
    carries the attribute with a non-empty value it replaces, inside the
    value, the old value stripped of leading and trailing [;] by the new
    value stripped of leading and trailing [;]; it writes the attribute (and
    logs the update) only when the value changes.  Tags without the
    attribute, tags whose value is empty and tags whose value does not
    contain the stripped old value are left as they are, as is everything
    else of a tag. *)
Theorem replace_attribute_value_replaces (attribute old_value new_value : string)
    (st : state) :
  no_nonempty_list attribute (soup st) ->
  snd (run (replace_attribute_value attribute old_value new_value) st) = None /\
  soup (fst (run (replace_attribute_value attribute old_value new_value) st))
  = map (with_replaced attribute old_value new_value) (soup st) /\
  log (fst (run (replace_attribute_value attribute old_value new_value) st))
  = log st
    ++ Entered (ReplaceAttributeValue attribute old_value new_value)
       :: concat (map (updated_records attribute old_value new_value) (soup st)) /\
  (forall e,
     name (with_replaced attribute old_value new_value e) = name e /\
     (forall b, b <> attribute ->
        attrs (with_replaced attribute old_value new_value e) !! b
        = attrs e !! b) /\
     (attrs e !! attribute = None ->
        with_replaced attribute old_value new_value e = e /\
        updated_records attribute old_value new_value e = []) /\
     (attrs e !! attribute = Some (Str "") \/
      (exists class, attrs e !! attribute = Some (Lst class [])) ->
        with_replaced attribute old_value new_value e = e /\
        updated_records attribute old_value new_value e = []) /\
     (forall v, attrs e !! attribute = Some (Str v) -> v <> "" ->
        let updated :=
          Py.replace v (Py.strip_chars ";" old_value)
            (Py.strip_chars ";" new_value) in
        attrs (with_replaced attribute old_value new_value e) !! attribute
        = Some (Str updated) /\
        (updated = v ->
           with_replaced attribute old_value new_value e = e /\
           updated_records attribute old_value new_value e = []) /\
        (updated <> v ->
           updated_records attribute old_value new_value e
           = [Updated attribute (Str updated)]) /\
        (~ contains v (Py.strip_chars ";" old_value) -> updated = v))).
Proof.
  intros Hok. rewrite run_replace_attribute_value by done.
  cbn [fst snd soup log].
  split; [done|]. split; [done|]. split; [done|].
  intros e. unfold with_replaced, updated_records, replaced_value.
  destruct (attrs e !! attribute) as [[v|class parts]|] eqn:Hv.
  2: { split; [done|]. split; [done|]. split; [done|]. split; [done|].
       intros v' ?; by simplify_eq. }
  2: { split; [done|]. split; [done|]. split; [done|]. split; [done|].
       intros v' ?; by simplify_eq. }
  destruct (Py.is_empty v) eqn:Hempty.
  { apply is_empty_true in Hempty as ->.
    split; [done|]. split; [done|]. split; [done|]. split; [done|].
    intros v' ? Hv'. by simplify_eq. }
  assert (Hne : v <> "") by (by intros ->).
  split; [done|]. split; [by intros b Hb; simpl; rewrite lookup_insert_ne|].
  split; [done|]. split; [intros [?|[? ?]]; by simplify_eq|].
  intros v' ? _; simplify_eq. cbv zeta.
  split; [apply lookup_insert_eq|]. split; [|split].
  - intros Heq. rewrite Heq, String.eqb_refl. split; [|done].
    by apply set_attr_same.
  - intros Hneq. apply String.eqb_neq in Hneq. by rewrite Hneq.
  - apply replace_absent.
Qed.

Lemma replace_attribute_value_replaces_witness :
  no_nonempty_list "style" (soup div_document) /\
  soup (fst (run (replace_attribute_value "style" "color: red;" "color: blue;")
               div_document))
  = [ tag_of "root" [];
      with_list "class" ["header"]
        (tag_of "div" [("style", "color: blue;"); ("data-id", "123")]) ].
Proof.
  assert (Hok : no_nonempty_list "style" (soup div_document))
    by (by repeat constructor).
  split; [exact Hok|].
  destruct (replace_attribute_value_replaces "style" "color: red;"
              "color: blue;" div_document Hok) as (_ & Hsoup & _).
  rewrite Hsoup. vm_compute. reflexivity.
Defined.

(** ** Further properties of the methods *)

(** *** When a method raises *)

(** What a direct call raises on a given tree. *)
Definition raised_alone (c : call) (st : state) : option exn :=
  match c with
  | RemoveStyleProperties properties =>
      if is_falsy properties then Some remove_style_properties_error
      else split_error <$> List.find (list_at "style") (soup st)
  | RemoveAttributes attributes =>
      if is_falsy attributes then Some remove_attributes_error else None
  | ReplaceAttributeValue attribute _ _ =>
      replace_error attribute
        <$> List.find (nonempty_list_at attribute) (soup st)
  | AddAttribute _ _ _ => None
  end.

Lemma run_invoke_outcome (c : call) (st : state) :
  snd (run (invoke c) st) = raised_alone c st.
Proof.
  destruct c as [properties|attributes|attribute old_value new_value
                |tag attribute value]; cbn [invoke raised_alone].
  - destruct (is_falsy properties) eqn:Hf.
    + by rewrite run_remove_style_properties_falsy.
    + apply is_falsy_false in Hf as (x & xs & ->).
      by rewrite run_remove_style_properties_until.
  - destruct (is_falsy attributes) eqn:Hf.
    + by rewrite run_remove_attributes_falsy.
    + apply is_falsy_false in Hf as (x & xs & ->).
      by rewrite run_remove_attributes.
  - by rewrite run_replace_attribute_value_until.
  - by rewrite run_add_attribute.
Qed.

Lemma replace_error_text (attribute class : string) (parts : list string)
    (e : Tag) :
  attrs e !! attribute = Some (Lst class parts) ->
  replace_error attribute e
  = MarkupModificationError "Error during attribute value replacement"
      (Some ("'" +:+ class +:+ "' object has no attribute 'replace'")).
Proof. intros H. unfold replace_error, value_at. by rewrite H. Qed.

Lemma find_no_nonempty_list (attribute : string) (l : list Tag) :
  List.find (nonempty_list_at attribute) l = None
  <-> no_nonempty_list attribute l.
Proof. apply find_none. Qed.

(** X1.  When a direct call raises.  [add_attribute] always returns.
    [remove_attributes] raises exactly when its list is [None] or empty, and
    then leaves the tree as it was.  [replace_attribute_value] raises exactly
    when a tag carries the attribute as a non-empty list (as bs4 stores
    [class]): the [AttributeError] of [current_value.replace] ends the loop
    at the first such tag, the tags before it are rewritten, the others are
    not, and the method wraps the exception.  [remove_style_properties]
    raises exactly when its list is [None] or empty (leaving the tree as it
    was) or a [style] value is a list. *)
Theorem direct_calls_raise_exactly (st : state) :
  (forall c, snd (run (invoke c) st) = raised_alone c st) /\
  (forall tag attribute value,
     snd (run (add_attribute tag attribute value) st) = None) /\
  (forall attributes,
     (snd (run (remove_attributes attributes) st) = None
      <-> is_falsy attributes = false) /\
     (is_falsy attributes = true ->
      run (remove_attributes attributes) st
      = (write_log (Entered (RemoveAttributes attributes)) st,
         Some (MarkupModificationError
                 "List of attributes is empty or None, removal not possible."
                 (Some "Passed an empty list of attributes"))))) /\
  (forall properties,
     (snd (run (remove_style_properties properties) st) = None
      <-> is_falsy properties = false /\ string_styles (soup st)) /\
     (is_falsy properties = true ->
      run (remove_style_properties properties) st
      = (write_log (Entered (RemoveStyleProperties properties)) st,
         Some (MarkupModificationError
                 "List of properties is empty or None, removal not possible."
                 (Some "Passed an empty list of properties"))))) /\
  (forall attribute old_value new_value,
     (snd (run (replace_attribute_value attribute old_value new_value) st) = None
      <-> no_nonempty_list attribute (soup st)) /\
     (forall good e rest class part parts,
        soup st = good ++ e :: rest ->
        no_nonempty_list attribute good ->
        attrs e !! attribute = Some (Lst class (part :: parts)) ->
        run (replace_attribute_value attribute old_value new_value) st
        = ({| soup := map (with_replaced attribute old_value new_value) good
                      ++ e :: rest;
              log := log st
                     ++ Entered (ReplaceAttributeValue attribute old_value
                                   new_value)
                        :: concat (map (updated_records attribute old_value
                                          new_value) good) |},
           Some (MarkupModificationError
                   "Error during attribute value replacement"
                   (Some ("'" +:+ class
                          +:+ "' object has no attribute 'replace'")))))).
Proof.
  split; [intros c; apply run_invoke_outcome|].
  split; [intros tag attribute value; by rewrite run_add_attribute|].
  split; [|split].
  - intros attributes. split.
    + rewrite (run_invoke_outcome (RemoveAttributes attributes)).
      cbn [raised_alone]. by destruct (is_falsy attributes).
    + intros Hf. by rewrite run_remove_attributes_falsy.
  - intros properties. split.
    + rewrite (run_invoke_outcome (RemoveStyleProperties properties)).
      cbn [raised_alone]. destruct (is_falsy properties).
      * split; [done|]. by intros [? _].
      * unfold string_styles. rewrite <- find_none.
        destruct (List.find (list_at "style") (soup st)); simpl.
        -- split; [done|]. by intros [_ ?].
        -- by split.
    + intros Hf. by rewrite run_remove_style_properties_falsy.
  - intros attribute old_value new_value. split.
    + rewrite (run_invoke_outcome
                 (ReplaceAttributeValue attribute old_value new_value)).
      cbn [raised_alone]. rewrite <- find_no_nonempty_list.
      by destruct (List.find (nonempty_list_at attribute) (soup st)).
    + intros good e rest class part parts Hsoup Hgood He.
      assert (Hbad : nonempty_list_at attribute e = true).
      { unfold nonempty_list_at. by rewrite He. }
      rewrite run_replace_attribute_value_until, Hsoup.
      destruct (until_bad_split (nonempty_list_at attribute)
                  (with_replaced attribute old_value new_value)
                  (updated_records attribute old_value new_value)
                  good rest e Hgood Hbad) as (-> & -> & ->).
      simpl. by rewrite (replace_error_text _ _ _ _ He).
Qed.

(** A call of [remove_attributes] with a non-empty list and a call of
    [add_attribute] return on every tree. *)
Definition always_returns (c : call) : Prop :=
  forall st, raised_alone c st = None.

Lemma apply_in_order_returns (calls : list call) (st : state) :
  Forall always_returns calls ->
  snd (apply_in_order calls st) = None.
Proof.
  intros Hall. revert st. induction Hall as [|c calls Hc _ IH]; intros st;
    cbn [apply_in_order]; [done|].
  pose proof (run_invoke_outcome c st) as Hout. rewrite Hc in Hout.
  destruct (run (invoke c) st) as [st1 r]. simpl in Hout. subst r. apply IH.
Qed.

Lemma add_calls_return (add : list AddRule.t) :
  Forall always_returns (map add_call add).
Proof.
  apply Forall_forall; intros c Hc.
  by apply list_elem_of_In, in_map_iff in Hc as (rule & <- & _).
Qed.

Lemma nonempty_list_at_with_replaced (a attribute old_value new_value : string)
    (e : Tag) :
  nonempty_list_at a (with_replaced attribute old_value new_value e)
  = nonempty_list_at a e.
Proof.
  unfold with_replaced, nonempty_list_at.
  destruct (attrs e !! attribute) as [[current|class parts]|] eqn:Hcur;
    [|done..].
  destruct (Py.is_empty current); [done|]. simpl.
  destruct (decide (attribute = a)) as [->|Hne].
  - by rewrite lookup_insert_eq, Hcur.
  - by rewrite lookup_insert_ne.
Qed.

Lemma no_nonempty_list_with_replaced (a attribute old_value new_value : string)
    (l : list Tag) :
  no_nonempty_list a (map (with_replaced attribute old_value new_value) l)
  <-> no_nonempty_list a l.
Proof.
  unfold no_nonempty_list. rewrite Forall_map.
  apply Forall_proper; [|done]. intros e. simpl.
  by rewrite nonempty_list_at_with_replaced.
Qed.

(** The replacements and the additions of a rule set, one after the other,
    return exactly when no replacement meets a non-empty list. *)
Lemma apply_in_order_replace_add (replace : list ReplaceRule.t)
    (add : list AddRule.t) (st : state) :
  snd (apply_in_order (map replace_call replace ++ map add_call add) st) = None
  <-> forall rule, rule ∈ replace ->
        no_nonempty_list (ReplaceRule.attribute rule) (soup st).
Proof.
  revert st. induction replace as [|rule replace IH]; intros st.
  - simpl. split; [by intros _ rule Hin%not_elem_of_nil|]. intros _.
    apply apply_in_order_returns, add_calls_return.
  - cbn [map app apply_in_order replace_call invoke].
    rewrite run_replace_attribute_value_until.
    destruct (List.find (nonempty_list_at (ReplaceRule.attribute rule)) (soup st))
      as [bad|] eqn:Hfind; cbn [fmap option_fmap option_map].
    + split; [done|]. intros Hall.
      assert (Hok : no_nonempty_list (ReplaceRule.attribute rule) (soup st))
        by (apply Hall; by left).
      apply find_no_nonempty_list in Hok. congruence.
    + apply find_no_nonempty_list in Hfind as Hok.
      rewrite IH. cbn [soup]. rewrite until_bad_none by done. split.
      * intros Hall rule' [->|Hin]%elem_of_cons; [done|].
        eapply no_nonempty_list_with_replaced. by apply Hall.
      * intros Hall rule' Hin.
        apply no_nonempty_list_with_replaced, Hall. by right.
Qed.

Lemma nonempty_list_at_without_attributes (a : string)
    (attributes : list string) (e : Tag) :
  nonempty_list_at a (without_attributes attributes e)
  = if decide (a ∈ attributes) then false else nonempty_list_at a e.
Proof.
  unfold nonempty_list_at. rewrite lookup_without_attributes.
  by destruct (decide (a ∈ attributes)).
Qed.

(** The attributes [apply_rules] and [apply_rules_async] hand to
    [remove_attributes] are gone when the replacements run. *)
Lemma no_nonempty_list_without_attributes (a : string)
    (attributes : list string) (l : list Tag) :
  no_nonempty_list a (map (without_attributes attributes) l)
  <-> (a ∉ attributes -> no_nonempty_list a l).
Proof.
  unfold no_nonempty_list. rewrite Forall_map. split.
  - intros Hall Hnot. eapply Forall_impl; [exact Hall|]. intros e. simpl.
    rewrite nonempty_list_at_without_attributes. by rewrite decide_False.
  - intros Hall. destruct (decide (a ∈ attributes)) as [Hin|Hnot].
    + apply Forall_forall. intros e _. simpl.
      rewrite nonempty_list_at_without_attributes. by rewrite decide_True.
    + eapply Forall_impl; [exact (Hall Hnot)|]. intros e. simpl.
      rewrite nonempty_list_at_without_attributes. by rewrite decide_False.
Qed.

(** X2.  When [apply_rules_async] raises, for a rule set whose entries carry
    all their keys.  It returns exactly when the [remove_attributes] key is
    missing or its first entry lists at least one attribute, and no tag
    carries as a non-empty list an attribute that a replace entry names and
    the removal does not delete.  What it raises is a
    [MarkupModificationError] that carries the text of the cause. *)
Theorem apply_rules_async_raises_iff (rules : Rules.t) (st : state) :
  (snd (run (apply_rules_async rules) st) = None <->
   match Rules.remove_attributes rules with
   | Some [] => False
   | Some (first :: _) => is_falsy (RemoveRule.attributes first) = false
   | None => True
   end /\
   forall rule, rule ∈ items (Rules.replace_attributes rules) ->
     ReplaceRule.attribute rule ∉ removal_list rules ->
     no_nonempty_list (ReplaceRule.attribute rule) (soup st)) /\
  (Rules.remove_attributes rules = Some [] ->
   snd (run (apply_rules_async rules) st)
   = Some (MarkupModificationError
             "Error during asynchronous rule application"
             (Some "list index out of range"))) /\
  (forall first others,
     Rules.remove_attributes rules = Some (first :: others) ->
     is_falsy (RemoveRule.attributes first) = true ->
     snd (run (apply_rules_async rules) st)
     = Some (MarkupModificationError
               "Error during asynchronous rule application"
               (Some "List of attributes is empty or None, removal not possible.: Passed an empty list of attributes"))) /\
  (forall e, snd (run (apply_rules_async rules) st) = Some e ->
     exists cause,
       e = MarkupModificationError
             "Error during asynchronous rule application" (Some (str cause))).
Proof.
  rewrite run_apply_rules_async_submitted. unfold submitted, removal_list.
  split; [|split; [|split]].
  - destruct (Rules.remove_attributes rules) as [[|first others]|]; cbn [snd].
    + split; [done|]. by intros [[] _].
    + cbn [app apply_in_order invoke].
      destruct (is_falsy (RemoveRule.attributes first)) eqn:Hf.
      * rewrite run_remove_attributes_falsy by done. cbn [snd fmap option_fmap
          option_map]. split; [done|]. by intros [? _].
      * apply is_falsy_false in Hf as (x & xs & Hattrs). rewrite Hattrs.
        rewrite run_remove_attributes by done.
        match goal with
        | |- context [apply_in_order _ ?s] =>
            pose proof (apply_in_order_replace_add
                          (items (Rules.replace_attributes rules))
                          (items (Rules.add_attributes rules)) s) as Hr
        end.
        cbn [soup] in Hr. destruct (snd (apply_in_order _ _)) as [cause|].
        -- split; [done|]. intros [_ Hall]. exfalso.
           assert (Some cause = None) as Heq; [|done].
           apply Hr. intros rule Hin.
           apply no_nonempty_list_without_attributes. by apply Hall.
        -- split; [|done]. intros _. split; [done|]. intros rule Hin Hnot.
           by apply (proj1 (no_nonempty_list_without_attributes _ _ _)
                       (proj1 Hr eq_refl rule Hin)).
    + cbn [app].
      pose proof (apply_in_order_replace_add
                    (items (Rules.replace_attributes rules))
                    (items (Rules.add_attributes rules)) st) as Hr.
      destruct (snd (apply_in_order _ _)) as [cause|].
      * split; [done|]. intros [_ Hall]. exfalso.
        assert (Some cause = None) as Heq; [|done].
        apply Hr. intros rule Hin. apply Hall; [done|].
        by intros ?%not_elem_of_nil.
      * split; [|done]. intros _. split; [done|]. intros rule Hin _.
        by apply Hr.
  - by intros ->.
  - intros first others -> Hf. cbn [app apply_in_order invoke].
    by rewrite run_remove_attributes_falsy.
  - intros e.
    destruct (Rules.remove_attributes rules) as [[|first others]|]; cbn [snd].
    + intros ?; simplify_eq. by eexists.
    + destruct (snd (apply_in_order _ st)) as [cause|]; simpl; [|done].
      intros ?; simplify_eq. by eexists.
    + destruct (snd (apply_in_order _ st)) as [cause|]; simpl; [|done].
      intros ?; simplify_eq. by eexists.
Qed.

(** *** What [remove_attributes] leaves alone *)

(** X3.  [remove_attributes] changes neither a tag's name nor an attribute that
    is not in its list, and the tree it leaves depends only on which names
    the list holds, not on their order or repetition. *)
Theorem remove_attributes_frame (attributes : list string) (st : state) :
  attributes <> [] ->
  (forall i e, soup st !! i = Some e ->
     exists e', soup (fst (run (remove_attributes (Some attributes)) st)) !! i
                = Some e' /\
       name e' = name e /\
       forall a, a ∉ attributes -> attrs e' !! a = attrs e !! a) /\
  (forall attributes',
     attributes' <> [] ->
     (forall a, a ∈ attributes <-> a ∈ attributes') ->
     soup (fst (run (remove_attributes (Some attributes')) st))
     = soup (fst (run (remove_attributes (Some attributes)) st))).
Proof.
  intros Hne. rewrite run_remove_attributes by done. cbn [fst soup]. split.
  - intros i e Hi. exists (without_attributes attributes e).
    split; [by rewrite list_lookup_fmap, Hi|].
    split; [apply name_without_attributes|].
    intros a Ha. rewrite lookup_without_attributes. by rewrite decide_False.
  - intros attributes' Hne' Hsame. rewrite run_remove_attributes by done.
    cbn [fst soup]. apply map_ext; intros e. apply Tag_eq.
    + by rewrite !name_without_attributes.
    + apply map_eq; intros a. rewrite !lookup_without_attributes.
      destruct (decide (a ∈ attributes')) as [H'|H'];
        destruct (decide (a ∈ attributes)) as [H|H]; try done;
        by apply Hsame in H' || apply Hsame in H.
Qed.

Lemma remove_attributes_frame_witness :
  ["width"; "alt"] <> [] /\
  soup (fst (run (remove_attributes (Some ["alt"; "width"; "alt"])) img_document))
  = soup (fst (run (remove_attributes (Some ["width"; "alt"])) img_document)).
Proof.
  split; [discriminate|].
  destruct (remove_attributes_frame ["width"; "alt"] img_document)
    as [_ Hsame]; [discriminate|].
  apply Hsame; [discriminate|].
  intros a. rewrite !elem_of_cons. rewrite !elem_of_nil. tauto.
Defined.

(** *** Tag names *)

(** No access of a program renames a tag. *)

Lemma names_alter (f : Tag -> Tag) (i : nat) (l : list Tag) :
  (forall e, name (f e) = name e) ->
  map name (alter f i l) = map name l.
Proof.
  intros Hf. revert i. induction l as [|e l IH]; intros [|i]; simpl;
    try done.
  - by rewrite Hf.
  - f_equal. apply IH.
Qed.

Lemma act_names (p p' : prog) (st st' : state) :
  act p st = Some (p', st') -> map name (soup st') = map name (soup st).
Proof.
  destruct p; simpl; intros Hact; simplify_eq; try done; by apply names_alter.
Qed.

Lemma pool_names (c c' : list prog * state) :
  rtc pool_step c c' -> map name (soup c'.2) = map name (soup c.2).
Proof.
  induction 1 as [c|c1 c2 c3 Hstep _ IH]; [done|].
  rewrite IH. inversion Hstep; subst; simpl. by eapply act_names.
Qed.

Lemma run_names (p : prog) (st : state) :
  map name (soup (fst (run p st))) = map name (soup st).
Proof.
  destruct (pool_run_worker p [] [] st) as (p' & _ & _ & Hsteps).
  apply (pool_names _ _ Hsteps).
Qed.

(** *** Values that are lists *)

(** No access of a program writes a list: a tree whose [style] values are
    strings keeps this property through every call, alone or in the pool. *)
Lemma act_string_styles (p p' : prog) (st st' : state) :
  act p st = Some (p', st') ->
  string_styles (soup st) -> string_styles (soup st').
Proof.
  unfold string_styles.
  destruct p as [|e|r k|k|j k|j b k|j b k|j b v k|j b k]; simpl;
    intros Hact Hall; simplify_eq; try done; simpl.
  - apply Forall_alter; [done|]. intros e _. unfold list_at; simpl.
    destruct (decide (b = "style")) as [->|Hne].
    + by rewrite lookup_insert_eq.
    + by rewrite lookup_insert_ne.
  - apply Forall_alter; [done|]. intros e _. unfold list_at; simpl.
    destruct (decide (b = "style")) as [->|Hne].
    + by rewrite lookup_delete_eq.
    + by rewrite lookup_delete_ne.
Qed.

Lemma pool_string_styles (c c' : list prog * state) :
  rtc pool_step c c' ->
  string_styles (soup c.2) -> string_styles (soup c'.2).
Proof.
  induction 1 as [c|c1 c2 c3 Hstep _ IH]; [done|]. intros Hall. apply IH.
  inversion Hstep; subst; simpl in *. by eapply act_string_styles.
Qed.

Lemma run_string_styles (p : prog) (st : state) :
  string_styles (soup st) -> string_styles (soup (fst (run p st))).
Proof.
  destruct (pool_run_worker p [] [] st) as (p' & _ & _ & Hsteps).
  apply (pool_string_styles _ _ Hsteps).
Qed.

(** *** Attributes that are not handed to [remove_attributes] *)

(** X5.  Only [remove_attributes] deletes, and only what it is given: an
    attribute that is not in the first entry of [remove_attributes] (or any
    attribute, when the key is missing) is still on every tag that carried
    it, after [apply_rules_async] and after [apply_rules] under every
    interleaving of the pool. *)
Theorem unlisted_attributes_survive (rules : Rules.t) (st : state)
    (a : string) (i : nat) :
  a ∉ removal_list rules ->
  present a i st ->
  present a i (fst (run (apply_rules_async rules) st)) /\
  (forall st' r, apply_rules rules st st' r -> present a i st').
Proof.
  intros Hnot Hp. split.
  - by apply present_apply_rules_async.
  - intros st' r Happly. by eapply present_apply_rules.
Qed.

(** Scenario C of the examples: remove [data-id], replace in [style], add
    [data-processed]. *)
Definition combined_rules : Rules.t :=
  {| Rules.remove_attributes := Some [remove_rule (Some ["data-id"])];
     Rules.replace_attributes :=
       Some [ {| ReplaceRule.attribute := "style";
                 ReplaceRule.old_value := "color: red;";
                 ReplaceRule.new_value := "color: blue;" |} ];
     Rules.add_attributes :=
       Some [ {| AddRule.tag := "div";
                 AddRule.attribute := "data-processed";
                 AddRule.value := "true" |} ] |}.

Lemma unlisted_attributes_survive_witness :
  ("class" ∉ removal_list combined_rules) /\
  present "class" 1 div_document /\
  present "class" 1 (fst (run (apply_rules_async combined_rules) div_document)).
Proof.
  assert (Hnot : "class" ∉ removal_list combined_rules).
  { vm_compute. intros H. apply elem_of_cons in H as [H|H]; [discriminate H|].
    by apply not_elem_of_nil in H. }
  assert (Hp : present "class" 1 div_document).
  { eexists. split; [reflexivity|]. vm_compute. reflexivity. }
  split; [exact Hnot|]. split; [exact Hp|].
  apply (unlisted_attributes_survive combined_rules div_document "class" 1 Hnot Hp).
Defined.

(** *** The pool and the order of the calls *)

Lemma finished_returned (p : prog) :
  finished p -> outcome p = None -> p = Done.
Proof. by destruct p. Qed.

(** The calls can run in the pool one after the other, in the order in
    which they were submitted. *)
Lemma pool_run_in_order (calls : list call) :
  forall (pre : list prog) (st : state),
    snd (apply_in_order calls st) = None ->
    rtc pool_step (pre ++ map invoke calls, st)
      (pre ++ map (fun _ => Done) calls, fst (apply_in_order calls st)).
Proof.
  induction calls as [|c calls IH]; intros pre st Hnone; cbn [map apply_in_order] in *.
  - apply rtc_refl.
  - destruct (pool_run_worker (invoke c) pre (map invoke calls) st)
      as (p' & Hfin & Hout & Hsteps).
    destruct (run (invoke c) st) as [st1 [e|]]; [done|]. cbn [fst snd] in *.
    apply finished_returned in Hfin as ->; [|done].
    etrans; [exact Hsteps|].
    specialize (IH (pre ++ [Done]) st1 Hnone).
    rewrite <- !app_assoc in IH. exact IH.
Qed.

(** X6.  Whatever [apply_rules_async] leaves when it returns, [apply_rules] can
    leave too: running the submitted calls one after the other is one of the
    interleavings of the pool. *)
Theorem async_result_is_a_pool_result (rules : Rules.t) (st : state) :
  snd (run (apply_rules_async rules) st) = None ->
  apply_rules rules st (fst (run (apply_rules_async rules) st)) None.
Proof.
  rewrite run_apply_rules_async_submitted.
  destruct (submitted rules) as [e|calls] eqn:Hsub; [done|]. cbn [fst snd].
  intros Hnone.
  assert (Hseq : snd (apply_in_order calls st) = None).
  { by destruct (snd (apply_in_order calls st)). }
  eapply apply_rules_returns; [exact Hsub| |].
  - apply (pool_run_in_order calls [] st Hseq).
  - apply Forall_forall. intros p Hp.
    by apply list_elem_of_In, in_map_iff in Hp as (c & <- & _).
Qed.

Lemma async_result_is_a_pool_result_witness :
  snd (run (apply_rules_async combined_rules) div_document) = None /\
  apply_rules combined_rules div_document
    (fst (run (apply_rules_async combined_rules) div_document)) None.
Proof.
  assert (H : snd (run (apply_rules_async combined_rules) div_document) = None).
  { vm_compute. reflexivity. }
  split; [exact H|].
  apply (async_result_is_a_pool_result combined_rules div_document H).
Defined.

(** Two calls can also run in the pool in the reverse order. *)
Lemma pool_run_reversed (c1 c2 : call) (st : state) :
  always_returns c1 -> always_returns c2 ->
  rtc pool_step ([invoke c1; invoke c2], st)
    ([Done; Done], fst (run (invoke c1) (fst (run (invoke c2) st)))).
Proof.
  intros H1 H2.
  destruct (pool_run_worker (invoke c2) [invoke c1] [] st)
    as (p2 & Hfin2 & Hout2 & Hsteps2).
  pose proof (run_invoke_outcome c2 st) as Hr2. rewrite H2 in Hr2.
  rewrite Hr2 in Hout2. apply finished_returned in Hfin2 as ->; [|done].
  destruct (pool_run_worker (invoke c1) [] [Done] (fst (run (invoke c2) st)))
    as (p1 & Hfin1 & Hout1 & Hsteps1).
  pose proof (run_invoke_outcome c1 (fst (run (invoke c2) st))) as Hr1.
  rewrite H1 in Hr1. rewrite Hr1 in Hout1.
  apply finished_returned in Hfin1 as ->; [|done].
  etrans; [exact Hsteps2|exact Hsteps1].
Qed.

(** A rule set that removes an attribute and adds the same attribute. *)
Definition remove_and_add (a tag v : string) : Rules.t :=
  {| Rules.remove_attributes := Some [remove_rule (Some [a])];
     Rules.replace_attributes := None;
     Rules.add_attributes :=
       Some [ {| AddRule.tag := tag; AddRule.attribute := a;
                 AddRule.value := v |} ] |}.

(** X7.  [apply_rules] is not deterministic when two categories touch the same
    attribute: with a removal of [a] and an addition of [a] to the tags named
    [tag], a tag with that name can end with [a] (removal first) and can end
    without it (addition first); both times [apply_rules] returns. *)
Theorem overlapping_categories_race (a tag v : string) (st : state) (i : nat)
    (e : Tag) :
  soup st !! i = Some e ->
  name e = Py.lower tag ->
  exists st1 st2,
    apply_rules (remove_and_add a tag v) st st1 None /\
    apply_rules (remove_and_add a tag v) st st2 None /\
    present a i st1 /\ ~ present a i st2.
Proof.
  intros Hi Hname.
  assert (Hsel : tag_selected tag e = true).
  { unfold tag_selected. rewrite Hname. apply String.eqb_refl. }
  pose (c1 := RemoveAttributes (Some [a])). pose (c2 := AddAttribute tag a v).
  assert (Hsub : submitted (remove_and_add a tag v) = inr [c1; c2]) by done.
  exists (fst (apply_in_order [c1; c2] st)),
    (fst (run (invoke c1) (fst (run (invoke c2) st)))).
  split; [|split; [|split]].
  - apply (apply_rules_returns _ _ [c1; c2] [Done; Done] _ Hsub);
      [|by repeat constructor].
    apply (pool_run_in_order [c1; c2] [] st).
    apply apply_in_order_returns. by repeat constructor.
  - apply (apply_rules_returns _ _ [c1; c2] [Done; Done] _ Hsub);
      [|by repeat constructor].
    by apply pool_run_reversed.
  - cbn [apply_in_order c1 c2 invoke].
    rewrite run_remove_attributes by done. rewrite run_add_attribute.
    cbn [fst soup]. exists (set_attr a v (without_attributes [a] e)). split.
    + simpl. rewrite map_map, list_lookup_fmap, Hi. simpl.
      unfold tag_selected in *. simpl. by rewrite Hsel.
    + apply has_attr_true. exists (Str v). apply lookup_insert_eq.
  - cbn [c1 c2 invoke]. rewrite run_add_attribute.
    rewrite run_remove_attributes by done. cbn [fst soup].
    intros (e' & He' & Ha). simpl in He'.
    rewrite map_map, list_lookup_fmap, Hi in He'.
    simpl in He'. simplify_eq.
    apply has_attr_true in Ha as [w Hw]. simpl in Hw.
    by rewrite lookup_delete_eq in Hw.
Qed.

Lemma overlapping_categories_race_witness :
  soup div_document !! 1
  = Some (with_list "class" ["header"]
            (tag_of "div" [("style", "color: red;"); ("data-id", "123")])) /\
  exists st1 st2,
    apply_rules (remove_and_add "data-id" "DIV" "7") div_document st1 None /\
    apply_rules (remove_and_add "data-id" "DIV" "7") div_document st2 None /\
    present "data-id" 1 st1 /\ ~ present "data-id" 1 st2.
Proof.
  split; [reflexivity|].
  apply (overlapping_categories_race "data-id" "DIV" "7" div_document 1
           (with_list "class" ["header"]
              (tag_of "div" [("style", "color: red;"); ("data-id", "123")])));
    reflexivity.
Defined.

Lemma pool_step_then (workers : list prog) (st : state) (i : nat)
    (p p' : prog) (st' : state) (c : list prog * state) :
  workers !! i = Some p ->
  act p st = Some (p', st') ->
  rtc pool_step (<[i := p']> workers, st') c ->
  rtc pool_step (workers, st) c.
Proof. intros Hi Hact Hrest. eapply rtc_l; [|exact Hrest]. by econstructor. Qed.

(** A rule set that removes an attribute and replaces inside the same
    attribute. *)
Definition remove_and_replace (a old_value new_value : string) : Rules.t :=
  {| Rules.remove_attributes := Some [remove_rule (Some [a])];
     Rules.replace_attributes :=
       Some [ {| ReplaceRule.attribute := a;
                 ReplaceRule.old_value := old_value;
                 ReplaceRule.new_value := new_value |} ];
     Rules.add_attributes := None |}.

(** X8.  [apply_rules] can raise on a rule set on which [apply_rules_async]
    returns.  When one call removes an attribute and another replaces inside
    it, the removal can fall between the write of [replace_attribute_value]
    and the [elem[attribute]] it reads back for its log line; the [KeyError]
    is wrapped twice and surfaces from [apply_rules]. *)
Theorem remove_replace_race_can_raise :
  exists (rules : Rules.t) (st st' : state),
    rules = remove_and_replace "style" "red" "blue" /\
    st = div_document /\
    snd (run (apply_rules_async rules) st) = None /\
    apply_rules rules st st'
      (Some (MarkupModificationError "Error during rule application"
               (Some "Error during attribute value replacement: 'style'"))).
Proof.
  exists (remove_and_replace "style" "red" "blue"), div_document.
  eexists. split; [reflexivity|]. split; [reflexivity|].
  split; [by vm_compute|].
  change (Some (MarkupModificationError "Error during rule application"
                  (Some "Error during attribute value replacement: 'style'")))
    with (Some (wrap_rule_application
                  (MarkupModificationError
                     "Error during attribute value replacement"
                     (Some (str (KeyError "style")))))).
  eapply (apply_rules_raises _ _ _ _ _ 1); [reflexivity| | |].
  - (* the replacement runs up to and including its write *)
    do 6 (eapply (pool_step_then _ _ 1); [reflexivity|reflexivity|]).
    (* the removal runs to its end *)
    do 7 (eapply (pool_step_then _ _ 0); [reflexivity|reflexivity|]).
    (* the replacement reads the attribute back *)
    eapply (pool_step_then _ _ 1); [reflexivity|reflexivity|].
    apply rtc_refl.
  - repeat constructor.
  - reflexivity.
Qed.

(** *** Calls that touch different attributes *)

(** [touches S p]: every attribute [p] reads or writes is in [S]. *)
Fixpoint touches (S : string -> Prop) (p : prog) : Prop :=
  match p with
  | Done | Raise _ => True
  | Log _ k => touches S k
  | FindAll k => forall l, touches S (k l)
  | GetName _ k => forall n, touches S (k n)
  | HasAttr _ a k => S a /\ forall b, touches S (k b)
  | GetAttr _ a k => S a /\ forall v, touches S (k v)
  | SetItem _ a _ k => S a /\ touches S k
  | DelItem _ a k => S a /\ touches S k
  end.

Definition attr_at (st : state) (i : nat) (a : string) : option value :=
  attrs (tag_at st i) !! a.

(** [agree S st1 st2]: the two trees have the same tag names and the same
    values for the attributes in [S]. *)
Definition agree (S : string -> Prop) (st1 st2 : state) : Prop :=
  map name (soup st1) = map name (soup st2) /\
  forall i a, S a -> attr_at st1 i a = attr_at st2 i a.

Lemma agree_refl (S : string -> Prop) (st : state) : agree S st st.
Proof. by split. Qed.

Lemma agree_trans (S : string -> Prop) (st1 st2 st3 : state) :
  agree S st1 st2 -> agree S st2 st3 -> agree S st1 st3.
Proof.
  intros [Hn1 Ha1] [Hn2 Ha2]. split; [congruence|].
  intros i a Ha. by rewrite Ha1, Ha2.
Qed.

Lemma agree_weaken (S T : string -> Prop) (st1 st2 : state) :
  (forall a, T a -> S a) -> agree S st1 st2 -> agree T st1 st2.
Proof. intros Hsub [Hn Ha]. split; [done|]. intros i a HT. by apply Ha, Hsub. Qed.

Lemma agree_length (S : string -> Prop) (st1 st2 : state) :
  agree S st1 st2 -> length (soup st1) = length (soup st2).
Proof.
  intros [Hn _]. apply (f_equal length) in Hn. by rewrite !length_map in Hn.
Qed.

Lemma agree_name (S : string -> Prop) (st1 st2 : state) (i : nat) :
  agree S st1 st2 -> name (tag_at st1 i) = name (tag_at st2 i).
Proof.
  intros [Hn _]. unfold tag_at.
  assert (H : map name (soup st1) !! i = map name (soup st2) !! i)
    by (by rewrite Hn).
  rewrite !list_lookup_fmap in H.
  destruct (soup st1 !! i), (soup st2 !! i); simpl in *; by simplify_eq.
Qed.

Lemma attr_at_set (a v : string) (i j : nat) (b : string) (st : state) :
  attr_at (with_soup (alter (set_attr a v) i) st) j b
  = if decide (i = j /\ i < length (soup st) /\ a = b) then Some (Str v)
    else attr_at st j b.
Proof.
  unfold attr_at, tag_at; simpl. rewrite list_lookup_alter.
  destruct (decide (i = j)) as [->|Hne].
  - destruct (soup st !! j) as [e|] eqn:He; simpl.
    + apply lookup_lt_Some in He as Hlt. rewrite lookup_insert.
      destruct (decide (a = b)) as [->|Hab].
      * by rewrite decide_True.
      * rewrite decide_False; [done|]. by intros (_ & _ & ?).
    + apply lookup_ge_None in He. rewrite decide_False; [done|].
      intros (_ & ? & _). lia.
  - rewrite decide_False; [done|]. by intros (? & _ & _).
Qed.

Lemma attr_at_del (a : string) (i j : nat) (b : string) (st : state) :
  attr_at (with_soup (alter (del_attr a) i) st) j b
  = if decide (i = j /\ a = b) then None else attr_at st j b.
Proof.
  unfold attr_at, tag_at; simpl. rewrite list_lookup_alter.
  destruct (decide (i = j)) as [->|Hne].
  - destruct (soup st !! j) as [e|] eqn:He; simpl.
    + rewrite lookup_delete. destruct (decide (a = b)) as [->|Hab].
      * by rewrite decide_True.
      * rewrite decide_False; [done|]. by intros (_ & ?).
    + rewrite lookup_empty. by destruct (decide _).
  - rewrite decide_False; [done|]. by intros (? & _).
Qed.

Lemma has_attr_attr_at (a : string) (st : state) (i : nat) :
  has_attr a (tag_at st i) = bool_decide (is_Some (attr_at st i a)).
Proof. done. Qed.

(** A program that touches [S] takes the same step from two states that
    agree on [S], and the states still agree afterwards. *)
Lemma touches_act_agree (S : string -> Prop) (p p' : prog)
    (st1 st1' st2 : state) :
  touches S p -> agree S st1 st2 ->
  act p st1 = Some (p', st1') ->
  exists st2', act p st2 = Some (p', st2') /\ agree S st1' st2' /\
               touches S p'.
Proof.
  intros Ht Hag Hact.
  destruct p as [|e|r k|k|j k|j b k|j b k|j b v k|j b k]; simpl in *;
    simplify_eq.
  - eexists. split; [done|]. split; [|done]. destruct Hag. by split.
  - eexists. rewrite (agree_length _ _ _ Hag). by split.
  - eexists. rewrite (agree_name _ _ _ j Hag). by split.
  - destruct Ht as [HS Ht]. eexists.
    rewrite !has_attr_attr_at, (proj2 Hag j b HS). by split.
  - destruct Ht as [HS Ht]. eexists.
    pose proof (proj2 Hag j b HS) as Heq. unfold attr_at in Heq.
    rewrite Heq. by split.
  - destruct Ht as [HS Ht]. eexists. split; [done|]. split; [|done]. split.
    + simpl. rewrite !names_alter by done. apply Hag.
    + intros i a Ha. rewrite !attr_at_set, (agree_length _ _ _ Hag).
      destruct (decide _); [done|]. by apply Hag.
  - destruct Ht as [HS Ht]. eexists. split; [done|]. split; [|done]. split.
    + simpl. rewrite !names_alter by done. apply Hag.
    + intros i a Ha. rewrite !attr_at_del.
      destruct (decide _); [done|]. by apply Hag.
Qed.

(** A step of a program that touches [S] changes nothing outside [S]. *)
Lemma touches_act_frame (S T : string -> Prop) (p p' : prog) (st st' : state) :
  touches S p -> (forall a, S a -> ~ T a) ->
  act p st = Some (p', st') ->
  agree T st' st.
Proof.
  intros Ht Hdis Hact.
  destruct p as [|e|r k|k|j k|j b k|j b k|j b v k|j b k]; simpl in *;
    simplify_eq; try apply agree_refl.
  - by split.
  - destruct Ht as [HS Ht]. split; [by apply names_alter|].
    intros i a Ha. rewrite attr_at_set. rewrite decide_False; [done|].
    intros (_ & _ & ->). by apply (Hdis a).
  - destruct Ht as [HS Ht]. split; [by apply names_alter|].
    intros i a Ha. rewrite attr_at_del. rewrite decide_False; [done|].
    intros (_ & ->). by apply (Hdis a).
Qed.

Lemma touches_andthen (S : string -> Prop) (p q : prog) :
  touches S p -> touches S q -> touches S (andthen p q).
Proof.
  induction p; simpl; intros Hp Hq; try done; eauto;
    destruct Hp; split; eauto.
Qed.

Lemma touches_try_except (S : string -> Prop) (p : prog) (h : exn -> prog) :
  touches S p -> (forall e, touches S (h e)) -> touches S (try_except p h).
Proof.
  induction p; simpl; intros Hp Hq; try done; eauto;
    destruct Hp; split; eauto.
Qed.

Lemma touches_for_each {A : Type} (S : string -> Prop) (l : list A)
    (body : A -> prog) :
  (forall x, x ∈ l -> touches S (body x)) -> touches S (for_each l body).
Proof.
  induction l as [|x l IH]; simpl; intros H; [done|].
  apply touches_andthen; [apply H; left|apply IH; intros y Hy; apply H; by right].
Qed.

Lemma touches_select (S : string -> Prop)
    (test : nat -> (bool -> prog) -> prog) (elems : list nat)
    (k : list nat -> prog) :
  (forall i kb, (forall b, touches S (kb b)) -> touches S (test i kb)) ->
  (forall l, touches S (k l)) ->
  touches S (select test elems k).
Proof.
  intros Htest. revert k. induction elems as [|i elems IH]; intros k Hk; simpl.
  - apply Hk.
  - apply Htest; intros b. apply IH; intros l. apply Hk.
Qed.

(** The attributes a call reads or writes. *)
Definition attributes_of (c : call) : list string :=
  match c with
  | RemoveStyleProperties _ => ["style"]
  | RemoveAttributes attributes => items attributes
  | ReplaceAttributeValue attribute _ _ => [attribute]
  | AddAttribute _ attribute _ => [attribute]
  end.

Definition footprint (c : call) (a : string) : Prop := a ∈ attributes_of c.

Lemma touches_invoke (c : call) : touches (footprint c) (invoke c).
Proof.
  destruct c as [properties|attributes|attribute old_value new_value
                |tag attribute value]; unfold footprint; cbn [invoke attributes_of].
  - unfold remove_style_properties, logging_debug. cbn [andthen touches].
    destruct (is_falsy properties); [done|].
    apply touches_try_except; [|done]. intros elems.
    apply touches_for_each; intros elem _. split; [by left|].
    intros [|]; [|done]. split; [by left|]. intros [[v|class parts]|]; [|done..].
    destruct (Py.is_empty _); simpl; (split; [by left|done]).
  - unfold remove_attributes, logging_debug. cbn [andthen touches].
    destruct (is_falsy attributes); [done|].
    apply touches_try_except; [|done]. intros elems.
    apply touches_for_each; intros elem _.
    apply touches_for_each; intros attr Hin. split; [done|].
    intros [|]; simpl; [|done]. by split.
  - unfold replace_attribute_value, logging_debug, find_all_attrs.
    cbn [andthen touches]. intros elems.
    apply touches_select.
    { intros i kb Hkb. split; [by left|done]. }
    intros found. apply touches_try_except; [|done].
    apply touches_for_each; intros elem _. split; [by left|].
    intros [[current|class parts]|]; [| |done].
    + cbn [is_falsy_value]. destruct (Py.is_empty current); [done|]. cbv zeta.
      destruct (String.eqb _ _); [done|]. simpl.
      split; [by left|]. split; [by left|]. by intros [v|].
    + by destruct parts.
  - unfold add_attribute, logging_debug, find_all_name.
    cbn [andthen touches]. apply touches_try_except; [|done]. intros elems.
    apply touches_select; [by intros i kb Hkb; simpl|]. intros found.
    apply touches_for_each; intros elem _. simpl. split; [by left|done].
Qed.

(** In the pool every worker keeps to its footprint, and what lies in no
    footprint stays as it was. *)
Lemma pool_touches (foot : nat -> string -> Prop) (c c' : list prog * state) :
  rtc pool_step c c' ->
  (forall k q, c.1 !! k = Some q -> touches (foot k) q) ->
  (forall k q, c'.1 !! k = Some q -> touches (foot k) q) /\
  agree (fun a => forall k, ~ foot k a) c'.2 c.2.
Proof.
  induction 1 as [c|c1 c2 c3 Hstep _ IH]; intros Hall.
  - split; [done|apply agree_refl].
  - inversion Hstep as [ws st i p p' st' Hi Hact]; subst; simpl in *.
    destruct (touches_act_agree (foot i) p p' st st' st (Hall i p Hi)
                (agree_refl _ _) Hact) as (_ & _ & _ & Hp').
    destruct IH as [Hall' Hag'].
    { intros k q Hk. destruct (decide (i = k)) as [->|Hne].
      - rewrite list_lookup_insert_eq in Hk by (by eapply lookup_lt_Some).
        by simplify_eq.
      - rewrite list_lookup_insert_ne in Hk by done. by apply Hall. }
    split; [done|]. eapply agree_trans; [exact Hag'|].
    apply (touches_act_frame (foot i) _ p p' st st' (Hall i p Hi)); [|done].
    intros a Ha Hno. by apply (Hno i).
Qed.

(** A worker whose footprint no other worker shares goes through the pool
    as it would alone: same steps, same values for its attributes. *)
Lemma pool_worker_alone (foot : nat -> string -> Prop)
    (c c' : list prog * state) :
  rtc pool_step c c' ->
  forall (j : nat) (p : prog) (solo : state),
    (forall k q, c.1 !! k = Some q -> touches (foot k) q) ->
    (forall k l a, k <> l -> foot k a -> ~ foot l a) ->
    c.1 !! j = Some p ->
    agree (foot j) c.2 solo ->
    exists p' solo',
      c'.1 !! j = Some p' /\
      rtc pool_step ([p], solo) ([p'], solo') /\
      agree (foot j) c'.2 solo'.
Proof.
  induction 1 as [c|c1 c2 c3 Hstep Hsteps IH]; intros j p solo Hall Hdis Hj Hag.
  - exists p, solo. split; [done|]. split; [apply rtc_refl|done].
  - inversion Hstep as [ws st i q q' st' Hi Hact]; subst; simpl in *.
    assert (Hall' : forall k q0, <[i:=q']> ws !! k = Some q0 ->
                                 touches (foot k) q0).
    { apply (pool_touches foot (ws, st) (<[i:=q']> ws, st')); [|done].
      by apply rtc_once. }
    destruct (decide (i = j)) as [->|Hne].
    + simplify_eq.
      destruct (touches_act_agree (foot j) p q' st st' solo (Hall j p Hj)
                  Hag Hact) as (solo1 & Hact1 & Hag1 & _).
      destruct (IH j q' solo1 Hall' Hdis) as (p' & solo' & Hp' & Hrest & Hag');
        [|done|].
      { simpl. apply list_lookup_insert_eq. by eapply lookup_lt_Some. }
      exists p', solo'. split; [done|]. split; [|done].
      eapply rtc_l; [|exact Hrest].
      by apply (pool_step_worker [p] solo 0 p q' solo1).
    + destruct (IH j p solo Hall' Hdis) as (p' & solo' & Hp' & Hrest & Hag').
      * simpl. by rewrite list_lookup_insert_ne.
      * eapply agree_trans; [|exact Hag].
        apply (touches_act_frame (foot i) _ q q' st st' (Hall i q Hi)); [|done].
        intros a Ha. by apply (Hdis i j a).
      * by exists p', solo'.
Qed.

(** No two lists of [ls] share a string. *)
Fixpoint pairwise_disjointb (ls : list (list string)) : bool :=
  match ls with
  | [] => true
  | l :: rest =>
      forallb (fun l' => forallb (fun a => negb (existsb (String.eqb a) l')) l)
        rest
      && pairwise_disjointb rest
  end.

Lemma pairwise_disjointb_lt (ls : list (list string)) :
  pairwise_disjointb ls = true ->
  forall k l l1 l2 a,
    k < l -> ls !! k = Some l1 -> ls !! l = Some l2 ->
    a ∈ l1 -> a ∈ l2 -> False.
Proof.
  induction ls as [|l0 rest IH]; intros Hdis k l l1 l2 a Hlt Hk Hl H1 H2.
  - by rewrite lookup_nil in Hk.
  - cbn [pairwise_disjointb] in Hdis. apply andb_true_iff in Hdis as [Hhead Hrest].
    destruct l as [|l]; [lia|]. destruct k as [|k]; simpl in Hk, Hl.
    + simplify_eq. rewrite forallb_forall in Hhead.
      assert (Hin : In l2 rest).
      { apply list_elem_of_In, list_elem_of_lookup. by exists l. }
      specialize (Hhead l2 Hin). rewrite forallb_forall in Hhead.
      apply list_elem_of_In in H1. specialize (Hhead a H1).
      apply negb_true_iff, not_true_iff_false in Hhead. apply Hhead.
      apply existsb_exists. exists a. split; [by apply list_elem_of_In|].
      apply String.eqb_refl.
    + apply (IH Hrest k l l1 l2 a); [lia|done..].
Qed.

Lemma pairwise_disjointb_spec (ls : list (list string)) :
  pairwise_disjointb ls = true ->
  forall k l l1 l2 a,
    k <> l -> ls !! k = Some l1 -> ls !! l = Some l2 ->
    a ∈ l1 -> a ∉ l2.
Proof.
  intros Hdis k l l1 l2 a Hne Hk Hl H1 H2.
  destruct (decide (k < l)).
  - by apply (pairwise_disjointb_lt ls Hdis k l l1 l2 a).
  - apply (pairwise_disjointb_lt ls Hdis l k l2 l1 a); [lia|done..].
Qed.

(** The footprint of the worker at each position of the pool. *)
Definition footprint_at (calls : list call) (k : nat) (a : string) : Prop :=
  match calls !! k with
  | Some c => footprint c a
  | None => False
  end.

Lemma footprint_at_touches (calls : list call) (k : nat) (q : prog) :
  map invoke calls !! k = Some q -> touches (footprint_at calls k) q.
Proof.
  rewrite list_lookup_fmap. unfold footprint_at.
  destruct (calls !! k) as [c|]; simpl; intros H; simplify_eq.
  apply touches_invoke.
Qed.

Lemma footprint_at_disjoint (calls : list call) :
  pairwise_disjointb (map attributes_of calls) = true ->
  forall k l a, k <> l -> footprint_at calls k a -> ~ footprint_at calls l a.
Proof.
  intros Hdis k l a Hne. unfold footprint_at, footprint.
  destruct (calls !! k) as [c1|] eqn:Hk; [|done].
  destruct (calls !! l) as [c2|] eqn:Hl; [|by intros _ ?].
  apply (pairwise_disjointb_spec _ Hdis k l); [done|..];
    rewrite list_lookup_fmap; by rewrite ?Hk, ?Hl.
Qed.

(** When the submitted calls touch different attributes, each call leaves
    its attributes as it would alone, and ends as it would alone. *)
Lemma pool_call_alone (calls : list call) (st : state) (workers : list prog)
    (st' : state) (j : nat) (c : call) :
  pairwise_disjointb (map attributes_of calls) = true ->
  rtc pool_step (map invoke calls, st) (workers, st') ->
  Forall finished workers ->
  calls !! j = Some c ->
  (exists p', workers !! j = Some p' /\ finished p' /\
     outcome p' = snd (run (invoke c) st)) /\
  agree (footprint c) st' (fst (run (invoke c) st)).
Proof.
  intros Hdis Hsteps Hfin Hj.
  destruct (pool_worker_alone (footprint_at calls) _ _ Hsteps j (invoke c) st)
    as (p' & solo' & Hp' & Hsolo & Hag); simpl.
  - apply footprint_at_touches.
  - by apply footprint_at_disjoint.
  - by rewrite list_lookup_fmap, Hj.
  - apply agree_refl.
  - simpl in Hp', Hag.
    assert (Hf : finished p') by (by eapply Forall_lookup_1).
    destruct (pool_alone _ _ _ _ Hsolo) as (p'' & Heq & _ & Hrun);
      [by constructor|]. simplify_eq. rewrite Hrun. split.
    + by exists p''.
    + eapply agree_weaken; [|exact Hag].
      intros a Ha. unfold footprint_at. by rewrite Hj.
Qed.

Lemma agree_all_soup (st1 st2 : state) :
  agree (fun _ => True) st1 st2 -> soup st1 = soup st2.
Proof.
  intros Hag. pose proof (agree_length _ _ _ Hag) as Hlen.
  destruct Hag as [Hn Ha]. apply list_eq; intros i.
  specialize (Ha i). unfold attr_at, tag_at in Ha.
  assert (Hni : map name (soup st1) !! i = map name (soup st2) !! i)
    by (by rewrite Hn).
  rewrite !list_lookup_fmap in Hni.
  destruct (soup st1 !! i) as [e1|] eqn:H1, (soup st2 !! i) as [e2|] eqn:H2;
    simpl in *; simplify_eq; [|done].
  f_equal. apply Tag_eq; [done|]. apply map_eq; intros a. by apply Ha.
Qed.

(** With calls that touch different attributes, the tree the pool leaves
    does not depend on the interleaving. *)
Lemma pool_disjoint_deterministic (calls : list call) (st : state)
    (workers1 workers2 : list prog) (st1 st2 : state) :
  pairwise_disjointb (map attributes_of calls) = true ->
  rtc pool_step (map invoke calls, st) (workers1, st1) ->
  Forall finished workers1 ->
  rtc pool_step (map invoke calls, st) (workers2, st2) ->
  Forall finished workers2 ->
  soup st1 = soup st2.
Proof.
  intros Hdis Hs1 Hf1 Hs2 Hf2. apply agree_all_soup. split.
  - pose proof (pool_names _ _ Hs1) as H1. pose proof (pool_names _ _ Hs2) as H2.
    simpl in H1, H2. congruence.
  - intros i a _.
    destruct (decide (Exists (fun c => a ∈ attributes_of c) calls)) as [Hex|Hno].
    + apply Exists_exists in Hex as (c & Hc & Ha).
      apply list_elem_of_lookup in Hc as [j Hj].
      destruct (pool_call_alone calls st workers1 st1 j c Hdis Hs1 Hf1 Hj)
        as [_ [_ H1]].
      destruct (pool_call_alone calls st workers2 st2 j c Hdis Hs2 Hf2 Hj)
        as [_ [_ H2]].
      by rewrite (H1 i a Ha), (H2 i a Ha).
    + assert (Hout : forall k, ~ footprint_at calls k a).
      { intros k. unfold footprint_at, footprint.
        destruct (calls !! k) as [c|] eqn:Hk; [|by intros []]. intros Ha.
        apply Hno, Exists_exists. exists c. split; [|done].
        apply list_elem_of_lookup. by exists k. }
      destruct (pool_touches (footprint_at calls) _ _ Hs1) as [_ [_ H1]];
        [apply footprint_at_touches|].
      destruct (pool_touches (footprint_at calls) _ _ Hs2) as [_ [_ H2]];
        [apply footprint_at_touches|].
      simpl in H1, H2. by rewrite (H1 i a Hout), (H2 i a Hout).
Qed.

Lemma pool_length (c c' : list prog * state) :
  rtc pool_step c c' -> length c'.1 = length c.1.
Proof.
  induction 1 as [c|c1 c2 c3 Hstep _ IH]; [done|].
  rewrite IH. inversion Hstep; subst; simpl. apply length_insert.
Qed.

(** What [apply_rules] does once the calls are submitted: the pool runs
    until every worker has finished, and [apply_rules] returns when no
    worker has raised. *)
Lemma apply_rules_submitted (rules : Rules.t) (calls : list call)
    (st st' : state) (r : option exn) :
  submitted rules = inr calls ->
  apply_rules rules st st' r ->
  exists workers,
    rtc pool_step (map invoke calls, st) (workers, st') /\
    Forall finished workers /\
    (r = None <-> Forall (fun p => outcome p = None) workers).
Proof.
  intros Hsub Happly.
  destruct Happly as [e He|calls' workers st' Hc Hsteps Hall
                     |calls' workers st' i e Hc Hsteps Hfin Hi].
  - congruence.
  - rewrite Hsub in Hc; simplify_eq. exists workers. split; [done|]. split.
    + eapply Forall_impl; [exact Hall|]. by intros ? ->.
    + split; [|done]. intros _. eapply Forall_impl; [exact Hall|].
      by intros ? ->.
  - rewrite Hsub in Hc; simplify_eq. exists workers. split; [done|].
    split; [done|]. split; [done|]. intros Hall.
    by pose proof (Forall_lookup_1 _ _ _ _ Hall Hi).
Qed.

(** With calls that touch different attributes, a worker raises in the pool
    exactly when its call raises alone on the initial tree. *)
Lemma pool_disjoint_outcomes (calls : list call) (st : state)
    (workers : list prog) (st' : state) :
  pairwise_disjointb (map attributes_of calls) = true ->
  rtc pool_step (map invoke calls, st) (workers, st') ->
  Forall finished workers ->
  Forall (fun p => outcome p = None) workers
  <-> Forall (fun c => snd (run (invoke c) st) = None) calls.
Proof.
  intros Hdis Hsteps Hfin. rewrite !Forall_lookup. split.
  - intros Hall j c Hj.
    destruct (pool_call_alone calls st workers st' j c Hdis Hsteps Hfin Hj)
      as [(p' & Hp' & _ & Hout) _].
    rewrite <- Hout. by apply (Hall j).
  - intros Hall i p Hi.
    assert (Hlt : i < length calls).
    { apply pool_length in Hsteps. simpl in Hsteps.
      rewrite length_map in Hsteps. rewrite <- Hsteps.
      by eapply lookup_lt_Some. }
    apply lookup_lt_is_Some in Hlt as [c Hci].
    destruct (pool_call_alone calls st workers st' i c Hdis Hsteps Hfin Hci)
      as [(p' & Hp' & _ & Hout) _].
    rewrite Hi in Hp'. simplify_eq. rewrite Hout. by apply (Hall i).
Qed.

(** X9.  When the calls [apply_rules] submits touch pairwise different
    attributes, the interleaving of the pool does not matter: the tree
    [apply_rules] leaves is the same under every interleaving, and
    [apply_rules] returns exactly when every submitted call returns when it
    is called alone on the initial tree.  If moreover [apply_rules_async]
    returns, then [apply_rules] returns under every interleaving and leaves
    the tree [apply_rules_async] leaves. *)
Theorem disjoint_rules_pool_agrees_with_async (rules : Rules.t)
    (calls : list call) (st : state) :
  submitted rules = inr calls ->
  pairwise_disjointb (map attributes_of calls) = true ->
  (forall st1 r1 st2 r2,
     apply_rules rules st st1 r1 -> apply_rules rules st st2 r2 ->
     soup st1 = soup st2) /\
  (forall st' r, apply_rules rules st st' r ->
     (r = None <-> Forall (fun c => snd (run (invoke c) st) = None) calls)) /\
  (snd (run (apply_rules_async rules) st) = None ->
   forall st' r, apply_rules rules st st' r ->
     r = None /\ soup st' = soup (fst (run (apply_rules_async rules) st))).
Proof.
  intros Hsub Hdis.
  assert (Hsame : forall st1 r1 st2 r2,
            apply_rules rules st st1 r1 -> apply_rules rules st st2 r2 ->
            soup st1 = soup st2).
  { intros st1 r1 st2 r2 H1 H2.
    destruct (apply_rules_submitted _ _ _ _ _ Hsub H1) as (w1 & Hs1 & Hf1 & _).
    destruct (apply_rules_submitted _ _ _ _ _ Hsub H2) as (w2 & Hs2 & Hf2 & _).
    by apply (pool_disjoint_deterministic calls st w1 w2). }
  assert (Hret : forall st' r, apply_rules rules st st' r ->
            (r = None
             <-> Forall (fun c => snd (run (invoke c) st) = None) calls)).
  { intros st' r Happly.
    destruct (apply_rules_submitted _ _ _ _ _ Hsub Happly)
      as (workers & Hsteps & Hfin & ->).
    by apply (pool_disjoint_outcomes calls st workers st'). }
  split; [exact Hsame|]. split; [exact Hret|].
  rewrite run_apply_rules_async_submitted, Hsub. cbn [fst snd].
  intros Hnone.
  assert (Hseq : snd (apply_in_order calls st) = None).
  { by destruct (snd (apply_in_order calls st)). }
  assert (Hasync : apply_rules rules st (fst (apply_in_order calls st)) None).
  { eapply apply_rules_returns; [exact Hsub| |].
    - apply (pool_run_in_order calls [] st Hseq).
    - apply Forall_forall. intros p Hp.
      by apply list_elem_of_In, in_map_iff in Hp as (c & <- & _). }
  intros st' r Happly. split.
  - apply (Hret st' r Happly). by apply (Hret _ _ Hasync).
  - by apply (Hsame st' r _ None).
Qed.

Lemma disjoint_rules_pool_agrees_with_async_witness :
  submitted combined_rules
  = inr [ RemoveAttributes (Some ["data-id"]);
          ReplaceAttributeValue "style" "color: red;" "color: blue;";
          AddAttribute "div" "data-processed" "true" ] /\
  forall st' r, apply_rules combined_rules div_document st' r ->
    r = None /\
    soup st' = [ tag_of "root" [];
                 with_list "class" ["header"]
                   (tag_of "div" [("style", "color: blue;");
                                  ("data-processed", "true")]) ].
Proof.
  split; [reflexivity|].
  destruct (disjoint_rules_pool_agrees_with_async combined_rules
              [ RemoveAttributes (Some ["data-id"]);
                ReplaceAttributeValue "style" "color: red;" "color: blue;";
                AddAttribute "div" "data-processed" "true" ] div_document)
    as (_ & _ & Hpool); [reflexivity|reflexivity|].
  intros st' r Happly.
  destruct (Hpool ltac:(vm_compute; reflexivity) st' r Happly) as [-> ->].
  split; [reflexivity|]. vm_compute. reflexivity.
Defined.

(** *** The last addition wins *)

Lemma apply_in_order_names (calls : list call) (st : state) :
  map name (soup (fst (apply_in_order calls st))) = map name (soup st).
Proof.
  revert st. induction calls as [|c calls IH]; intros st; cbn [apply_in_order];
    [done|].
  pose proof (run_names (invoke c) st) as Hc.
  destruct (run (invoke c) st) as [st1 [e|]]; [done|].
  cbn [fst] in Hc. by rewrite IH.
Qed.

(** X10.  When [apply_rules_async] returns, every tag whose stored name is
    [tag.lower()] of the last add entry carries that entry's attribute with
    that entry's value, whatever the removal, the replacements and the
    earlier additions did to it: the operations run in category order and
    the additions come last. *)
Theorem last_addition_wins (rules : Rules.t) (earlier : list AddRule.t)
    (last : AddRule.t) (st : state) (i : nat) (e : Tag) :
  Rules.add_attributes rules = Some (earlier ++ [last]) ->
  snd (run (apply_rules_async rules) st) = None ->
  soup st !! i = Some e ->
  name e = Py.lower (AddRule.tag last) ->
  exists e', soup (fst (run (apply_rules_async rules) st)) !! i = Some e' /\
    name e' = name e /\
    attrs e' !! AddRule.attribute last = Some (Str (AddRule.value last)).
Proof.
  intros Hadd Hret Hi Hname.
  assert (Hsub : (exists err, submitted rules = inl err) \/
                 exists before, submitted rules = inr (before ++ [add_call last])).
  { unfold submitted. rewrite Hadd. unfold items; simpl. rewrite map_app.
    destruct (Rules.remove_attributes rules) as [[|first others]|].
    - left. by eexists.
    - right.
      exists (RemoveAttributes (RemoveRule.attributes first)
              :: map replace_call (default [] (Rules.replace_attributes rules))
              ++ map add_call earlier).
      simpl. by rewrite <- app_assoc.
    - right.
      exists (map replace_call (default [] (Rules.replace_attributes rules))
              ++ map add_call earlier).
      simpl. by rewrite <- app_assoc. }
  rewrite run_apply_rules_async_submitted in *.
  destruct Hsub as [[err Hsub]|[before Hsub]]; rewrite Hsub in *; [done|].
  cbn [fst snd] in *. rewrite apply_in_order_app in *.
  pose proof (apply_in_order_names before st) as Hnames.
  destruct (apply_in_order before st) as [st1 [err|]]; [done|].
  cbn [apply_in_order fst snd add_call invoke] in *.
  rewrite run_add_attribute. cbn [fst soup].
  assert (Hi1 : map name (soup st1) !! i = map name (soup st) !! i)
    by (by rewrite Hnames).
  rewrite !list_lookup_fmap, Hi in Hi1.
  destruct (soup st1 !! i) as [e1|] eqn:He1; simpl in Hi1; [|done].
  injection Hi1 as Hn1.
  exists (set_attr (AddRule.attribute last) (AddRule.value last) e1).
  split; [|split; [done|apply lookup_insert_eq]].
  rewrite list_lookup_fmap, He1. simpl.
  unfold tag_selected. by rewrite Hn1, Hname, String.eqb_refl.
Qed.

Lemma last_addition_wins_witness :
  Rules.add_attributes (remove_and_add "data-id" "DIV" "7")
  = Some ([] ++ [ {| AddRule.tag := "DIV"; AddRule.attribute := "data-id";
                     AddRule.value := "7" |} ]) /\
  exists e', soup (fst (run (apply_rules_async (remove_and_add "data-id" "DIV" "7"))
                          div_document)) !! 1 = Some e' /\
    name e' = "div" /\ attrs e' !! "data-id" = Some (Str "7").
Proof.
  split; [reflexivity|].
  apply (last_addition_wins (remove_and_add "data-id" "DIV" "7") []
           {| AddRule.tag := "DIV"; AddRule.attribute := "data-id";
              AddRule.value := "7" |} div_document 1
           (with_list "class" ["header"]
              (tag_of "div" [("style", "color: red;"); ("data-id", "123")])));
    reflexivity.
Defined.

(** *** Edge cases of the string arguments *)

Lemma prefix_empty (s : string) : String.prefix "" s = true.
Proof. by destruct s. Qed.

(** X11.  An empty string in the property list matches every declaration
    ([startswith("")] is always true), so [remove_style_properties] deletes
    the [style] attribute of every tag (of a tree whose [style] values are
    strings, as the parser leaves them). *)
Theorem empty_property_deletes_every_style (properties : list string)
    (st : state) :
  "" ∈ properties ->
  string_styles (soup st) ->
  snd (run (remove_style_properties (Some properties)) st) = None /\
  forall i e, soup st !! i = Some e ->
    exists e',
      soup (fst (run (remove_style_properties (Some properties)) st)) !! i
        = Some e' /\
      e' = del_attr "style" e /\ attrs e' !! "style" = None.
Proof.
  intros Hin Hstr.
  assert (Hne : properties <> []) by (intros ->; by apply not_elem_of_nil in Hin).
  assert (Hupd : forall v, updated_style properties v = "").
  { intros v. unfold updated_style.
    assert (Hfilter : forall l : list string,
      filter (fun s => negb (existsb (fun prop => Py.startswith (Py.strip s) prop)
                               properties) = true) l = []).
    { intros l. induction l as [|s l IH]; [done|].
      rewrite filter_cons, IH. destruct (decide _) as [Hd|Hd]; [|done].
      apply negb_true_iff, not_true_iff_false in Hd. destruct Hd.
      apply existsb_exists. exists "". split; [by apply list_elem_of_In|].
      apply prefix_empty. }
    by rewrite Hfilter. }
  rewrite run_remove_style_properties by done. split; [done|].
  intros i e Hi. cbn [fst soup]. exists (del_attr "style" e).
  split; [|split; [done|apply lookup_delete_eq]].
  rewrite list_lookup_fmap, Hi. simpl. f_equal. unfold restyled.
  destruct (attrs e !! "style") as [[v|class parts]|] eqn:Hv.
  - by rewrite Hupd.
  - exfalso. unfold string_styles in Hstr. rewrite Forall_lookup in Hstr.
    specialize (Hstr i e Hi). unfold list_at in Hstr. by rewrite Hv in Hstr.
  - symmetry. apply del_attr_absent. by apply has_attr_false.
Qed.

Lemma empty_property_deletes_every_style_witness :
  ("" ∈ ["margin"; ""]) /\
  string_styles (soup div_document) /\
  soup (fst (run (remove_style_properties (Some ["margin"; ""])) div_document))
  = [ tag_of "root" [];
      with_list "class" ["header"] (tag_of "div" [("data-id", "123")]) ].
Proof.
  assert (Hin : "" ∈ ["margin"; ""]) by (right; left).
  assert (Hstr : string_styles (soup div_document)) by (by repeat constructor).
  split; [exact Hin|]. split; [exact Hstr|].
  destruct (empty_property_deletes_every_style ["margin"; ""] div_document
              Hin Hstr) as [_ Hall].
  apply list_eq. intros [|[|i]].
  - destruct (Hall 0 (tag_of "root" []) eq_refl) as (e' & -> & -> & _).
    vm_compute. reflexivity.
  - destruct (Hall 1 (with_list "class" ["header"]
                        (tag_of "div" [("style", "color: red;");
                                       ("data-id", "123")])) eq_refl)
      as (e' & -> & -> & _).
    vm_compute. reflexivity.
  - vm_compute. reflexivity.
Defined.

(** [string_drop k s]: [s] without its first [k] characters. *)
Fixpoint string_drop (k : nat) (s : string) : string :=
  match k, s with
  | S k', String _ s' => string_drop k' s'
  | _, _ => s
  end.

Lemma replace_go_skip (old new : string) (k : nat) (s : string) :
  Py.replace_go old new k s = Py.replace_go old new 0 (string_drop k s).
Proof.
  revert k. induction s as [|c s IH]; intros [|k]; simpl; auto.
Qed.

Lemma string_drop_app (s1 s2 : string) :
  string_drop (String.length s1) (s1 +:+ s2) = s2.
Proof. induction s1 as [|c s1 IH]; simpl; [by destruct s2|done]. Qed.

Lemma length_app_string (s1 s2 : string) :
  String.length (s1 +:+ s2) = String.length s1 + String.length s2.
Proof. induction s1 as [|c s1 IH]; simpl; [done|]. by rewrite <- IH. Qed.

Lemma replace_go_same (d : ascii) (old : string) (n : nat) :
  forall s, String.length s <= n ->
    Py.replace_go (String d old) (String d old) 0 s = s.
Proof.
  induction n as [|n IH]; intros [|c s] Hlen; simpl in Hlen; try done; [lia|].
  cbn [Py.replace_go].
  destruct (String.prefix (String d old) (String c s)) eqn:Hpre.
  - apply prefix_app in Hpre as [post Hpost].
    rewrite app_cons_string in Hpost. simplify_eq.
    cbn [String.length]. rewrite Nat.sub_succ, Nat.sub_0_r.
    rewrite replace_go_skip, string_drop_app, IH; [done|].
    rewrite length_app_string in Hlen. lia.
  - f_equal. apply IH. lia.
Qed.

Lemma intersperse_empty (s : string) : Py.intersperse "" s = s.
Proof. induction s as [|c s IH]; simpl; [done|]. by rewrite IH. Qed.

Lemma replace_same (s old : string) : Py.replace s old old = s.
Proof.
  destruct old as [|c old]; simpl.
  - apply intersperse_empty.
  - by apply (replace_go_same _ _ (String.length s)).
Qed.

Lemma until_bad_fixed (bad : Tag -> bool) (f : Tag -> Tag) (l : list Tag) :
  (forall e, f e = e) -> until_bad bad f l = l.
Proof.
  intros Hf. induction l as [|e l IH]; simpl; [done|].
  destruct (bad e); [done|]. by rewrite Hf, IH.
Qed.

Lemma records_until_silent (bad : Tag -> bool) (g : Tag -> list log_record)
    (l : list Tag) :
  (forall e, g e = []) -> records_until bad g l = [].
Proof.
  intros Hg. induction l as [|e l IH]; simpl; [done|].
  destruct (bad e); [done|]. by rewrite Hg, IH.
Qed.

(** X12.  Replacing a value by itself changes nothing: when the old and the new
    value are equal once their leading and trailing [;] are stripped (as
    with ["x;"] and ["x"]), [replace_attribute_value] leaves every tag as it
    was and logs no update, on every tree.  It returns, unless a tag carries
    the attribute as a non-empty list: then it raises as it always does. *)
Theorem replace_by_itself_changes_nothing (attribute old_value new_value : string)
    (st : state) :
  Py.strip_chars ";" old_value = Py.strip_chars ";" new_value ->
  fst (run (replace_attribute_value attribute old_value new_value) st)
  = write_log (Entered (ReplaceAttributeValue attribute old_value new_value)) st /\
  (snd (run (replace_attribute_value attribute old_value new_value) st) = None
   <-> no_nonempty_list attribute (soup st)).
Proof.
  intros Heq. rewrite run_replace_attribute_value_until. cbn [fst snd].
  assert (Hval : forall v, replaced_value old_value new_value v = v).
  { intros v. unfold replaced_value. rewrite Heq. apply replace_same. }
  split.
  - unfold write_log. f_equal.
    + apply until_bad_fixed. intros e. unfold with_replaced.
      destruct (attrs e !! attribute) as [[v|class parts]|] eqn:Hv; [|done..].
      destruct (Py.is_empty v); [done|]. rewrite Hval. by apply set_attr_same.
    + f_equal. f_equal. apply records_until_silent. intros e.
      unfold updated_records.
      destruct (attrs e !! attribute) as [[v|class parts]|]; [|done..].
      destruct (Py.is_empty v); [done|]. by rewrite Hval, String.eqb_refl.
  - rewrite <- find_no_nonempty_list.
    by destruct (List.find (nonempty_list_at attribute) (soup st)).
Qed.

Lemma replace_by_itself_changes_nothing_witness :
  Py.strip_chars ";" "color: red;" = Py.strip_chars ";" ";color: red" /\
  soup (fst (run (replace_attribute_value "style" "color: red;" ";color: red")
               div_document))
  = soup div_document.
Proof.
  split; [reflexivity|].
  destruct (replace_by_itself_changes_nothing "style" "color: red;"
              ";color: red" div_document eq_refl) as [-> _].
  reflexivity.
Defined.

(** *** Stripping and splitting *)

(** A string that does not begin with a character [f] accepts. *)
Definition starts_clean (f : ascii -> bool) (s : string) : Prop :=
  match s with
  | "" => True
  | String c _ => f c = false
  end.

Lemma lstrip_by_clean (f : ascii -> bool) (s : string) :
  starts_clean f (Py.lstrip_by f s).
Proof.
  induction s as [|c s IH]; simpl; [done|].
  destruct (f c) eqn:Hc; [done|]. by simpl.
Qed.

Lemma lstrip_by_fixed (f : ascii -> bool) (s : string) :
  starts_clean f s -> Py.lstrip_by f s = s.
Proof. destruct s as [|c s]; simpl; [done|]. by intros ->. Qed.

Lemma rstrip_by_clean (f : ascii -> bool) (s : string) :
  starts_clean f s -> starts_clean f (Py.rstrip_by f s).
Proof.
  destruct s as [|c s]; simpl; [done|]. intros Hc.
  destruct (Py.rstrip_by f s); [by rewrite Hc|done].
Qed.

Lemma rstrip_by_idemp (f : ascii -> bool) (s : string) :
  Py.rstrip_by f (Py.rstrip_by f s) = Py.rstrip_by f s.
Proof.
  induction s as [|c s IH]; simpl; [done|].
  destruct (Py.rstrip_by f s) as [|d r] eqn:Hr.
  - destruct (f c) eqn:Hc; simpl; [done|]. by rewrite Hc.
  - cbn [Py.rstrip_by]. cbn [Py.rstrip_by] in IH. by rewrite IH.
Qed.

Lemma strip_by_idemp (f : ascii -> bool) (s : string) :
  Py.rstrip_by f (Py.lstrip_by f (Py.rstrip_by f (Py.lstrip_by f s)))
  = Py.rstrip_by f (Py.lstrip_by f s).
Proof.
  rewrite (lstrip_by_fixed f (Py.rstrip_by f _)).
  - apply rstrip_by_idemp.
  - apply rstrip_by_clean, lstrip_by_clean.
Qed.

Lemma strip_idemp (s : string) : Py.strip (Py.strip s) = Py.strip s.
Proof. apply strip_by_idemp. Qed.

Lemma strip_chars_idemp (chars s : string) :
  Py.strip_chars chars (Py.strip_chars chars s) = Py.strip_chars chars s.
Proof. apply strip_by_idemp. Qed.

Lemma mem_lstrip_by (f : ascii -> bool) (c : ascii) (s : string) :
  Py.mem c s = false -> Py.mem c (Py.lstrip_by f s) = false.
Proof.
  induction s as [|d s IH]; simpl; [done|]. intros H.
  apply orb_false_iff in H as [Hd Hs]. destruct (f d); [by apply IH|].
  simpl. by rewrite Hd, Hs.
Qed.

Lemma mem_rstrip_by (f : ascii -> bool) (c : ascii) (s : string) :
  Py.mem c s = false -> Py.mem c (Py.rstrip_by f s) = false.
Proof.
  induction s as [|d s IH]; simpl; [done|]. intros H.
  apply orb_false_iff in H as [Hd Hs]. specialize (IH Hs).
  destruct (Py.rstrip_by f s) as [|d' r].
  - destruct (f d); simpl; [done|]. by rewrite Hd.
  - simpl in *. by rewrite Hd, IH.
Qed.

Lemma mem_strip (c : ascii) (s : string) :
  Py.mem c s = false -> Py.mem c (Py.strip s) = false.
Proof. intros H. by apply mem_rstrip_by, mem_lstrip_by. Qed.

Lemma split_nonempty (sep : ascii) (s : string) : Py.split sep s <> [].
Proof.
  destruct s as [|c s]; simpl; [done|].
  destruct (Ascii.eqb c sep); [done|]. by destruct (Py.split sep s).
Qed.

Lemma concat_cons_cons (sep a b : string) (l : list string) :
  String.concat sep (a :: b :: l) = a +:+ sep +:+ String.concat sep (b :: l).
Proof. done. Qed.

(** Joining what [split] gives back the string. *)
Lemma join_split (sep : ascii) (s : string) :
  Py.join (String sep "") (Py.split sep s) = s.
Proof.
  unfold Py.join. induction s as [|c s IH]; simpl; [done|].
  destruct (Ascii.eqb c sep) eqn:Hc.
  - apply Ascii.eqb_eq in Hc as ->.
    pose proof (split_nonempty sep s) as Hne.
    destruct (Py.split sep s) as [|w ws]; [done|].
    by rewrite concat_cons_cons, IH.
  - destruct (Py.split sep s) as [|w ws] eqn:Hs.
    + by apply split_nonempty in Hs.
    + destruct ws as [|x xs].
      * simpl in *. by rewrite IH.
      * rewrite concat_cons_cons, app_cons_string, <- concat_cons_cons.
        by rewrite IH.
Qed.

Lemma split_no_sep (sep : ascii) (s : string) :
  Forall (fun w => Py.mem sep w = false) (Py.split sep s).
Proof.
  induction s as [|c s IH]; simpl; [by repeat constructor|].
  destruct (Ascii.eqb c sep) eqn:Hc; [by constructor|].
  destruct (Py.split sep s) as [|w ws]; [repeat constructor; simpl|].
  - rewrite Ascii.eqb_sym. by rewrite Hc.
  - apply Forall_cons in IH as [Hw Hws]. constructor; [|done].
    simpl. rewrite Ascii.eqb_sym. by rewrite Hc, Hw.
Qed.

Lemma split_app_sep (sep : ascii) (d t : string) :
  Py.mem sep d = false ->
  Py.split sep (d +:+ String sep t) = d :: Py.split sep t.
Proof.
  induction d as [|c d IH]; intros Hd.
  - rewrite app_nil_l_string. simpl. by rewrite Ascii.eqb_refl.
  - simpl in Hd. apply orb_false_iff in Hd as [Hc Hd].
    rewrite app_cons_string. simpl. rewrite Ascii.eqb_sym, Hc.
    by rewrite (IH Hd).
Qed.

Lemma split_clean (sep : ascii) (d : string) :
  Py.mem sep d = false -> Py.split sep d = [d].
Proof.
  induction d as [|c d IH]; intros Hd; simpl; [done|].
  simpl in Hd. apply orb_false_iff in Hd as [Hc Hd].
  rewrite Ascii.eqb_sym, Hc. by rewrite (IH Hd).
Qed.

(** Splitting what [join] gives back the list, when no item holds the
    separator. *)
Lemma split_join (sep : ascii) (l : list string) :
  l <> [] ->
  Forall (fun w => Py.mem sep w = false) l ->
  Py.split sep (Py.join (String sep "") l) = l.
Proof.
  unfold Py.join. induction l as [|d l IH]; intros Hne Hall; [done|].
  apply Forall_cons in Hall as [Hd Hall].
  destruct l as [|d2 l].
  - simpl. by apply split_clean.
  - rewrite concat_cons_cons, app_cons_string, app_nil_l_string.
    rewrite (split_app_sep sep d _ Hd). f_equal. by apply IH.
Qed.

Definition is_sep (sep c : ascii) : bool := Py.mem c (String sep "").

Lemma is_sep_eqb (sep c : ascii) : is_sep sep c = Ascii.eqb c sep.
Proof. unfold is_sep; simpl. apply orb_false_r. Qed.

Lemma split_lstrip (sep : ascii) (s : string) :
  Py.split sep (Py.lstrip_by (is_sep sep) s) `suffix_of` Py.split sep s.
Proof.
  induction s as [|c s IH]; simpl; [done|]. rewrite is_sep_eqb.
  destruct (Ascii.eqb c sep) eqn:Hc.
  - by apply suffix_cons_r.
  - simpl. by rewrite Hc.
Qed.

Lemma split_cons_sep (sep c : ascii) (s : string) :
  Ascii.eqb c sep = true ->
  Py.split sep (String c s) = "" :: Py.split sep s.
Proof. simpl. by intros ->. Qed.

Lemma split_cons_other (sep c : ascii) (s : string) :
  Ascii.eqb c sep = false ->
  Py.split sep (String c s)
  = match Py.split sep s with
    | [] => [String c ""]
    | w :: ws => String c w :: ws
    end.
Proof. simpl. by intros ->. Qed.

Lemma split_rstrip (sep : ascii) (s : string) :
  Py.split sep (Py.rstrip_by (is_sep sep) s) `prefix_of` Py.split sep s.
Proof.
  induction s as [|c s IH]; [done|].
  cbn [Py.rstrip_by]. rewrite is_sep_eqb.
  destruct (Ascii.eqb c sep) eqn:Hc.
  - rewrite (split_cons_sep sep c s Hc).
    destruct (Py.rstrip_by (is_sep sep) s) as [|d r].
    + simpl. by apply prefix_cons, prefix_nil.
    + rewrite (split_cons_sep sep c _ Hc). by apply prefix_cons.
  - rewrite (split_cons_other sep c s Hc).
    assert (Hgo : match Py.split sep (Py.rstrip_by (is_sep sep) s) with
                  | [] => [String c ""]
                  | w :: ws => String c w :: ws
                  end `prefix_of`
                  match Py.split sep s with
                  | [] => [String c ""]
                  | w :: ws => String c w :: ws
                  end).
    { destruct (Py.split sep (Py.rstrip_by (is_sep sep) s)) as [|w' ws'] eqn:Hs';
        [by apply split_nonempty in Hs'|].
      destruct (Py.split sep s) as [|w ws]; [by apply prefix_nil_inv in IH|].
      destruct IH as [k Hk]. simplify_eq/=. by apply prefix_cons, prefix_app_r. }
    destruct (Py.rstrip_by (is_sep sep) s) as [|d r].
    + rewrite (split_cons_other sep c _ Hc). exact Hgo.
    + rewrite (split_cons_other sep c _ Hc). exact Hgo.
Qed.

Lemma filter_all {A : Type} (P : A -> Prop) `{forall x, Decision (P x)}
    (l : list A) :
  Forall P l -> filter P l = l.
Proof.
  induction 1 as [|x l Hx _ IH]; [done|].
  rewrite filter_cons, IH. by rewrite decide_True.
Qed.

Lemma map_fixed {A : Type} (f : A -> A) (l : list A) :
  Forall (fun x => f x = x) l -> map f l = l.
Proof. induction 1 as [|x l Hx _ IH]; simpl; [done|]. by rewrite Hx, IH. Qed.

(** A style value that [remove_style_properties] has written is left as it
    is by a second pass with the same properties. *)
Lemma updated_style_fixed (properties : list string) (v : string) :
  updated_style properties v <> "" ->
  updated_style properties (updated_style properties v)
  = updated_style properties v.
Proof.
  intros Hne. unfold updated_style in *.
  set (P := fun s : string =>
              negb (existsb (fun prop => Py.startswith (Py.strip s) prop)
                      properties) = true) in *.
  set (D := map Py.strip (filter P (Py.split ";" v))) in *.
  set (U := Py.strip_chars ";" (Py.join ";" D)) in *.
  assert (Hclean : Forall (fun w => Py.mem ";" w = false) D).
  { apply Forall_forall. intros d Hd.
    apply list_elem_of_In, in_map_iff in Hd as (s & <- & Hs).
    apply list_elem_of_In, list_elem_of_filter in Hs as [_ Hs].
    apply mem_strip.
    by apply (proj1 (Forall_forall _ _) (split_no_sep ";" v)). }
  assert (HD : D <> []).
  { intros HD. apply Hne. unfold U. by rewrite HD. }
  assert (Hgood : Forall (fun d => Py.strip d = d /\ P d) D).
  { apply Forall_forall. intros d Hd.
    apply list_elem_of_In, in_map_iff in Hd as (s & <- & Hs).
    apply list_elem_of_In, list_elem_of_filter in Hs as [Hs _].
    split; [apply strip_idemp|]. unfold P in *. by rewrite strip_idemp. }
  assert (Hsub : forall d, d ∈ Py.split ";" U -> d ∈ D).
  { intros d Hd. rewrite <- (split_join ";" D HD Hclean).
    pose proof (split_rstrip ";" (Py.lstrip_by (is_sep ";") (Py.join ";" D)))
      as [k1 Hk1].
    pose proof (split_lstrip ";" (Py.join ";" D)) as [k2 Hk2].
    rewrite Hk2, Hk1. apply elem_of_app. right. apply elem_of_app. by left. }
  assert (Hall : Forall (fun d => Py.strip d = d /\ P d) (Py.split ";" U)).
  { apply Forall_forall. intros d Hd.
    by apply (proj1 (Forall_forall _ _) Hgood), Hsub. }
  rewrite (filter_all P).
  2: { eapply Forall_impl; [exact Hall|]. by intros d [_ ?]. }
  rewrite map_fixed.
  2: { eapply Forall_impl; [exact Hall|]. by intros d [? _]. }
  rewrite (join_split ";"). apply strip_chars_idemp.
Qed.

Lemma restyled_idemp (properties : list string) (e : Tag) :
  restyled properties (restyled properties e) = restyled properties e.
Proof.
  unfold restyled at 2 3.
  destruct (attrs e !! "style") as [[v|class parts]|] eqn:Hv.
  - destruct (Py.is_empty (updated_style properties v)) eqn:Hempty.
    + unfold restyled. simpl. by rewrite lookup_delete_eq.
    + unfold restyled. simpl. rewrite lookup_insert_eq.
      rewrite updated_style_fixed; [|by intros Heq; rewrite Heq in Hempty].
      rewrite Hempty. unfold set_attr; simpl. by rewrite insert_insert_eq.
  - unfold restyled. by rewrite Hv.
  - unfold restyled. by rewrite Hv.
Qed.

(** The rewriting writes strings: it leaves no [style] that is a list. *)
Lemma string_styles_restyled (properties : list string) (l : list Tag) :
  string_styles l -> string_styles (map (restyled properties) l).
Proof.
  unfold string_styles. rewrite Forall_map. intros Hall.
  eapply Forall_impl; [exact Hall|].
  intros e. simpl. unfold list_at, restyled.
  destruct (attrs e !! "style") as [[v|class parts]|] eqn:Hv; [|done|].
  - intros _. destruct (Py.is_empty _); simpl.
    + by rewrite lookup_delete_eq.
    + by rewrite lookup_insert_eq.
  - by rewrite Hv.
Qed.

(** X13.  [remove_style_properties] is idempotent: a second call with the same
    non-empty property list leaves the tree as the first call left it (a
    tree whose [style] values are strings, as the parser leaves them). *)
Theorem remove_style_properties_idempotent (properties : list string)
    (st : state) :
  properties <> [] ->
  string_styles (soup st) ->
  let once := fst (run (remove_style_properties (Some properties)) st) in
  snd (run (remove_style_properties (Some properties)) once) = None /\
  soup (fst (run (remove_style_properties (Some properties)) once)) = soup once.
Proof.
  intros Hne Hstr once. subst once.
  rewrite (run_remove_style_properties properties st) by done. cbn [fst].
  rewrite run_remove_style_properties;
    [|done|by apply string_styles_restyled].
  simpl. split; [done|]. rewrite map_map. apply map_ext. intros e.
  apply restyled_idemp.
Qed.

Lemma remove_style_properties_idempotent_witness :
  ["border"] <> [] /\
  string_styles
    (soup (fresh [tag_of "p" [("style", " ; a: 1 ;; border: 0; b: 2;")]])) /\
  soup (fst (run (remove_style_properties (Some ["border"]))
               (fst (run (remove_style_properties (Some ["border"]))
                       (fresh [tag_of "p" [("style", " ; a: 1 ;; border: 0; b: 2;")]])))))
  = [tag_of "p" [("style", "a: 1;;b: 2")]].
Proof.
  assert (Hstr : string_styles
            (soup (fresh [tag_of "p" [("style", " ; a: 1 ;; border: 0; b: 2;")]])))
    by (by repeat constructor).
  split; [discriminate|]. split; [exact Hstr|].
  destruct (remove_style_properties_idempotent ["border"]
              (fresh [tag_of "p" [("style", " ; a: 1 ;; border: 0; b: 2;")]]))
    as [_ Hsoup]; [discriminate|exact Hstr|].
  rewrite Hsoup. vm_compute. reflexivity.
Defined.

(** X14.  Removing in two calls is removing in one: [remove_attributes] with
    a first list and then with a second list leaves the tree that one call
    with the two lists concatenated leaves. *)
Theorem remove_attributes_in_two_calls (attributes1 attributes2 : list string)
    (st : state) :
  attributes1 <> [] -> attributes2 <> [] ->
  soup (fst (run (remove_attributes (Some attributes2))
               (fst (run (remove_attributes (Some attributes1)) st))))
  = soup (fst (run (remove_attributes (Some (attributes1 ++ attributes2))) st)).
Proof.
  intros H1 H2.
  assert (H12 : attributes1 ++ attributes2 <> []).
  { intros H. by apply app_eq_nil in H as [? _]. }
  rewrite !run_remove_attributes by done. simpl. rewrite map_map.
  apply map_ext. intros e. unfold without_attributes. by rewrite foldl_app.
Qed.

Lemma remove_attributes_in_two_calls_witness :
  ["width"] <> [] /\ ["height"; "alt"] <> [] /\
  soup (fst (run (remove_attributes (Some ["height"; "alt"]))
               (fst (run (remove_attributes (Some ["width"])) img_document))))
  = [ tag_of "root" []; tag_of "img" [("src", "image.png")] ].
Proof.
  split; [discriminate|]. split; [discriminate|].
  rewrite (remove_attributes_in_two_calls ["width"] ["height"; "alt"]
             img_document); [|discriminate..].
  vm_compute. reflexivity.
Defined.

(** *** The pool without a removal *)

(** [v] is a non-empty list. *)
Definition is_nonempty_list (v : value) : bool :=
  match v with
  | Lst _ (_ :: _) => true
  | _ => false
  end.

(** [sure n N K p]: in a tree of [n] tags in which no attribute in [N] is a
    non-empty list, the attributes listed in [K] (handle and name) are
    present, and nothing is ever deleted, [p] deletes nothing and does not
    raise. *)
Fixpoint sure (n : nat) (N : string -> Prop) (K : list (nat * string))
    (p : prog) : Prop :=
  match p with
  | Done => True
  | Raise _ => False
  | Log _ k => sure n N K k
  | FindAll k => sure n N K (k (seq 0 n))
  | GetName _ k => forall nm, sure n N K (k nm)
  | HasAttr _ _ k => forall b, sure n N K (k b)
  | GetAttr i a k =>
      (forall v, (N a -> is_nonempty_list v = false) -> sure n N K (k (Some v)))
      /\ ((i, a) ∈ K \/ sure n N K (k None))
  | SetItem i a _ k => i < n /\ sure n N ((i, a) :: K) k
  | DelItem _ _ _ => False
  end.

Lemma sure_weaken (n : nat) (N : string -> Prop) (p : prog) :
  forall K K', (forall x, x ∈ K -> x ∈ K') -> sure n N K p -> sure n N K' p.
Proof.
  induction p as [|e|r k IH|k IH|i k IH|i a k IH|i a k IH|i a v k IH|i a k IH];
    intros K K' Hsub; simpl; try done; eauto.
  - intros [Hsome Hnone]. split; [by eauto|].
    destruct Hnone as [Hin|Hnone]; [left; by apply Hsub|right; by eauto].
  - intros [Hlt Hk]. split; [done|]. eapply IH; [|exact Hk].
    intros x [->|Hx]%elem_of_cons; [by left|right; by apply Hsub].
Qed.

Lemma sure_andthen (n : nat) (N : string -> Prop) (p q : prog) :
  forall K, sure n N K p -> sure n N [] q -> sure n N K (andthen p q).
Proof.
  induction p as [|e|r k IH|k IH|i k IH|i a k IH|i a k IH|i a v k IH|i a k IH];
    intros K Hp Hq; simpl in *; try done; eauto.
  - eapply sure_weaken; [|exact Hq]. by intros x Hx%not_elem_of_nil.
  - destruct Hp as [Hsome Hnone]. split; [by eauto|].
    destruct Hnone as [Hin|Hnone]; [by left|right; by eauto].
  - destruct Hp as [Hlt Hk]. split; [done|by eauto].
Qed.

Lemma sure_try_except (n : nat) (N : string -> Prop) (p : prog)
    (h : exn -> prog) :
  forall K, sure n N K p -> sure n N K (try_except p h).
Proof.
  induction p as [|e|r k IH|k IH|i k IH|i a k IH|i a k IH|i a v k IH|i a k IH];
    intros K Hp; simpl in *; try done; eauto.
  - destruct Hp as [Hsome Hnone]. split; [by eauto|].
    destruct Hnone as [Hin|Hnone]; [by left|right; by eauto].
  - destruct Hp as [Hlt Hk]. split; [done|by eauto].
Qed.

Lemma sure_for_each {A : Type} (n : nat) (N : string -> Prop) (l : list A)
    (body : A -> prog) (K : list (nat * string)) :
  (forall x, x ∈ l -> sure n N [] (body x)) -> sure n N K (for_each l body).
Proof.
  intros Hbody. eapply sure_weaken with (K := []);
    [by intros x Hx%not_elem_of_nil|].
  induction l as [|x l IH]; simpl; [done|].
  apply sure_andthen; [apply Hbody; by left|].
  apply IH. intros y Hy. apply Hbody. by right.
Qed.

Lemma sure_select (n : nat) (N : string -> Prop) (K : list (nat * string))
    (test : nat -> (bool -> prog) -> prog) (elems : list nat) :
  (forall i kb, (forall b, sure n N K (kb b)) -> sure n N K (test i kb)) ->
  forall k,
    (forall found, (forall x, x ∈ found -> x ∈ elems) -> sure n N K (k found)) ->
    sure n N K (select test elems k).
Proof.
  intros Htest. induction elems as [|i elems IH]; intros k Hk; simpl.
  - apply Hk. by intros x Hx.
  - apply Htest. intros b. apply IH. intros found Hfound. apply Hk.
    destruct b; intros x Hx.
    + apply elem_of_cons in Hx as [->|Hx]; [by left|right; by apply Hfound].
    + right. by apply Hfound.
Qed.

Lemma sure_replace_attribute_value (n : nat) (N : string -> Prop)
    (attribute old_value new_value : string) :
  N attribute ->
  sure n N [] (replace_attribute_value attribute old_value new_value).
Proof.
  intros HN. unfold replace_attribute_value, logging_debug, find_all_attrs.
  cbn [andthen sure]. apply sure_select; [by intros i kb Hkb|].
  intros found Hfound. apply sure_try_except.
  apply sure_for_each. intros elem Helem.
  assert (Hlt : elem < n).
  { apply Hfound, elem_of_seq in Helem. lia. }
  split; [|by right]. intros current Hcur. specialize (Hcur HN).
  destruct current as [current|class [|part parts]]; [|done..].
  cbn [is_falsy_value]. destruct (Py.is_empty current); [done|]. cbv zeta.
  destruct (String.eqb _ _); [done|]. simpl. split; [done|].
  split; [done|]. left. by left.
Qed.

Lemma sure_add_attribute (n : nat) (N : string -> Prop)
    (tag attribute value : string) :
  sure n N [] (add_attribute tag attribute value).
Proof.
  unfold add_attribute, logging_debug, find_all_name.
  cbn [andthen sure]. apply sure_try_except. cbn [sure].
  apply sure_select; [intros i kb Hkb; simpl; intros nm; apply Hkb|].
  intros found Hfound. apply sure_for_each. intros elem Helem.
  assert (Hlt : elem < n).
  { apply Hfound, elem_of_seq in Helem. lia. }
  simpl. by split.
Qed.

Definition facts_hold (K : list (nat * string)) (st : state) : Prop :=
  forall i a, (i, a) ∈ K -> present a i st.

(** No attribute in [N] is a non-empty list, on any tag. *)
Definition lists_free (N : string -> Prop) (st : state) : Prop :=
  forall i a v, N a -> attr_at st i a = Some v -> is_nonempty_list v = false.

Lemma present_set_item (a v : string) (i : nat) (st : state) :
  i < length (soup st) ->
  present a i (with_soup (alter (set_attr a v) i) st).
Proof.
  intros Hlt. apply lookup_lt_is_Some in Hlt as [e He].
  exists (set_attr a v e). split.
  - simpl. by rewrite list_lookup_alter_eq, He.
  - apply has_attr_true. exists (Str v). apply lookup_insert_eq.
Qed.

Lemma present_attr_at (a : string) (i : nat) (st : state) :
  present a i st -> exists v, attrs (tag_at st i) !! a = Some v.
Proof.
  intros (e & He & Ha). unfold tag_at. rewrite He. simpl.
  by apply has_attr_true.
Qed.

(** A step of a sure program keeps it sure, keeps the size of the tree,
    takes no attribute away and writes no list. *)
Lemma sure_act (n : nat) (N : string -> Prop) (K : list (nat * string))
    (p p' : prog) (st st' : state) :
  sure n N K p -> length (soup st) = n -> facts_hold K st ->
  lists_free N st ->
  act p st = Some (p', st') ->
  (exists K', sure n N K' p' /\ facts_hold K' st') /\
  length (soup st') = n /\
  (forall i a, present a i st -> present a i st') /\
  lists_free N st'.
Proof.
  intros Hs Hn HK Hfree Hact. subst n.
  destruct p as [|e|r k|k|j k|j b k|j b k|j b v k|j b k]; simpl in *;
    simplify_eq; try done.
  - split; [by exists K|]. split; [done|]. split; [|done].
    intros i a (e & ? & ?). by exists e.
  - split; [by exists K|done].
  - split; [by exists K|done].
  - split; [by exists K|done].
  - split; [|done]. exists K. split; [|done]. destruct Hs as [Hsome Hnone].
    destruct (attrs (tag_at st' j) !! b) as [v|] eqn:Hv.
    + apply Hsome. intros HN. by apply (Hfree j b v HN).
    + destruct Hnone as [Hin|Hnone]; [|done].
      apply HK, present_attr_at in Hin as [v Hv']. congruence.
  - destruct Hs as [Hlt Hs].
    assert (Hgrow : forall i a, present a i st ->
              present a i (with_soup (alter (set_attr b v) j) st)).
    { intros i a. apply present_alter. intros e. apply has_attr_set_attr. }
    split; [|split; [apply length_alter|split; [done|]]].
    + exists ((j, b) :: K). split; [done|].
      intros i a [Heq|Hin]%elem_of_cons.
      * simplify_eq. by apply present_set_item.
      * by apply Hgrow, HK.
    + intros i a w HN. rewrite attr_at_set.
      destruct (decide _); [by intros ?; simplify_eq|]. by apply Hfree.
Qed.

(** In a pool of sure workers no worker ever raises. *)
Lemma pool_sure (n : nat) (N : string -> Prop) (c c' : list prog * state) :
  rtc pool_step c c' ->
  length (soup c.2) = n ->
  lists_free N c.2 ->
  Forall (fun p => exists K, sure n N K p /\ facts_hold K c.2) c.1 ->
  Forall (fun p => exists K, sure n N K p /\ facts_hold K c'.2) c'.1.
Proof.
  induction 1 as [c|c1 c2 c3 Hstep _ IH]; [done|].
  inversion Hstep as [ws st i p p' st' Hi Hact]; subst; simpl in *.
  intros Hn Hfree Hall.
  destruct (Forall_lookup_1 _ _ _ _ Hall Hi) as (K & Hs & HK).
  destruct (sure_act n N K p p' st st' Hs Hn HK Hfree Hact)
    as ((K' & Hs' & HK') & Hn' & Hgrow & Hfree').
  apply IH; [done|done|]. apply Forall_insert; [|by exists K'].
  eapply Forall_impl; [exact Hall|]. intros q (Kq & Hq & HKq).
  exists Kq. split; [done|]. intros j a Hin. by apply Hgrow, HKq.
Qed.

Lemma lists_free_initial (N : string -> Prop) (st : state) :
  (forall a, N a -> no_nonempty_list a (soup st)) -> lists_free N st.
Proof.
  intros Hall i a v HN. unfold attr_at, tag_at.
  destruct (soup st !! i) as [e|] eqn:He; simpl; [|done].
  pose proof (Forall_lookup_1 _ _ _ _ (Hall a HN) He) as Hok.
  unfold nonempty_list_at in Hok. intros Hv. rewrite Hv in Hok.
  by destruct v as [|class [|part parts]].
Qed.

(** X15.  Without a [remove_attributes] key, and on a tree in which no tag
    carries as a non-empty list an attribute that a replace entry names,
    [apply_rules] never raises (for a rule set whose entries carry all their
    keys): nothing is deleted between the write of
    [replace_attribute_value] and its reading back, and no list is written,
    whatever the interleaving of the pool, so every call returns. *)
Theorem apply_rules_without_removal_returns (rules : Rules.t) (st st' : state)
    (r : option exn) :
  Rules.remove_attributes rules = None ->
  (forall rule, rule ∈ items (Rules.replace_attributes rules) ->
     no_nonempty_list (ReplaceRule.attribute rule) (soup st)) ->
  apply_rules rules st st' r ->
  r = None.
Proof.
  intros Hrem Hstr Happly.
  destruct Happly as [e He|calls workers st' Hc Hsteps Hall
                     |calls workers st' i e Hc Hsteps Hfin Hi]; [|done|].
  - unfold submitted in He. by rewrite Hrem in He.
  - exfalso. unfold submitted in Hc. rewrite Hrem in Hc. simplify_eq.
    pose (N := fun a => exists rule,
                 rule ∈ items (Rules.replace_attributes rules) /\
                 ReplaceRule.attribute rule = a).
    pose proof (pool_sure (length (soup st)) N _ _ Hsteps eq_refl) as Hsure.
    simpl in Hsure.
    assert (Hfree : lists_free N st).
    { apply lists_free_initial. intros a (rule & Hin & <-). by apply Hstr. }
    assert (Hinit : Forall
              (fun p => exists K, sure (length (soup st)) N K p /\ facts_hold K st)
              (map invoke ([] ++ map replace_call (items (Rules.replace_attributes rules))
                           ++ map add_call (items (Rules.add_attributes rules))))).
    { apply Forall_forall. intros p Hp.
      apply list_elem_of_In, in_map_iff in Hp as (c & <- & Hc).
      exists []. split; [|by intros j a Hin%not_elem_of_nil].
      simpl in Hc. apply in_app_iff in Hc as [Hc|Hc];
        apply in_map_iff in Hc as (rule & <- & Hrule).
      - apply sure_replace_attribute_value. exists rule.
        split; [by apply list_elem_of_In|done].
      - apply sure_add_attribute. }
    destruct (Forall_lookup_1 _ _ _ _ (Hsure Hfree Hinit) Hi) as (K & Hs & _).
    done.
Qed.

Lemma apply_rules_without_removal_returns_witness :
  Rules.remove_attributes (without_remove combined_rules) = None /\
  (forall rule,
     rule ∈ items (Rules.replace_attributes (without_remove combined_rules)) ->
     no_nonempty_list (ReplaceRule.attribute rule) (soup div_document)) /\
  forall st' r, apply_rules (without_remove combined_rules) div_document st' r ->
    r = None.
Proof.
  assert (Hstr : forall rule,
            rule ∈ items (Rules.replace_attributes (without_remove combined_rules)) ->
            no_nonempty_list (ReplaceRule.attribute rule) (soup div_document)).
  { intros rule Hin. apply list_elem_of_singleton in Hin as ->.
    by repeat constructor. }
  split; [reflexivity|]. split; [exact Hstr|]. intros st' r Happly.
  apply (apply_rules_without_removal_returns (without_remove combined_rules)
           div_document st' r eq_refl Hstr Happly).
Defined.
